(** * WebSight: session manager, target resolver, interaction executor and
      diff engine

    A shallow embedding of [src/tools/session.ts], [src/tools/compare.ts],
    [src/tools/detect.ts] and the request handler of [src/mcp-server.ts].

    Conventions of the embedding.
    - A JavaScript string is a [string]; its characters are the code units
      of the source text.  The case folding [s.toLowerCase()] is a function
      of the outside world, so that the statements hold for every folding;
      the example worlds fold the letters [A]-[Z].
    - [T | null] and optional fields are [option T].
    - A JavaScript number that the code uses as an integer is a [Z].  The
      pixel percentage is a binary64 Number: it is the rational number that
      the Number denotes, and every arithmetic operation on it rounds to
      the nearest binary64 value (module [Double]).
    - Everything the program obtains from outside (the browser driven through
      Playwright, the file system, the clock, the environment variables and
      the library functions [pixelmatch], [path.join], [path.dirname] and
      [new URL(..).host]) is a field of the record [World].  A call of the
      browser or of the file system is recorded in a trace of [Event]s.
    - [async] functions are sequential programs in a state and exception
      monad [M]: a computation either returns a value or throws, and
      [try]/[catch] is [try_catch]. *)

From Stdlib Require Import String Ascii List ZArith QArith Qround Bool Lia.
From Stdlib Require Import Qpower Qreduction Lqa DecimalString.
From Stdlib Require SpecFloat.
Import ListNotations.
Open Scope string_scope.

Set Implicit Arguments.

(* ================================================================== *)
(** * JavaScript strings *)
(* ================================================================== *)

Module Js.

(** The double quote character as a one-character string. *)
Definition dq : string := String (ascii_of_nat 34) EmptyString.

(** A string between double quotes, as in the template ["${s}"]. *)
Definition quoted (s : string) : string := dq ++ s ++ dq.

(** [s.startsWith(p)] *)
Definition startsWith (s p : string) : bool := String.prefix p s.

(** [s.includes(sub)] *)
Fixpoint includes (s sub : string) : bool :=
  String.prefix sub s ||
  match s with
  | EmptyString => false
  | String _ s' => includes s' sub
  end.

Definition lower_char (c : ascii) : ascii :=
  let n := nat_of_ascii c in
  if (65 <=? n)%nat && (n <=? 90)%nat then ascii_of_nat (n + 32) else c.

(** [s.toLowerCase()] on the letters of the ASCII range. *)
Fixpoint toLowerCase (s : string) : string :=
  match s with
  | EmptyString => EmptyString
  | String c s' => String (lower_char c) (toLowerCase s')
  end.

(** The class [\w] of a regular expression without flags:
    [A-Za-z0-9_]. *)
Definition is_word_char (c : ascii) : bool :=
  let n := nat_of_ascii c in
  ((65 <=? n)%nat && (n <=? 90)%nat) ||
  ((97 <=? n)%nat && (n <=? 122)%nat) ||
  ((48 <=? n)%nat && (n <=? 57)%nat) ||
  (n =? 95)%nat.

Definition is_hyphen (c : ascii) : bool := (nat_of_ascii c =? 45)%nat.

Fixpoint all_chars (p : ascii -> bool) (s : string) : bool :=
  match s with
  | EmptyString => true
  | String c s' => p c && all_chars p s'
  end.

(** [/^[\w-]+$/.test(s)]: at least one character, each of them a word
    character or a hyphen. *)
Definition test_word_hyphen (s : string) : bool :=
  match s with
  | EmptyString => false
  | String _ _ => all_chars (fun c => is_word_char c || is_hyphen c) s
  end.

(** Truthiness of a string: the empty string is falsy. *)
Definition truthy (s : string) : bool :=
  match s with EmptyString => false | String _ _ => true end.

(** Truthiness of an optional string ([undefined] is falsy). *)
Definition truthy_opt (o : option string) : bool :=
  match o with Some s => truthy s | None => false end.

(** [a || b] on strings. *)
Definition or_else (a : option string) (b : string) : string :=
  match a with
  | Some s => if truthy s then s else b
  | None => b
  end.

(** [parts.join(sep)] *)
Fixpoint join (sep : string) (parts : list string) : string :=
  match parts with
  | [] => ""
  | [p] => p
  | p :: rest => p ++ sep ++ join sep rest
  end.

Definition is_space (c : ascii) : bool :=
  let n := nat_of_ascii c in
  (n =? 32)%nat || ((9 <=? n)%nat && (n <=? 13)%nat).

Fixpoint trim_left (s : string) : string :=
  match s with
  | EmptyString => EmptyString
  | String c s' => if is_space c then trim_left s' else s
  end.

Fixpoint trim_right (s : string) : string :=
  match s with
  | EmptyString => EmptyString
  | String c s' =>
      let r := trim_right s' in
      if is_space c && negb (truthy r) then EmptyString else String c r
  end.

(** [s.trim()], for the white space of the ASCII range. *)
Definition trim (s : string) : string := trim_right (trim_left s).

(** The value of [x] in [if (x)] and [x || y]: [undefined] and the empty
    string count as absent. *)
Definition supplied (o : option string) : option string :=
  match o with
  | Some s => if truthy s then Some s else None
  | None => None
  end.

(** [a === b] on strings. *)
Definition eqb_opt (a b : option string) : bool :=
  match a, b with
  | Some x, Some y => String.eqb x y
  | None, None => true
  | _, _ => false
  end.

(** The rendering of an integer in a template literal. *)
Definition show_Z (z : Z) : string := NilZero.string_of_int (Z.to_int z).

(** The rendering in a template literal of a Number that is nearest to a
    whole number of hundredths, as every [diffPercent] is: the shortest
    decimal that denotes the Number, which is that of the hundredths,
    [100], [0.5], [12.34]. *)
Definition show_hundredths (q : Q) : string :=
  let k := Qfloor (q * 100 + (1 # 2)) in
  let ip := (k / 100)%Z in
  let fp := (k mod 100)%Z in
  if (fp =? 0)%Z then show_Z ip
  else if (fp mod 10 =? 0)%Z then show_Z ip ++ "." ++ show_Z (fp / 10)
  else show_Z ip ++ "." ++ (if (fp <? 10)%Z then "0" else "") ++ show_Z fp.

(** [Math.round(x)]: the nearest integer, halves upwards. *)
Definition round (x : Q) : Z := Qfloor (x + (1 # 2)).

(** The rendering of a string or [null] in a template literal. *)
Definition show_nullable (o : option string) : string :=
  match o with
  | Some s => s
  | None => "null"
  end.

End Js.

(* ================================================================== *)
(** * JavaScript numbers: binary64 arithmetic *)
(* ================================================================== *)

(** A JavaScript Number is an IEEE 754 binary64 value.  A finite value is a
    rational number and is modelled by that number; an arithmetic operation
    gives the binary64 value nearest to its exact result, an exact half of a
    unit in the last place going to the even mantissa.  Infinities and NaN
    are outside the model: the values of this program stay far below
    [2^1024], and the statements exclude a division by zero. *)
Module Double.

(** The integer nearest to [N / D], for [0 < D]; an exact half goes to the
    even neighbour. *)
Definition nearest_even (N D : Z) : Z :=
  let q := (N / D)%Z in
  match (2 * (N mod D) ?= D)%Z with
  | Lt => q
  | Gt => (q + 1)%Z
  | Eq => if Z.even q then q else (q + 1)%Z
  end.

(** [floor (log2 x)], for [0 < x]. *)
Definition binade (x : Q) : Z :=
  let c := (Z.log2 (Qnum x) - Z.log2 (Zpos (Qden x)))%Z in
  if Qle_bool (2 ^ c) x then c else (c - 1)%Z.

(** The exponent of the unit in the last place of [x]: the mantissa has 53
    bits, and the subnormal numbers below [2^-1022] share the exponent
    [-1074]. *)
Definition ulp_exponent (x : Q) : Z := Z.max (binade x - 52) (-1074).

(** The binary64 value nearest to [x], for [0 < x]. *)
Definition round_pos (x : Q) : Q :=
  let e := ulp_exponent x in
  let s := x * 2 ^ (- e) in
  inject_Z (nearest_even (Qnum s) (Zpos (Qden s))) * 2 ^ e.

(** The binary64 value nearest to [x]. *)
Definition round (x : Q) : Q :=
  match Qnum (Qred x) with
  | Z0 => 0
  | Zpos _ => round_pos (Qred x)
  | Zneg _ => - round_pos (- Qred x)
  end.

(** [x * y] and [x / y] on Numbers. *)
Definition mul (x y : Q) : Q := round (x * y).
Definition div (x y : Q) : Q := round (x / y).

(** Half the distance between 1 and the next binary64 value. *)
Definition epsilon : Q := 2 ^ (-53).

(** The rational number that a finite value of the standard library's
    specification of IEEE arithmetic denotes, and the integer [z] as a value
    of that specification. *)
Definition of_spec (f : SpecFloat.spec_float) : Q :=
  match f with
  | SpecFloat.S754_finite s m e =>
      (if s then -1 else 1) * inject_Z (Zpos m) * 2 ^ e
  | _ => 0
  end.

Definition spec_of_Z (z : Z) : SpecFloat.spec_float :=
  SpecFloat.binary_normalize 53 1024 z 0 false.

End Double.

(* ================================================================== *)
(** * Data model ([src/tools/types.ts]) *)
(* ================================================================== *)

Record Bounds := { bx : Z; by_ : Z; bw : Z; bh : Z }.

Record ViewportInfo := { vp_width : Z; vp_height : Z }.

Record FoldAwareness :=
  { inViewport : bool; belowFold : bool; aboveFold : bool }.

Inductive LandmarkType := LHeader | LNav | LMain | LAside | LFooter.

Module Landmark.
Record t := {
    type : LandmarkType;
    selector : string;
    bounds : Bounds;
    label : option string;
    fold : FoldAwareness }.
End Landmark.

Module Section_.
Record t := {
    name : string;
    tag : string;
    bounds : Bounds;
    headingLevel : option Z;
    headingText : option string;
    testId : option string;
    ariaLabel : option string;
    fold : FoldAwareness }.
End Section_.

Inductive OverlayType := OModal | OToast.

Module Overlay.
Record t := {
    type : OverlayType;
    visible : bool;
    bounds : Bounds;
    label : option string;
    testId : option string;
    coversPage : bool }.
End Overlay.

Inductive LocatorType := LtTestId | LtId | LtRole | LtCss.

Definition LocatorType_eqb (a b : LocatorType) : bool :=
  match a, b with
  | LtTestId, LtTestId | LtId, LtId | LtRole, LtRole | LtCss, LtCss => true
  | _, _ => false
  end.

Module LocatorHint.
Record t := {
    type : LocatorType;
    value : string;
    roleAndName : option (string * string) }.
End LocatorHint.

Module Action.
Record t := {
    role : string;
    name : string;
    tag : string;
    disabled : bool;
    bounds : Bounds;
    locator : LocatorHint.t;
    fold : FoldAwareness }.
End Action.

Module Theme.
Record t := {
    bodyBackground : string;
    bodyTextColor : string;
    bodyFontFamily : string;
    bodyFontSize : string;
    lineHeight : string;
    fonts : list string;
    fontSizes : list string;
    textColors : list string;
    backgroundColors : list (string * Z);
    borderColors : list string;
    borderRadii : list string;
    (** [Record<string, string>]: the entries in insertion order. *)
    cssVariables : list (string * string) }.
End Theme.

(** [ClassInfo] is produced by the class extractor and only stored; its
    contents are opaque here. *)
Record ClassInfo := { class_custom : list string }.

Module PageSnapshot.
Record t := {
    url : string;
    title : string;
    viewport : ViewportInfo;
    theme : Theme.t;
    landmarks : list Landmark.t;
    sections : list Section_.t;
    overlays : list Overlay.t;
    actions : list Action.t;
    classes : option ClassInfo;
    textSample : string;
    screenshotPath : option string;
    timestamp : string }.
End PageSnapshot.

(* ================================================================== *)
(** * Target resolver ([findSelector], session.ts) *)
(* ================================================================== *)

(** The first test of [findSelector]: the target looks like a selector. *)
Definition looks_like_selector (target : string) : bool :=
  Js.startsWith target "[" || Js.startsWith target "#" ||
  Js.startsWith target "." || Js.includes target "=".

(** The predicate passed to [snapshot.actions.find]; [toLowerCase] is the
    case folding of the platform. *)
Definition action_matches (toLowerCase : string -> string)
           (target : string) (a : Action.t) : bool :=
  Js.includes (toLowerCase (Action.name a)) (toLowerCase target) ||
  (LocatorType_eqb (LocatorHint.type (Action.locator a)) LtTestId &&
   Js.includes (toLowerCase (LocatorHint.value (Action.locator a)))
               (toLowerCase target)).

(** [findSelector] *)
Definition findSelector (toLowerCase : string -> string) (target : string)
           (snapshot : option PageSnapshot.t) : string :=
  if looks_like_selector target then target
  else
    let found :=
      match snapshot with
      | Some s => List.find (action_matches toLowerCase target)
                            (PageSnapshot.actions s)
      | None => None
      end in
    match found with
    | Some m => LocatorHint.value (Action.locator m)
    | None =>
        if Js.test_word_hyphen target
        then "[data-testid=" ++ Js.dq ++ target ++ Js.dq ++ "]"
        else "text=" ++ target
    end.

(* ================================================================== *)
(** * The outside world and the monad of the program *)
(* ================================================================== *)

(** A thrown value: an [Error] object with its message, or any other value
    with its [String(..)] rendering. *)
Inductive JsError :=
| ErrorObj (message : string)
| Thrown (rendering : string).

(** [error instanceof Error ? error.message : 'Unknown error'] *)
Definition error_message_or_unknown (e : JsError) : string :=
  match e with
  | ErrorObj m => m
  | Thrown _ => "Unknown error"
  end.

(** [error instanceof Error ? error.message : String(error)] *)
Definition error_message_or_string (e : JsError) : string :=
  match e with
  | ErrorObj m => m
  | Thrown r => r
  end.

Inductive Outcome (A : Type) :=
| Returned (a : A)
| Raised (e : JsError).
Arguments Returned {A} a.
Arguments Raised {A} e.

(** Handles of Playwright objects. *)
Inductive Browser :=
| CdpBrowser (port : Z)
| LaunchedBrowser (headless : bool) (slowMo : Z).

Inductive Page :=
| CdpPage (port : Z) (index : nat)
| LaunchedPage.

Inductive BrowserContext :=
| ContextOfPage (p : Page)
| LaunchedContext.

(** The calls the program makes to the browser, the network and the file
    system, with the arguments it passes.  [PageRoute] installs the request
    filter of [getPage]; what the filter blocks afterwards, and what the
    program prints on the console, is not part of the model.  [ExtractAll]
    is the [Promise.all] of the extractors and of [page.title()]. *)
Inductive Event :=
| ConnectOverCDP (port : Z) (timeout : option Z)
| BrowserClose (b : Browser)
| ContextClose
| Launch (headless : bool) (slowMo : Z)
| BrowserNewContext
| ContextNewPage
| PageRoute
| PageGoto (url : string) (timeout : Z)
| WaitForLoadState (what : string) (timeout : Z)
| PageClick (selector : string) (timeout : Z)
| PageFill (selector text : string) (timeout : Z)
| PageSelectOption (selector value : string) (timeout : Z)
| PageHover (selector : string) (timeout : Z)
| KeyboardPress (key : string)
| WaitForSelector (selector : string) (timeout : Z)
| EvaluateScrollTo (bottom : bool)
| InputValue (selector : string) (timeout : Z)
| TextContent (selector : string) (timeout : Z)
| IsVisible (selector : string) (timeout : Z)
| IsEnabled (selector : string) (timeout : Z)
| GetAttribute (selector attribute : string) (timeout : Z)
| PageScreenshot (path : string) (timeout : Z)
| NewCDPSession
| CaptureScreenshot
| CDPDetach
| ExtractAll
| EvaluateTextSample
| PortProbe (port : Z)
| FetchHead (url : string)
| ExistsSync (path : string)
| MkdirSync (path : string)
| ReadPng (path : string)
| ReadSnapshot (path : string)
| WriteFileSync (path : string)
| CopyFileSync (src dst : string)
| Pixelmatch.

(** A call that reaches a browser: everything Playwright does. *)
Definition is_browser_call (e : Event) : bool :=
  match e with
  | PortProbe _ | FetchHead _ | ExistsSync _ | MkdirSync _ | ReadPng _
  | ReadSnapshot _ | WriteFileSync _ | CopyFileSync _ _ | Pixelmatch => false
  | _ => true
  end.

(** A navigation of a page: [page.goto]. *)
Definition is_navigation (e : Event) : bool :=
  match e with
  | PageGoto _ _ => true
  | _ => false
  end.

(** A decoded PNG image. *)
Record PNG := { width : Z; height : Z; data : list Byte.byte }.

(** The result types of [src/tools/compare.ts]. *)
Record ThemeDiff := { property : string; before : string; after : string }.

Record ImageDiffResult := {
  diffPercent : Q;
  diffPixels : Z;
  totalPixels : Z;
  diffImagePath : option string;
  hasSignificantChange : bool }.

Record CompareResult := {
  cr_url : string;
  summary : string;
  themeChanges : list ThemeDiff;
  cssVariableChanges : list ThemeDiff;
  sectionsAdded : list string;
  sectionsRemoved : list string;
  actionsAdded : list string;
  actionsRemoved : list string;
  layoutChanges : list string;
  imageDiff : option ImageDiffResult }.

(** What the extractors and [page.title()] deliver to [analyze]. *)
Record Extracted := {
  ex_landmarks : list Landmark.t;
  ex_sections : list Section_.t;
  ex_overlays : list Overlay.t;
  ex_actions : list Action.t;
  ex_theme : Theme.t;
  ex_classes : option ClassInfo;
  ex_title : string }.

(** The outside world.  The first argument of an answer is the number of
    calls made before it, so that the world may answer the same call
    differently at different moments. *)
Record World := {
  w_USE_CDP : option string;
  w_HEADED : option string;
  w_now : nat -> Z;
  w_timestamp : nat -> string;
  (** calls whose value the program ignores *)
  w_exec : nat -> Event -> Outcome unit;
  (** [connectOverCDP]: the URLs of the pages of all contexts, in order *)
  w_cdp_pages : nat -> Z -> Outcome (list string);
  w_page_url : nat -> Page -> string;
  w_inputValue : nat -> string -> Outcome string;
  w_textContent : nat -> string -> Outcome (option string);
  w_isVisible : nat -> string -> Outcome bool;
  w_isEnabled : nat -> string -> Outcome bool;
  w_getAttribute : nat -> string -> string -> Outcome (option string);
  w_captureScreenshot : nat -> Outcome string;
  w_extract : nat -> Outcome Extracted;
  w_textSample : nat -> Outcome string;
  w_port_open : nat -> Z -> bool;
  (** [fetch(url, HEAD)]: [response.ok] and the content-type header *)
  w_fetch_head : nat -> string -> Outcome (bool * option string);
  w_existsSync : nat -> string -> bool;
  w_read_png : nat -> string -> Outcome PNG;
  w_read_snapshot : nat -> string -> Outcome PageSnapshot.t;
  (** library functions *)
  w_toLowerCase : string -> string;
  w_url_host : string -> Outcome string;
  w_path_join : string -> string -> string;
  w_path_dirname : string -> string;
  w_pixelmatch : list Byte.byte -> list Byte.byte -> Z -> Z -> Outcome Z;
  (** the report generators, whose text no statement here depends on *)
  w_generateReport : PageSnapshot.t -> string;
  w_formatCompareReport : CompareResult -> string }.

(** [interface SessionState] *)
Record SessionState := {
  browser : option Browser;
  context : option BrowserContext;
  page : option Page;
  currentUrl : option string;
  lastSnapshot : option PageSnapshot.t;
  isRemote : bool }.

(** [const state: SessionState = {...}] *)
Definition initial_state : SessionState :=
  {| browser := None; context := None; page := None; currentUrl := None;
     lastSnapshot := None; isRemote := false |}.

(** The process: the session singleton and the calls made so far. *)
Record Machine := { state : SessionState; trace : list Event }.

Definition initial_machine : Machine :=
  {| state := initial_state; trace := [] |}.

Definition M (A : Type) : Type := Machine -> Outcome A * Machine.

Definition ret {A} (a : A) : M A := fun m => (Returned a, m).

Definition bind {A B} (c : M A) (k : A -> M B) : M B :=
  fun m =>
    match c m with
    | (Returned a, m') => k a m'
    | (Raised e, m') => (Raised e, m')
    end.

Definition throw {A} (e : JsError) : M A := fun m => (Raised e, m).

(** [try { body } catch (error) { handler }] *)
Definition try_catch {A} (body : M A) (handler : JsError -> M A) : M A :=
  fun m =>
    match body m with
    | (Returned a, m') => (Returned a, m')
    | (Raised e, m') => handler e m'
    end.

(** [promise.catch(() => {})] *)
Definition swallow (c : M unit) : M unit := try_catch c (fun _ => ret tt).

Definition get_state : M SessionState := fun m => (Returned (state m), m).

Definition modify_state (f : SessionState -> SessionState) : M unit :=
  fun m => (Returned tt, {| state := f (state m); trace := trace m |}).

(** A call of the outside world: the answer is taken at the current moment
    and the call is appended to the trace. *)
Definition call {A} (ev : Event) (answer : nat -> Outcome A) : M A :=
  fun m => (answer (length (trace m)),
            {| state := state m; trace := trace m ++ [ev] |}).

(** A synchronous read of the outside world that is not a call. *)
Definition observe {A} (f : nat -> A) : M A :=
  fun m => (Returned (f (length (trace m))), m).

Declare Scope prog_scope.
Delimit Scope prog_scope with prog.
Notation "x <- c ;; k" := (bind c (fun x => k))
  (at level 61, c at next level, right associativity) : prog_scope.
Notation "c ;;; k" := (bind c (fun _ => k))
  (at level 61, right associativity) : prog_scope.
Open Scope prog_scope.

Definition set_browser (b : option Browser) (s : SessionState) :=
  {| browser := b; context := context s; page := page s;
     currentUrl := currentUrl s; lastSnapshot := lastSnapshot s;
     isRemote := isRemote s |}.
Definition set_context (c : option BrowserContext) (s : SessionState) :=
  {| browser := browser s; context := c; page := page s;
     currentUrl := currentUrl s; lastSnapshot := lastSnapshot s;
     isRemote := isRemote s |}.
Definition set_page (p : option Page) (s : SessionState) :=
  {| browser := browser s; context := context s; page := p;
     currentUrl := currentUrl s; lastSnapshot := lastSnapshot s;
     isRemote := isRemote s |}.
Definition set_currentUrl (u : option string) (s : SessionState) :=
  {| browser := browser s; context := context s; page := page s;
     currentUrl := u; lastSnapshot := lastSnapshot s;
     isRemote := isRemote s |}.
Definition set_lastSnapshot (x : option PageSnapshot.t) (s : SessionState) :=
  {| browser := browser s; context := context s; page := page s;
     currentUrl := currentUrl s; lastSnapshot := x;
     isRemote := isRemote s |}.
Definition set_isRemote (r : bool) (s : SessionState) :=
  {| browser := browser s; context := context s; page := page s;
     currentUrl := currentUrl s; lastSnapshot := lastSnapshot s;
     isRemote := r |}.

(* ================================================================== *)
(** * Session manager ([src/tools/session.ts]) *)
(* ================================================================== *)

Definition CDP_PORTS : list Z := [9222; 9229]%Z.

(** [interface InteractionResult], with the optional payload fields that
    [getValue], [isVisible] and [getAttribute] add. *)
Record InteractionResult := {
  success : bool;
  action : string;
  target : string;
  message : string;
  durationMs : Z;
  value : option (option string);
  visible : option bool;
  enabled : option bool }.

Definition plain_result (ok : bool) (act tgt msg : string) (ms : Z) :=
  {| success := ok; action := act; target := tgt; message := msg;
     durationMs := ms; value := None; visible := None; enabled := None |}.

Section Session.

Variable w : World.

(** A call whose value is ignored. *)
Definition perform (ev : Event) : M unit := call ev (fun t => w_exec w t ev).

(** [Date.now()] *)
Definition date_now : M Z := observe (w_now w).

(** [page.url()] *)
Definition url_of (p : Page) : M string := observe (fun t => w_page_url w t p).

Definition env_is_1 (v : option string) : bool :=
  match v with
  | Some s => String.eqb s "1"
  | None => false
  end.

(** The filter of [tryConnectCDP] that skips internal pages. *)
Definition usable_page_url (url : string) : bool :=
  Js.truthy url &&
  negb (Js.startsWith url "about:") &&
  negb (Js.startsWith url "chrome://") &&
  negb (Js.startsWith url "edge://") &&
  negb (Js.startsWith url "devtools://").

(** [allPages]: the usable pages of the connected browser with the URL each
    of them showed. *)
Definition usable_pages (port : Z) (urls : list string)
  : list (Page * string) :=
  filter (fun pu => usable_page_url (snd pu))
         (combine (map (CdpPage port) (seq 0 (length urls))) urls).

Definition same_host (targetHost : string) (pu : Page * string) : bool :=
  match w_url_host w (snd pu) with
  | Returned h => String.eqb h targetHost
  | Raised _ => false
  end.

(** The exact match, then the match by host. *)
Definition match_page (targetUrl : string) (pages : list (Page * string))
  : option (Page * string) :=
  match find (fun pu => String.eqb (snd pu) targetUrl) pages with
  | Some p => Some p
  | None =>
      match w_url_host w targetUrl with
      | Returned h => find (same_host h) pages
      | Raised _ => None
      end
  end.

(** The body of the loop of [tryConnectCDP] for one port; [None] is
    [continue]. *)
Definition connect_port (targetUrl : option string) (port : Z)
  : M (option (Browser * Page)) :=
  try_catch
    (urls <- call (ConnectOverCDP port (Some 2000%Z))
                  (fun t => w_cdp_pages w t port) ;;
     match usable_pages port urls with
     | [] => perform (BrowserClose (CdpBrowser port)) ;;; ret None
     | first :: _ =>
         match Js.supplied targetUrl with
         | Some u =>
             match match_page u (usable_pages port urls) with
             | Some matched => ret (Some (CdpBrowser port, fst matched))
             | None =>
                 perform (PageGoto u 30000) ;;;
                 swallow (perform (WaitForLoadState "networkidle" 3000)) ;;;
                 ret (Some (CdpBrowser port, fst first))
             end
         | None => ret (Some (CdpBrowser port, fst first))
         end
     end)
    (fun _ => ret None).

Fixpoint tryConnectCDP_from (ports : list Z) (targetUrl : option string)
  : M (option (Browser * Page)) :=
  match ports with
  | [] => ret None
  | port :: rest =>
      r <- connect_port targetUrl port ;;
      match r with
      | Some found => ret (Some found)
      | None => tryConnectCDP_from rest targetUrl
      end
  end.

Definition tryConnectCDP (targetUrl : option string)
  : M (option (Browser * Page)) :=
  tryConnectCDP_from CDP_PORTS targetUrl.

(** The condition [url && url !== state.currentUrl && !state.isRemote];
    when it holds, the URL to navigate to. *)
Definition should_navigate (url : option string) (st : SessionState)
  : option string :=
  match Js.supplied url with
  | Some u =>
      if negb (Js.eqb_opt (Some u) (currentUrl st)) && negb (isRemote st)
      then Some u
      else None
  | None => None
  end.

(** [getPage] from the comment "Launch browser if needed" on. *)
Definition getPage_launched (url : option string) : M Page :=
  st <- get_state ;;
  (match browser st with
   | None =>
       let headless := negb (env_is_1 (w_HEADED w)) in
       let slowMo := if headless then 0%Z else 50%Z in
       perform (Launch headless slowMo) ;;;
       modify_state (set_browser (Some (LaunchedBrowser headless slowMo))) ;;;
       modify_state (set_isRemote false)
   | Some _ => ret tt
   end) ;;;
  st <- get_state ;;
  (match context st with
   | None =>
       perform BrowserNewContext ;;;
       modify_state (set_context (Some LaunchedContext))
   | Some _ => ret tt
   end) ;;;
  st <- get_state ;;
  (match page st with
   | None =>
       perform ContextNewPage ;;;
       modify_state (set_page (Some LaunchedPage)) ;;;
       perform PageRoute
   | Some _ => ret tt
   end) ;;;
  st <- get_state ;;
  let p := match page st with Some p => p | None => LaunchedPage end in
  (match should_navigate url st with
   | Some u =>
       perform (PageGoto u 30000) ;;;
       swallow (perform (WaitForLoadState "networkidle" 3000)) ;;;
       modify_state (set_currentUrl (Some u))
   | None =>
       if isRemote st
       then cur <- url_of p ;; modify_state (set_currentUrl (Some cur))
       else ret tt
   end) ;;;
  ret p.

(** [async function getPage(url?)] *)
Definition getPage (url : option string) : M Page :=
  st <- get_state ;;
  cdp <- (match browser st with
          | None =>
              if env_is_1 (w_USE_CDP w) then tryConnectCDP url else ret None
          | Some _ => ret None
          end) ;;
  match cdp with
  | Some (b, p) =>
      cur <- url_of p ;;
      modify_state (fun s =>
        {| browser := Some b; context := Some (ContextOfPage p);
           page := Some p; currentUrl := Some cur;
           lastSnapshot := lastSnapshot s; isRemote := true |}) ;;;
      ret p
  | None => getPage_launched url
  end.

(** [closeSession] *)
Definition closeSession : M unit :=
  st <- get_state ;;
  if isRemote st then
    (match browser st with
     | Some b => perform (BrowserClose b) ;;; modify_state (set_browser None)
     | None => ret tt
     end) ;;;
    modify_state (fun s =>
      {| browser := browser s; context := None; page := None;
         currentUrl := None; lastSnapshot := None; isRemote := false |})
  else
    (match context st with
     | Some _ =>
         perform ContextClose ;;;
         modify_state (set_context None) ;;;
         modify_state (set_page None)
     | None => ret tt
     end) ;;;
    st' <- get_state ;;
    (match browser st' with
     | Some b => perform (BrowserClose b) ;;; modify_state (set_browser None)
     | None => ret tt
     end) ;;;
    modify_state (set_currentUrl None) ;;;
    modify_state (set_lastSnapshot None).

End Session.

(* ================================================================== *)
(** * Interaction executor ([src/tools/session.ts]) *)
(* ================================================================== *)

Section Interactions.

Variable w : World.

(** [click] *)
Definition click (target : string) (url : option string)
  : M InteractionResult :=
  start <- date_now w ;;
  _ <- getPage w url ;;
  st <- get_state ;;
  let selector :=
    findSelector (w_toLowerCase w) target (lastSnapshot st) in
  try_catch
    (perform w (PageClick selector 5000) ;;;
     swallow (perform w (WaitForLoadState "domcontentloaded" 2000)) ;;;
     finish <- date_now w ;;
     ret (plain_result true "click" selector
            ("Clicked " ++ Js.quoted target) (finish - start)))
    (fun error =>
     finish <- date_now w ;;
     ret (plain_result false "click" selector
            ("Failed to click " ++ Js.quoted target ++ ": "
               ++ error_message_or_unknown error) (finish - start))).

(** [type] *)
Definition type (target text : string) (url : option string)
  : M InteractionResult :=
  start <- date_now w ;;
  _ <- getPage w url ;;
  st <- get_state ;;
  let selector :=
    findSelector (w_toLowerCase w) target (lastSnapshot st) in
  try_catch
    (perform w (PageFill selector text 5000) ;;;
     finish <- date_now w ;;
     ret (plain_result true "type" selector
            ("Typed " ++ Js.quoted text ++ " into " ++ Js.quoted target)
            (finish - start)))
    (fun error =>
     finish <- date_now w ;;
     ret (plain_result false "type" selector
            ("Failed to type into " ++ Js.quoted target ++ ": "
               ++ error_message_or_unknown error) (finish - start))).

(** [select] *)
Definition select (target value : string) (url : option string)
  : M InteractionResult :=
  start <- date_now w ;;
  _ <- getPage w url ;;
  st <- get_state ;;
  let selector :=
    findSelector (w_toLowerCase w) target (lastSnapshot st) in
  try_catch
    (perform w (PageSelectOption selector value 5000) ;;;
     finish <- date_now w ;;
     ret (plain_result true "select" selector
            ("Selected " ++ Js.quoted value ++ " in " ++ Js.quoted target)
            (finish - start)))
    (fun error =>
     finish <- date_now w ;;
     ret (plain_result false "select" selector
            ("Failed to select in " ++ Js.quoted target ++ ": "
               ++ error_message_or_unknown error) (finish - start))).

(** [hover] *)
Definition hover (target : string) (url : option string)
  : M InteractionResult :=
  start <- date_now w ;;
  _ <- getPage w url ;;
  st <- get_state ;;
  let selector :=
    findSelector (w_toLowerCase w) target (lastSnapshot st) in
  try_catch
    (perform w (PageHover selector 5000) ;;;
     finish <- date_now w ;;
     ret (plain_result true "hover" selector
            ("Hovered over " ++ Js.quoted target) (finish - start)))
    (fun error =>
     finish <- date_now w ;;
     ret (plain_result false "hover" selector
            ("Failed to hover " ++ Js.quoted target ++ ": "
               ++ error_message_or_unknown error) (finish - start))).

(** [press] *)
Definition press (key : string) (url : option string)
  : M InteractionResult :=
  start <- date_now w ;;
  _ <- getPage w url ;;
  try_catch
    (perform w (KeyboardPress key) ;;;
     finish <- date_now w ;;
     ret (plain_result true "press" key
            ("Pressed " ++ Js.quoted key) (finish - start)))
    (fun error =>
     finish <- date_now w ;;
     ret (plain_result false "press" key
            ("Failed to press " ++ Js.quoted key ++ ": "
               ++ error_message_or_unknown error) (finish - start))).

(** [waitFor]; [timeoutMs] has the default 5000 at the call sites that
    omit it. *)
Definition waitFor (target : string) (url : option string) (timeoutMs : Z)
  : M InteractionResult :=
  start <- date_now w ;;
  _ <- getPage w url ;;
  st <- get_state ;;
  let selector :=
    findSelector (w_toLowerCase w) target (lastSnapshot st) in
  try_catch
    (perform w (WaitForSelector selector timeoutMs) ;;;
     finish <- date_now w ;;
     ret (plain_result true "waitFor" selector
            ("Element " ++ Js.quoted target ++ " appeared") (finish - start)))
    (fun error =>
     finish <- date_now w ;;
     ret (plain_result false "waitFor" selector
            ("Element " ++ Js.quoted target ++ " did not appear within "
               ++ Js.show_Z timeoutMs ++ "ms") (finish - start))).

(** The [switch (direction)] of [scroll]; a direction that is none of the
    four falls through the switch. *)
Definition scroll_step (direction : string) : M unit :=
  if String.eqb direction "up" then perform w (KeyboardPress "PageUp")
  else if String.eqb direction "down" then perform w (KeyboardPress "PageDown")
  else if String.eqb direction "top" then perform w (EvaluateScrollTo false)
  else if String.eqb direction "bottom" then perform w (EvaluateScrollTo true)
  else ret tt.

(** [scroll] *)
Definition scroll (direction : string) (url : option string)
  : M InteractionResult :=
  start <- date_now w ;;
  _ <- getPage w url ;;
  try_catch
    (scroll_step direction ;;;
     finish <- date_now w ;;
     ret (plain_result true "scroll" direction
            ("Scrolled " ++ direction) (finish - start)))
    (fun error =>
     finish <- date_now w ;;
     ret (plain_result false "scroll" direction
            ("Failed to scroll " ++ direction ++ ": "
               ++ error_message_or_unknown error) (finish - start))).

(** [getValue] *)
Definition getValue (target : string) (url : option string)
  : M InteractionResult :=
  start <- date_now w ;;
  _ <- getPage w url ;;
  st <- get_state ;;
  let selector :=
    findSelector (w_toLowerCase w) target (lastSnapshot st) in
  try_catch
    (v <- call (InputValue selector 5000)
               (fun t => w_inputValue w t selector) ;;
     finish <- date_now w ;;
     ret {| success := true; action := "getValue"; target := selector;
            message := "Got value " ++ Js.quoted v ++ " from " ++ Js.quoted target;
            durationMs := finish - start;
            value := Some (Some v); visible := None; enabled := None |})
    (fun _ =>
     try_catch
       (text <- call (TextContent selector 2000)
                     (fun t => w_textContent w t selector) ;;
        finish <- date_now w ;;
        ret {| success := true; action := "getValue"; target := selector;
               message := "Got text " ++ Js.quoted (Js.show_nullable text)
                            ++ " from " ++ Js.quoted target;
               durationMs := finish - start;
               value := Some (Some (Js.or_else text ""));
               visible := None; enabled := None |})
       (fun error =>
        finish <- date_now w ;;
        ret (plain_result false "getValue" selector
               ("Failed to get value from " ++ Js.quoted target ++ ": "
                  ++ error_message_or_unknown error) (finish - start)))).

(** [isVisible] *)
Definition isVisible (target : string) (url : option string)
  : M InteractionResult :=
  start <- date_now w ;;
  _ <- getPage w url ;;
  st <- get_state ;;
  let selector :=
    findSelector (w_toLowerCase w) target (lastSnapshot st) in
  try_catch
    (vis <- call (IsVisible selector 2000)
                 (fun t => w_isVisible w t selector) ;;
     en <- (if vis
            then try_catch (call (IsEnabled selector 1000)
                                 (fun t => w_isEnabled w t selector))
                           (fun _ => ret true)
            else ret true) ;;
     finish <- date_now w ;;
     ret {| success := true; action := "isVisible"; target := selector;
            message := if vis
                       then Js.quoted target ++ " is visible"
                              ++ (if en then "" else " (disabled)")
                       else Js.quoted target ++ " is not visible";
            durationMs := finish - start;
            value := None; visible := Some vis; enabled := Some en |})
    (fun error =>
     finish <- date_now w ;;
     ret {| success := false; action := "isVisible"; target := selector;
            message := "Failed to check visibility of " ++ Js.quoted target
                         ++ ": " ++ error_message_or_unknown error;
            durationMs := finish - start;
            value := None; visible := Some false; enabled := Some false |}).

(** [screenshot]; [fast] is [options?.fast]. *)
Definition screenshot (outputPath : string) (url : option string)
           (fast : option bool) : M InteractionResult :=
  start <- date_now w ;;
  _ <- getPage w url ;;
  st <- get_state ;;
  try_catch
    ((if match fast with Some f => f | None => false end
         && negb (isRemote st)
      then
        perform w NewCDPSession ;;;
        _ <- call CaptureScreenshot (w_captureScreenshot w) ;;
        perform w (WriteFileSync outputPath) ;;;
        perform w CDPDetach
      else perform w (PageScreenshot outputPath 5000)) ;;;
     finish <- date_now w ;;
     ret (plain_result true "screenshot" outputPath
            ("Screenshot saved to " ++ Js.quoted outputPath) (finish - start)))
    (fun error =>
     finish <- date_now w ;;
     ret (plain_result false "screenshot" outputPath
            ("Failed to take screenshot: "
               ++ error_message_or_unknown error) (finish - start))).

(** [getAttribute] *)
Definition getAttribute (target attribute : string) (url : option string)
  : M InteractionResult :=
  start <- date_now w ;;
  _ <- getPage w url ;;
  st <- get_state ;;
  let selector :=
    findSelector (w_toLowerCase w) target (lastSnapshot st) in
  try_catch
    (v <- call (GetAttribute selector attribute 5000)
               (fun t => w_getAttribute w t selector attribute) ;;
     finish <- date_now w ;;
     ret {| success := true; action := "getAttribute"; target := selector;
            message :=
              match v with
              | Some x => "Got " ++ attribute ++ "=" ++ Js.quoted x
                            ++ " from " ++ Js.quoted target
              | None => Js.quoted target ++ " has no " ++ Js.quoted attribute
                          ++ " attribute"
              end;
            durationMs := finish - start;
            value := Some v; visible := None; enabled := None |})
    (fun error =>
     finish <- date_now w ;;
     ret (plain_result false "getAttribute" selector
            ("Failed to get attribute from " ++ Js.quoted target ++ ": "
               ++ error_message_or_unknown error) (finish - start))).

End Interactions.

(* ================================================================== *)
(** * Diff engine ([src/tools/compare.ts]) *)
(* ================================================================== *)

(** [new Set(xs)] as the list of its elements in insertion order: the first
    occurrence of each element is kept. *)
Fixpoint set_of (xs : list string) : list string :=
  match xs with
  | [] => []
  | x :: rest => x :: filter (fun y => negb (String.eqb x y)) (set_of rest)
  end.

(** [set.has(x)] *)
Definition has (set : list string) (x : string) : bool :=
  existsb (String.eqb x) set.

(** [vars[name]] on a [Record<string, string>]. *)
Fixpoint lookup (name : string) (vars : list (string * string))
  : option string :=
  match vars with
  | [] => None
  | (k, v) :: rest => if String.eqb k name then Some v else lookup name rest
  end.

(** [Object.keys(vars)] *)
Definition keys (vars : list (string * string)) : list string :=
  map fst vars.

(** The scalar theme fields that [compareSnapshots] compares, in order. *)
Definition themeProps : list (string * (Theme.t -> string)) :=
  [ ("bodyBackground", Theme.bodyBackground);
    ("bodyTextColor", Theme.bodyTextColor);
    ("bodyFontFamily", Theme.bodyFontFamily);
    ("bodyFontSize", Theme.bodyFontSize);
    ("lineHeight", Theme.lineHeight) ].

(** The loop "Compare theme properties". *)
Definition theme_changes (b a : Theme.t) : list ThemeDiff :=
  flat_map
    (fun prop =>
       let beforeVal := snd prop b in
       let afterVal := snd prop a in
       if negb (String.eqb beforeVal afterVal)
       then [ {| property := fst prop; before := beforeVal;
                 after := afterVal |} ]
       else [])
    themeProps.

(** One turn of the loop "Compare CSS variables". *)
Definition css_variable_change (beforeVars afterVars : list (string * string))
           (varName : string) : list ThemeDiff :=
  let beforeVal := Js.or_else (lookup varName beforeVars) "(not set)" in
  let afterVal := Js.or_else (lookup varName afterVars) "(removed)" in
  if negb (String.eqb beforeVal afterVal)
  then [ {| property := varName; before := beforeVal; after := afterVal |} ]
  else [].

(** The loop "Compare CSS variables". *)
Definition css_variable_changes (b a : Theme.t) : list ThemeDiff :=
  let beforeVars := Theme.cssVariables b in
  let afterVars := Theme.cssVariables a in
  let allVars := set_of (keys beforeVars ++ keys afterVars) in
  flat_map (css_variable_change beforeVars afterVars) allVars.

(** [[...ys].filter(y => !xs.has(y))] *)
Definition not_in (xs ys : list string) : list string :=
  filter (fun y => negb (has xs y)) ys.

(** "Compare border radii". *)
Definition radii_changes (b a : Theme.t) : list string :=
  let beforeRadii := set_of (Theme.borderRadii b) in
  let afterRadii := set_of (Theme.borderRadii a) in
  let addedRadii := not_in beforeRadii afterRadii in
  let removedRadii := not_in afterRadii beforeRadii in
  match addedRadii, removedRadii with
  | [], [] => []
  | _, _ =>
      [ Js.trim
          ("Border radii: "
             ++ (match removedRadii with
                 | [] => ""
                 | _ => "removed " ++ Js.join ", " removedRadii
                 end)
             ++ " "
             ++ (match addedRadii with
                 | [] => ""
                 | _ => "added " ++ Js.join ", " addedRadii
                 end)) ]
  end.

(** [s.testId || s.name] *)
Definition section_key (s : Section_.t) : string :=
  Js.or_else (Section_.testId s) (Section_.name s).

Definition section_set (p : PageSnapshot.t) : list string :=
  set_of (map section_key (PageSnapshot.sections p)).

Definition action_set (p : PageSnapshot.t) : list string :=
  set_of (map Action.name (PageSnapshot.actions p)).

Definition count (A : Type) (l : list A) : string :=
  Js.show_Z (Z.of_nat (length l)).

(** "Generate summary". *)
Definition make_summary (r : CompareResult) : string :=
  let visual : list string :=
    match imageDiff r with
    | Some d =>
        if hasSignificantChange d
        then [String.append (Js.show_hundredths (diffPercent d))
                            "% visual difference"]
        else []
    | None => []
    end in
  let theme : list string :=
    match themeChanges r with
    | [] => []
    | l => [String.append (count l) " theme changes"]
    end in
  let css : list string :=
    match cssVariableChanges r with
    | [] => []
    | l => [String.append (count l) " CSS variable changes"]
    end in
  let sections : list string :=
    match sectionsAdded r, sectionsRemoved r with
    | [], [] => []
    | ad, rm =>
        [String.append "sections: +"
           (String.append (count ad) (String.append " -" (count rm)))]
    end in
  let layout : list string :=
    match layoutChanges r with
    | [] => []
    | l => [String.append (count l) " layout changes"]
    end in
  let changes : list string := concat [visual; theme; css; sections; layout] in
  let changes' : list string :=
    match changes, imageDiff r with
    | [], Some d =>
        if Qle_bool (diffPercent d) 0 then []
        else [String.append (Js.show_hundredths (diffPercent d))
                            "% pixel difference"]
    | _, _ => changes
    end in
  match changes' with
  | [] => "No visual changes detected"
  | _ => String.append "Changes: " (Js.join ", " changes')
  end.

(** The structural part of [compareSnapshots], given the image diff. *)
Definition structural_diff (b a : PageSnapshot.t)
           (img : option ImageDiffResult) : CompareResult :=
  let r :=
    {| cr_url := PageSnapshot.url a;
       summary := "";
       themeChanges := theme_changes (PageSnapshot.theme b)
                                     (PageSnapshot.theme a);
       cssVariableChanges := css_variable_changes (PageSnapshot.theme b)
                                                  (PageSnapshot.theme a);
       sectionsAdded := not_in (section_set b) (section_set a);
       sectionsRemoved := not_in (section_set a) (section_set b);
       actionsAdded := not_in (action_set b) (action_set a);
       actionsRemoved := not_in (action_set a) (action_set b);
       layoutChanges := radii_changes (PageSnapshot.theme b)
                                      (PageSnapshot.theme a);
       imageDiff := img |} in
  {| cr_url := cr_url r;
     summary := make_summary r;
     themeChanges := themeChanges r;
     cssVariableChanges := cssVariableChanges r;
     sectionsAdded := sectionsAdded r;
     sectionsRemoved := sectionsRemoved r;
     actionsAdded := actionsAdded r;
     actionsRemoved := actionsRemoved r;
     layoutChanges := layoutChanges r;
     imageDiff := imageDiff r |}.

(** The percentage [(numDiffPixels / totalPixels) * 100] before its rounding
    to two decimals: a division and a multiplication of Numbers.  The two
    counts are integers below [2^53], which are Numbers. *)
Definition raw_percent (numDiffPixels totalPixels : Z) : Q :=
  Double.mul (Double.div (inject_Z numDiffPixels) (inject_Z totalPixels)) 100.

(** [Math.round(diffPercent * 100) / 100]: a multiplication of Numbers,
    [Math.round], which is exact on the Number it is given, and a division
    of Numbers. *)
Definition round2 (diffPercent : Q) : Q :=
  Double.div (inject_Z (Js.round (Double.mul diffPercent 100))) 100.

(** [diffPercent > 0.5] *)
Definition exceeds_threshold (diffPercent : Q) : bool :=
  negb (Qle_bool diffPercent (1 # 2)).

Section Compare.

Variable w : World.

(** [existsSync(path)] *)
Definition existsSync (path : string) : M bool :=
  call (ExistsSync path) (fun t => Returned (w_existsSync w t path)).

(** [PNG.sync.read(readFileSync(path))] *)
Definition read_png (path : string) : M PNG :=
  call (ReadPng path) (fun t => w_read_png w t path).

(** The result of [compareImages] for images of different dimensions. *)
Definition size_mismatch (img1 : PNG) : ImageDiffResult :=
  {| diffPercent := 100;
     diffPixels := -1;
     totalPixels := width img1 * height img1;
     diffImagePath := None;
     hasSignificantChange := true |}.

(** [compareImages] *)
Definition compareImages (beforeImagePath afterImagePath outputDir : string)
  : M (option ImageDiffResult) :=
  e1 <- existsSync beforeImagePath ;;
  if negb e1 then ret None
  else
    e2 <- existsSync afterImagePath ;;
    if negb e2 then ret None
    else
      try_catch
        (img1 <- read_png beforeImagePath ;;
         img2 <- read_png afterImagePath ;;
         if negb (width img1 =? width img2)%Z
            || negb (height img1 =? height img2)%Z
         then ret (Some (size_mismatch img1))
         else
           numDiffPixels <-
             call Pixelmatch
                  (fun _ => w_pixelmatch w (data img1) (data img2)
                                         (width img1) (height img1)) ;;
           let totalPixels := (width img1 * height img1)%Z in
           let diffPercent := raw_percent numDiffPixels totalPixels in
           let diffImagePath := w_path_join w outputDir "diff.png" in
           perform w (WriteFileSync diffImagePath) ;;;
           ret (Some {| diffPercent := round2 diffPercent;
                        diffPixels := numDiffPixels;
                        totalPixels := totalPixels;
                        diffImagePath := Some diffImagePath;
                        hasSignificantChange :=
                          exceeds_threshold diffPercent |}))
        (fun _ => ret None).

(** [compareSnapshots] *)
Definition compareSnapshots (b a : PageSnapshot.t)
           (beforeSnapshotPath afterSnapshotPath : option string)
  : M CompareResult :=
  img <-
    match Js.supplied beforeSnapshotPath, Js.supplied afterSnapshotPath with
    | Some bp, Some ap =>
        let beforeDir := w_path_dirname w bp in
        let afterDir := w_path_dirname w ap in
        let beforeImage := w_path_join w beforeDir "page-before.png" in
        let afterImage :=
          w_path_join w afterDir
                      (Js.or_else (PageSnapshot.screenshotPath a) "page.png") in
        found <- existsSync beforeImage ;;
        let actualBeforeImage :=
          if found then beforeImage
          else w_path_join w beforeDir
                 (Js.or_else (PageSnapshot.screenshotPath b) "page.png") in
        compareImages actualBeforeImage afterImage afterDir
    | _, _ => ret None
    end ;;
  ret (structural_diff b a img).

End Compare.

(* ================================================================== *)
(** * Discovery of the active page ([src/tools/detect.ts]) *)
(* ================================================================== *)

Definition DEV_PORTS : list Z :=
  [5173; 3000; 3001; 8080; 8000; 4200; 4000; 5000; 5500]%Z.

Inductive DetectSource := SrcCdp | SrcDevserver | SrcDefault.

Record DetectedPage := {
  dp_url : string;
  dp_source : DetectSource;
  dp_port : option Z }.

Definition localhost_url (port : Z) : string :=
  "http://localhost:" ++ Js.show_Z port ++ "/".

Section Detect.

Variable w : World.

(** [getActiveTabFromCDP] *)
Definition getActiveTabFromCDP (port : Z) : M (option string) :=
  try_catch
    (urls <- call (ConnectOverCDP port None)
                  (fun t => w_cdp_pages w t port) ;;
     match find usable_page_url urls with
     | Some url => perform w (BrowserClose (CdpBrowser port)) ;;; ret (Some url)
     | None => perform w (BrowserClose (CdpBrowser port)) ;;; ret None
     end)
    (fun _ => ret None).

(** [isPortOpen] *)
Definition isPortOpen (port : Z) : M bool :=
  call (PortProbe port) (fun t => Returned (w_port_open w t port)).

(** [isValidPage] *)
Definition isValidPage (url : string) : M bool :=
  try_catch
    (response <- call (FetchHead url) (fun t => w_fetch_head w t url) ;;
     let contentType := Js.or_else (snd response) "" in
     ret (fst response && Js.includes contentType "text/html"))
    (fun _ => ret false).

(** The first loop of [detectActivePage]. *)
Fixpoint detect_cdp (ports : list Z) : M (option DetectedPage) :=
  match ports with
  | [] => ret None
  | port :: rest =>
      found <- getActiveTabFromCDP port ;;
      match Js.supplied found with
      | Some url =>
          ret (Some {| dp_url := url; dp_source := SrcCdp;
                       dp_port := Some port |})
      | None => detect_cdp rest
      end
  end.

(** [Promise.all(DEV_PORTS.map(...))]: the probes, in the order of the
    list. *)
Fixpoint probe_ports (ports : list Z) : M (list (Z * bool)) :=
  match ports with
  | [] => ret []
  | port :: rest =>
      open <- isPortOpen port ;;
      others <- probe_ports rest ;;
      ret ((port, open) :: others)
  end.

(** The second loop of [detectActivePage]. *)
Fixpoint detect_devserver (checks : list (Z * bool))
  : M (option DetectedPage) :=
  match checks with
  | [] => ret None
  | (port, open) :: rest =>
      if open then
        valid <- isValidPage (localhost_url port) ;;
        if valid
        then ret (Some {| dp_url := localhost_url port;
                          dp_source := SrcDevserver; dp_port := Some port |})
        else detect_devserver rest
      else detect_devserver rest
  end.

(** [detectActivePage] *)
Definition detectActivePage : M DetectedPage :=
  cdp <- detect_cdp CDP_PORTS ;;
  match cdp with
  | Some d => ret d
  | None =>
      portChecks <- probe_ports DEV_PORTS ;;
      dev <- detect_devserver portChecks ;;
      match dev with
      | Some d => ret d
      | None => ret {| dp_url := "http://localhost:5173/";
                       dp_source := SrcDefault; dp_port := None |}
      end
  end.

End Detect.

(* ================================================================== *)
(** * Analysis and baseline ([analyze], [saveBaseline], session.ts) *)
(* ================================================================== *)

Definition viewport : ViewportInfo := {| vp_width := 1280; vp_height := 720 |}.

Section Analysis.

Variable w : World.

(** [analyze] *)
Definition analyze (url outputDir : string)
  : M (PageSnapshot.t * string) :=
  _ <- getPage w (Some url) ;;
  ex <- call ExtractAll (w_extract w) ;;
  sample <- call EvaluateTextSample (w_textSample w) ;;
  present <- existsSync w outputDir ;;
  (if negb present then perform w (MkdirSync outputDir) else ret tt) ;;;
  let screenshotPath := "page.png" in
  try_catch
    (perform w (PageScreenshot (w_path_join w outputDir screenshotPath) 10000))
    (fun _ => ret tt) ;;;
  stamp <- observe (w_timestamp w) ;;
  let snapshot :=
    {| PageSnapshot.url := url;
       PageSnapshot.title := ex_title ex;
       PageSnapshot.viewport := viewport;
       PageSnapshot.theme := ex_theme ex;
       PageSnapshot.landmarks := ex_landmarks ex;
       PageSnapshot.sections := ex_sections ex;
       PageSnapshot.overlays := ex_overlays ex;
       PageSnapshot.actions := ex_actions ex;
       PageSnapshot.classes := ex_classes ex;
       PageSnapshot.textSample := sample;
       PageSnapshot.screenshotPath := Some screenshotPath;
       PageSnapshot.timestamp := stamp |} in
  modify_state (set_lastSnapshot (Some snapshot)) ;;;
  let report := w_generateReport w snapshot in
  perform w (WriteFileSync (w_path_join w outputDir "snapshot.json")) ;;;
  perform w (WriteFileSync (w_path_join w outputDir "report.txt")) ;;;
  ret (snapshot, report).

(** [saveBaseline] *)
Definition saveBaseline (outputDir : string) : M string :=
  let snapshotPath := w_path_join w outputDir "snapshot.json" in
  let screenshotPath := w_path_join w outputDir "page.png" in
  e1 <- existsSync w snapshotPath ;;
  (if e1
   then perform w (CopyFileSync snapshotPath
                     (w_path_join w outputDir "snapshot-before.json"))
   else ret tt) ;;;
  e2 <- existsSync w screenshotPath ;;
  (if e2
   then perform w (CopyFileSync screenshotPath
                     (w_path_join w outputDir "page-before.png"))
   else ret tt) ;;;
  ret "Baseline saved".

End Analysis.

(* ================================================================== *)
(** * Tool-invocation boundary ([src/mcp-server.ts]) *)
(* ================================================================== *)

Definition OUTPUT_DIR : string := "out".

Definition bytes (l : list nat) : string :=
  string_of_list_ascii (map ascii_of_nat l).

(** The three pictograms of the responses, as the bytes of the source
    text. *)
Definition MARK_FAIL : string := bytes [195; 162; 197; 146]%nat.
Definition MARK_OK : string := bytes [195; 162; 197; 147; 226; 128; 166]%nat.
Definition MARK_PIN : string := bytes [195; 176; 197; 184; 226; 128; 156]%nat.

Definition nl : string := bytes [10]%nat.

(** [request.params.arguments] *)
Record ToolArgs := {
  a_action : option string;
  a_url : option string;
  a_target : option string;
  a_text : option string;
  a_value : option string;
  a_direction : option string;
  a_key : option string }.

(** [request.params] *)
Record ToolRequest := {
  name : string;
  arguments : option ToolArgs }.

(** [args?.field] *)
Definition arg (request : ToolRequest) (field : ToolArgs -> option string)
  : option string :=
  match arguments request with
  | Some a => field a
  | None => None
  end.

(** The result of [resolveUrl]. *)
Record ResolvedUrl := {
  ru_url : string;
  ru_detected : bool;
  ru_source : option string }.

(** The text of an interaction response. *)
Definition render (result : InteractionResult) : string :=
  if success result
  then MARK_OK ++ " " ++ message result
         ++ " (" ++ Js.show_Z (durationMs result) ++ "ms)"
  else MARK_FAIL ++ " " ++ message result.

(** The parameter-validation responses. *)
Definition missing_click : string :=
  MARK_FAIL ++ " Missing target. Usage: websight(action=" ++ Js.quoted "click"
    ++ ", target=" ++ Js.quoted "button text or selector" ++ ")".
Definition missing_type : string :=
  MARK_FAIL ++ " Missing target or text. Usage: websight(action="
    ++ Js.quoted "type" ++ ", target=" ++ Js.quoted "input"
    ++ ", text=" ++ Js.quoted "hello" ++ ")".
Definition missing_select : string :=
  MARK_FAIL ++ " Missing target or value. Usage: websight(action="
    ++ Js.quoted "select" ++ ", target=" ++ Js.quoted "dropdown"
    ++ ", value=" ++ Js.quoted "option1" ++ ")".
Definition missing_hover : string :=
  MARK_FAIL ++ " Missing target. Usage: websight(action=" ++ Js.quoted "hover"
    ++ ", target=" ++ Js.quoted "element" ++ ")".
Definition missing_press : string :=
  MARK_FAIL ++ " Missing key. Usage: websight(action=" ++ Js.quoted "press"
    ++ ", key=" ++ Js.quoted "Enter" ++ ")".

Definition no_baseline : string :=
  MARK_FAIL ++ " No baseline found. Call websight(action="
    ++ Js.quoted "baseline" ++ ") first.".

Definition unknown_action (action : option string) : string :=
  MARK_FAIL ++ " Unknown action: "
    ++ match action with Some a => a | None => "undefined" end
    ++ ". Use: look, baseline, diff, click, type, select, hover, scroll, press".

Section Server.

Variable w : World.

(** [resolveUrl] *)
Definition resolveUrl (providedUrl : option string) : M ResolvedUrl :=
  match Js.supplied providedUrl with
  | Some u => ret {| ru_url := u; ru_detected := false; ru_source := None |}
  | None =>
      detected <- detectActivePage w ;;
      ret {| ru_url := dp_url detected;
             ru_detected := true;
             ru_source :=
               Some (match dp_source detected with
                     | SrcCdp => "browser tab"
                     | SrcDevserver =>
                         "dev server (port "
                           ++ match dp_port detected with
                              | Some p => Js.show_Z p
                              | None => "undefined"
                              end ++ ")"
                     | SrcDefault => "default"
                     end) |}
  end.

Definition is_action (action : option string) (a : string) : bool :=
  Js.eqb_opt action (Some a).

(** The [switch (action)] of the handler. *)
Definition dispatch (request : ToolRequest) (url urlInfo : string)
  : M string :=
  let action := arg request a_action in
  if is_action action "look" then
    r <- analyze w url OUTPUT_DIR ;;
    ret (urlInfo ++ snd r)
  else if is_action action "baseline" then
    _ <- analyze w url OUTPUT_DIR ;;
    _ <- saveBaseline w OUTPUT_DIR ;;
    ret (urlInfo ++ MARK_OK ++ " Baseline saved for " ++ url ++ nl ++ nl
           ++ "Now make your code changes, then call websight(action="
           ++ Js.quoted "diff" ++ ") to verify.")
  else if is_action action "diff" then
    let beforePath := w_path_join w OUTPUT_DIR "snapshot-before.json" in
    present <- existsSync w beforePath ;;
    if negb present then ret no_baseline
    else
      b <- call (ReadSnapshot beforePath)
                (fun t => w_read_snapshot w t beforePath) ;;
      a <- analyze w url OUTPUT_DIR ;;
      result <- compareSnapshots w b (fst a) (Some beforePath)
                  (Some (w_path_join w OUTPUT_DIR "snapshot.json")) ;;
      ret (urlInfo ++ w_formatCompareReport w result)
  else if is_action action "click" then
    match Js.supplied (arg request a_target) with
    | None => ret missing_click
    | Some target =>
        result <- click w target (Some url) ;; ret (render result)
    end
  else if is_action action "type" then
    match Js.supplied (arg request a_target),
          Js.supplied (arg request a_text) with
    | Some target, Some text =>
        result <- type w target text (Some url) ;; ret (render result)
    | _, _ => ret missing_type
    end
  else if is_action action "select" then
    match Js.supplied (arg request a_target),
          Js.supplied (arg request a_value) with
    | Some target, Some value =>
        result <- select w target value (Some url) ;; ret (render result)
    | _, _ => ret missing_select
    end
  else if is_action action "hover" then
    match Js.supplied (arg request a_target) with
    | None => ret missing_hover
    | Some target =>
        result <- hover w target (Some url) ;; ret (render result)
    end
  else if is_action action "scroll" then
    let direction := Js.or_else (arg request a_direction) "down" in
    result <- scroll w direction (Some url) ;; ret (render result)
  else if is_action action "press" then
    match Js.supplied (arg request a_key) with
    | None => ret missing_press
    | Some key =>
        result <- press w key (Some url) ;; ret (render result)
    end
  else ret (unknown_action action).

(** The handler of [CallToolRequestSchema]: the text of the response. *)
Definition handle (request : ToolRequest) : M string :=
  try_catch
    (if String.eqb (name request) "websight" then
       resolved <- resolveUrl (arg request a_url) ;;
       let urlInfo :=
         if ru_detected resolved
         then MARK_PIN ++ " Auto-detected: " ++ ru_url resolved ++ " ("
                ++ match ru_source resolved with
                   | Some s => s
                   | None => "undefined"
                   end ++ ")" ++ nl ++ nl
         else "" in
       dispatch request (ru_url resolved) urlInfo
     else ret ("Unknown tool: " ++ name request))
    (fun error =>
       ret (MARK_FAIL ++ " Error: " ++ error_message_or_string error)).

End Server.

(* ================================================================== *)
(** * The locator hints of the snapshot producer
      ([src/tools/extractors/actions.ts]) *)
(* ================================================================== *)

(** [interface RawAction]: what the in-page script collects for one
    interactive element. *)
Record RawAction := {
  raw_role : string;
  raw_name : string;
  raw_tag : string;
  raw_disabled : bool;
  raw_bounds : Bounds;
  raw_testId : option string;
  raw_id : option string }.

(** [computeFoldAwareness]; the same function stands in [sections.ts] and
    [landmarks.ts]. *)
Definition computeFoldAwareness (bounds : Bounds) (vp : ViewportInfo)
  : FoldAwareness :=
  let below := (vp_height vp <=? by_ bounds)%Z in
  let above := (by_ bounds + bh bounds <=? 0)%Z in
  {| inViewport := negb below && negb above;
     belowFold := below;
     aboveFold := above |}.

(** [computeLocator] *)
Definition computeLocator (a : RawAction) : LocatorHint.t :=
  match Js.supplied (raw_testId a) with
  | Some testId =>
      {| LocatorHint.type := LtTestId;
         LocatorHint.value := "[data-testid=" ++ Js.dq ++ testId ++ Js.dq ++ "]";
         LocatorHint.roleAndName := None |}
  | None =>
      match Js.supplied (raw_id a) with
      | Some id =>
          {| LocatorHint.type := LtId;
             LocatorHint.value := "#" ++ id;
             LocatorHint.roleAndName := None |}
      | None =>
          {| LocatorHint.type := LtRole;
             LocatorHint.value :=
               "role=" ++ raw_role a ++ "[name=" ++ Js.dq ++ raw_name a
                 ++ Js.dq ++ "]";
             LocatorHint.roleAndName := Some (raw_role a, raw_name a) |}
      end
  end.

(** The last step of [extractActions]: every raw action gets its fold
    awareness and its locator. *)
Definition action_of_raw (vp : ViewportInfo) (a : RawAction) : Action.t :=
  {| Action.role := raw_role a;
     Action.name := raw_name a;
     Action.tag := raw_tag a;
     Action.disabled := raw_disabled a;
     Action.bounds := raw_bounds a;
     Action.locator := computeLocator a;
     Action.fold := computeFoldAwareness (raw_bounds a) vp |}.

Definition actions_of_raw (vp : ViewportInfo) (raws : list RawAction)
  : list Action.t :=
  map (action_of_raw vp) raws.

(* ================================================================== *)
(** * The request filter of [getPage] ([page.route], session.ts) *)
(* ================================================================== *)

Definition BLOCKED_RESOURCES : list string :=
  [ "google-analytics.com"; "googletagmanager.com"; "doubleclick.net";
    "facebook.net"; "hotjar.com"; "segment.com"; "mixpanel.com" ].

Inductive RouteDecision := RouteAbort | RouteContinue.

(** The handler passed to [page.route('**/*', ...)], on the URL and the
    resource type of the request. *)
Definition route_handler (reqUrl resourceType : string) : RouteDecision :=
  if existsb (fun blocked => Js.includes reqUrl blocked) BLOCKED_RESOURCES
  then RouteAbort
  else if String.eqb resourceType "font" || String.eqb resourceType "media"
       then RouteAbort
       else RouteContinue.

(* ================================================================== *)
(** * The running development servers ([detectRunningServers],
      detect.ts) *)
(* ================================================================== *)

(** The function mapped over [DEV_PORTS].  The checks run concurrently
    under [Promise.all]; they are taken here one after the other, in the
    order of the list, which is the order of the results. *)
Definition check_server (w : World) (port : Z) : M (option (Z * string)) :=
  open <- isPortOpen w port ;;
  if open then
    valid <- isValidPage w (localhost_url port) ;;
    ret (if valid then Some (port, localhost_url port) else None)
  else ret None.

Fixpoint check_servers (w : World) (ports : list Z)
  : M (list (option (Z * string))) :=
  match ports with
  | [] => ret []
  | port :: rest =>
      c <- check_server w port ;;
      others <- check_servers w rest ;;
      ret (c :: others)
  end.

(** [checks.filter(s => s !== null)] *)
Fixpoint non_null (A : Type) (l : list (option A)) : list A :=
  match l with
  | [] => []
  | Some x :: rest => x :: non_null rest
  | None :: rest => non_null rest
  end.

(** [detectRunningServers] *)
Definition detectRunningServers (w : World) : M (list (Z * string)) :=
  checks <- check_servers w DEV_PORTS ;;
  ret (non_null checks).

(* ================================================================== *)
(** * Concrete worlds and inputs for the examples *)
(* ================================================================== *)

Definition timeout_error : JsError :=
  ErrorObj "Timeout 5000ms exceeded.".

Definition empty_theme : Theme.t :=
  {| Theme.bodyBackground := "rgb(255, 255, 255)";
     Theme.bodyTextColor := "rgb(0, 0, 0)";
     Theme.bodyFontFamily := "sans-serif";
     Theme.bodyFontSize := "16px";
     Theme.lineHeight := "normal";
     Theme.fonts := []; Theme.fontSizes := []; Theme.textColors := [];
     Theme.backgroundColors := []; Theme.borderColors := [];
     Theme.borderRadii := []; Theme.cssVariables := [] |}.

Definition with_variables (vars : list (string * string)) : Theme.t :=
  {| Theme.bodyBackground := Theme.bodyBackground empty_theme;
     Theme.bodyTextColor := Theme.bodyTextColor empty_theme;
     Theme.bodyFontFamily := Theme.bodyFontFamily empty_theme;
     Theme.bodyFontSize := Theme.bodyFontSize empty_theme;
     Theme.lineHeight := Theme.lineHeight empty_theme;
     Theme.fonts := []; Theme.fontSizes := []; Theme.textColors := [];
     Theme.backgroundColors := []; Theme.borderColors := [];
     Theme.borderRadii := []; Theme.cssVariables := vars |}.

Definition snapshot_of (t : Theme.t) (acts : list Action.t)
  : PageSnapshot.t :=
  {| PageSnapshot.url := "http://localhost:5173/";
     PageSnapshot.title := "Demo";
     PageSnapshot.viewport := viewport;
     PageSnapshot.theme := t;
     PageSnapshot.landmarks := [];
     PageSnapshot.sections := [];
     PageSnapshot.overlays := [];
     PageSnapshot.actions := acts;
     PageSnapshot.classes := None;
     PageSnapshot.textSample := "";
     PageSnapshot.screenshotPath := Some "page.png";
     PageSnapshot.timestamp := "2024-12-31T00:00:00.000Z" |}.

Definition no_fold : FoldAwareness :=
  {| inViewport := true; belowFold := false; aboveFold := false |}.

(** A button as [extractActions] reports it for
    [<button data-testid="btn-save">Save</button>]. *)
Definition save_button : Action.t :=
  {| Action.role := "button"; Action.name := "Save"; Action.tag := "button";
     Action.disabled := false;
     Action.bounds := {| bx := 10; by_ := 10; bw := 80; bh := 30 |};
     Action.locator :=
       {| LocatorHint.type := LtTestId;
          LocatorHint.value := "[data-testid=" ++ Js.dq ++ "btn-save" ++ Js.dq ++ "]";
          LocatorHint.roleAndName := None |};
     Action.fold := no_fold |}.

(** A button and a link as the in-page script of [extractActions] collects
    them. *)
Definition raw_save_button : RawAction :=
  {| raw_role := "button"; raw_name := "Save"; raw_tag := "button";
     raw_disabled := false;
     raw_bounds := {| bx := 10; by_ := 10; bw := 80; bh := 30 |};
     raw_testId := Some "btn-save"; raw_id := Some "save" |}.

Definition raw_cancel_link : RawAction :=
  {| raw_role := "link"; raw_name := "Cancel"; raw_tag := "a";
     raw_disabled := false;
     raw_bounds := {| bx := 100; by_ := 900; bw := 80; bh := 30 |};
     raw_testId := None; raw_id := None |}.

Definition blank_png (wd ht : Z) : PNG :=
  {| width := wd; height := ht; data := [] |}.

(** A world in which no browser listens on a debugging port, no development
    server runs, every other call succeeds, the clock advances by one
    millisecond per call, every image file is a blank 100 x 125 image and
    [pixelmatch] finds [differing] differing pixels.  [failing] selects the
    calls that throw a timeout. *)
Definition world_of (failing : Event -> bool) (differing : Z) : World :=
  {| w_USE_CDP := None;
     w_HEADED := None;
     w_now := fun t => Z.of_nat t;
     w_timestamp := fun _ => "2024-12-31T00:00:00.000Z";
     w_exec := fun _ ev =>
                 if failing ev then Raised timeout_error else Returned tt;
     w_cdp_pages := fun _ _ => Raised (ErrorObj "connect ECONNREFUSED");
     w_page_url := fun _ _ => "about:blank";
     w_inputValue := fun _ sel =>
                       if failing (InputValue sel 5000)
                       then Raised timeout_error else Returned "John";
     w_textContent := fun _ sel =>
                        if failing (TextContent sel 2000)
                        then Raised timeout_error else Returned (Some "Save");
     w_isVisible := fun _ sel =>
                      if failing (IsVisible sel 2000)
                      then Raised timeout_error else Returned true;
     w_isEnabled := fun _ sel =>
                      if failing (IsEnabled sel 1000)
                      then Raised timeout_error else Returned true;
     w_getAttribute := fun _ sel attr =>
                         if failing (GetAttribute sel attr 5000)
                         then Raised timeout_error else Returned (Some "x");
     w_captureScreenshot := fun _ => Returned "";
     w_extract := fun _ =>
       Returned {| ex_landmarks := []; ex_sections := []; ex_overlays := [];
                   ex_actions := []; ex_theme := empty_theme;
                   ex_classes := None; ex_title := "Demo" |};
     w_textSample := fun _ => Returned "";
     w_port_open := fun _ _ => false;
     w_fetch_head := fun _ _ => Raised (ErrorObj "fetch failed");
     w_existsSync := fun _ _ => true;
     w_read_png := fun _ _ => Returned (blank_png 100 125);
     w_read_snapshot := fun _ _ => Returned (snapshot_of empty_theme []);
     w_toLowerCase := Js.toLowerCase;
     w_url_host := fun u => Returned u;
     w_path_join := fun a b => a ++ "/" ++ b;
     w_path_dirname := fun p => p;
     w_pixelmatch := fun _ _ _ _ => Returned differing;
     w_generateReport := fun _ => "report";
     w_formatCompareReport := fun r => summary r |}.

Definition calm_world : World := world_of (fun _ => false) 0.

(** The same world with a browser on port 9222 that shows the given tabs,
    and with [USE_CDP=1]. *)
Definition cdp_world (tabs : list string) : World :=
  let base := calm_world in
  {| w_USE_CDP := Some "1";
     w_HEADED := w_HEADED base;
     w_now := w_now base;
     w_timestamp := w_timestamp base;
     w_exec := w_exec base;
     w_cdp_pages := fun _ port =>
                      if (port =? 9222)%Z then Returned tabs
                      else Raised (ErrorObj "connect ECONNREFUSED");
     w_page_url := fun _ _ => "http://localhost:3000/app";
     w_inputValue := w_inputValue base;
     w_textContent := w_textContent base;
     w_isVisible := w_isVisible base;
     w_isEnabled := w_isEnabled base;
     w_getAttribute := w_getAttribute base;
     w_captureScreenshot := w_captureScreenshot base;
     w_extract := w_extract base;
     w_textSample := w_textSample base;
     w_port_open := w_port_open base;
     w_fetch_head := w_fetch_head base;
     w_existsSync := w_existsSync base;
     w_read_png := w_read_png base;
     w_read_snapshot := w_read_snapshot base;
     w_toLowerCase := w_toLowerCase base;
     w_url_host := w_url_host base;
     w_path_join := w_path_join base;
     w_path_dirname := w_path_dirname base;
     w_pixelmatch := w_pixelmatch base;
     w_generateReport := w_generateReport base;
     w_formatCompareReport := w_formatCompareReport base |}.

Definition request_of (action : string) (url target : option string)
  : ToolRequest :=
  {| name := "websight";
     arguments := Some {| a_action := Some action; a_url := url;
                          a_target := target; a_text := None;
                          a_value := None; a_direction := None;
                          a_key := None |} |}.

(* ================================================================== *)
(** * Vocabulary of the statements *)
(* ================================================================== *)

(** The eleven interaction actions with their arguments, as the object
    [session] exports them. *)
Inductive Interaction :=
| Click (target : string) (url : option string)
| TypeText (target text : string) (url : option string)
| SelectOption (target value : string) (url : option string)
| Hover (target : string) (url : option string)
| Press (key : string) (url : option string)
| WaitFor (target : string) (url : option string) (timeoutMs : Z)
| Scroll (direction : string) (url : option string)
| GetValue (target : string) (url : option string)
| IsVisibleOf (target : string) (url : option string)
| Screenshot (outputPath : string) (url : option string) (fast : option bool)
| GetAttributeOf (target attribute : string) (url : option string).

Definition interact (w : World) (i : Interaction) : M InteractionResult :=
  match i with
  | Click t u => click w t u
  | TypeText t x u => type w t x u
  | SelectOption t v u => select w t v u
  | Hover t u => hover w t u
  | Press k u => press w k u
  | WaitFor t u ms => waitFor w t u ms
  | Scroll d u => scroll w d u
  | GetValue t u => getValue w t u
  | IsVisibleOf t u => isVisible w t u
  | Screenshot p u f => screenshot w p u f
  | GetAttributeOf t a u => getAttribute w t a u
  end.

(** The name of the action. *)
Definition kind (i : Interaction) : string :=
  match i with
  | Click _ _ => "click"
  | TypeText _ _ _ => "type"
  | SelectOption _ _ _ => "select"
  | Hover _ _ => "hover"
  | Press _ _ => "press"
  | WaitFor _ _ _ => "waitFor"
  | Scroll _ _ => "scroll"
  | GetValue _ _ => "getValue"
  | IsVisibleOf _ _ => "isVisible"
  | Screenshot _ _ _ => "screenshot"
  | GetAttributeOf _ _ _ => "getAttribute"
  end.

Definition url_of_call (i : Interaction) : option string :=
  match i with
  | Click _ u | TypeText _ _ u | SelectOption _ _ u | Hover _ u | Press _ u
  | WaitFor _ u _ | Scroll _ u | GetValue _ u | IsVisibleOf _ u
  | Screenshot _ u _ | GetAttributeOf _ _ u => u
  end.

(** What the caller named: the target, the key, the direction or the
    output path. *)
Definition named (i : Interaction) : string :=
  match i with
  | Click t _ | TypeText t _ _ | SelectOption t _ _ | Hover t _
  | WaitFor t _ _ | GetValue t _ | IsVisibleOf t _ | GetAttributeOf t _ _ => t
  | Press k _ => k
  | Scroll d _ => d
  | Screenshot p _ _ => p
  end.

(** What the action operates on: the resolved selector for the actions that
    take a target, the named thing itself for the others. *)
Definition resolved (toLowerCase : string -> string) (i : Interaction)
           (snapshot : option PageSnapshot.t) : string :=
  match i with
  | Click t _ | TypeText t _ _ | SelectOption t _ _ | Hover t _
  | WaitFor t _ _ | GetValue t _ | IsVisibleOf t _ | GetAttributeOf t _ _ =>
      findSelector toLowerCase t snapshot
  | Press k _ => k
  | Scroll d _ => d
  | Screenshot p _ _ => p
  end.

Definition fault_of (A : Type) (o : Outcome A) : option JsError :=
  match o with
  | Returned _ => None
  | Raised e => Some e
  end.

(** The first fault among calls made one after the other from moment [t]
    on. *)
Fixpoint first_fault (w : World) (t : nat) (calls : list Event)
  : option JsError :=
  match calls with
  | [] => None
  | ev :: rest =>
      match w_exec w t ev with
      | Raised e => Some e
      | Returned _ => first_fault w (S t) rest
      end
  end.

(** The fault of the operation itself, as the world decides it: the
    operation of action [i] on the session [st], started at moment [t],
    fails with this fault.  Reading a value fails when both the form-control
    read and the text-content read fail. *)
Definition operation_fault (w : World) (i : Interaction) (st : SessionState)
           (t : nat) : option JsError :=
  let sel := resolved (w_toLowerCase w) i (lastSnapshot st) in
  match i with
  | Click _ _ => fault_of (w_exec w t (PageClick sel 5000))
  | TypeText _ x _ => fault_of (w_exec w t (PageFill sel x 5000))
  | SelectOption _ v _ => fault_of (w_exec w t (PageSelectOption sel v 5000))
  | Hover _ _ => fault_of (w_exec w t (PageHover sel 5000))
  | Press k _ => fault_of (w_exec w t (KeyboardPress k))
  | WaitFor _ _ ms => fault_of (w_exec w t (WaitForSelector sel ms))
  | Scroll d _ =>
      if String.eqb d "up" then fault_of (w_exec w t (KeyboardPress "PageUp"))
      else if String.eqb d "down"
           then fault_of (w_exec w t (KeyboardPress "PageDown"))
      else if String.eqb d "top"
           then fault_of (w_exec w t (EvaluateScrollTo false))
      else if String.eqb d "bottom"
           then fault_of (w_exec w t (EvaluateScrollTo true))
      else None
  | GetValue _ _ =>
      match w_inputValue w t sel with
      | Raised _ => fault_of (w_textContent w (S t) sel)
      | Returned _ => None
      end
  | IsVisibleOf _ _ => fault_of (w_isVisible w t sel)
  | Screenshot p _ f =>
      if match f with Some b => b | None => false end && negb (isRemote st)
      then
        match w_exec w t NewCDPSession with
        | Raised e => Some e
        | Returned _ =>
            match w_captureScreenshot w (S t) with
            | Raised e => Some e
            | Returned _ =>
                first_fault w (S (S t)) [WriteFileSync p; CDPDetach]
            end
        end
      else fault_of (w_exec w t (PageScreenshot p 5000))
  | GetAttributeOf _ a _ => fault_of (w_getAttribute w t sel a)
  end.

(** The message of the action names what the caller named, except for a
    screenshot. *)
Definition message_names_target (i : Interaction) : bool :=
  match i with
  | Screenshot _ _ _ => false
  | _ => true
  end.

(** The message of the action carries the text of the fault, except for
    [waitFor], which reports the time it waited. *)
Definition message_carries_fault (i : Interaction) : bool :=
  match i with
  | WaitFor _ _ _ => false
  | _ => true
  end.

(** The target has selector syntax: a leading bracket, hash or dot, or an
    equals sign anywhere. *)
Definition HasSelectorSyntax (target : string) : Prop :=
  (exists rest, target = "[" ++ rest) \/
  (exists rest, target = "#" ++ rest) \/
  (exists rest, target = "." ++ rest) \/
  (exists left right, target = left ++ "=" ++ right).

(** The target is a single token: one character or more, each a word
    character or a hyphen. *)
Definition IsToken (target : string) : Prop :=
  target <> "" /\
  Js.all_chars (fun c => Js.is_word_char c || Js.is_hyphen c) target = true.

(** The target is a case-insensitive substring of the accessible name of the
    action, or of its locator value when the locator is of the test-id
    type. *)
Definition Matches (toLowerCase : string -> string) (target : string)
           (a : Action.t) : Prop :=
  Js.includes (toLowerCase (Action.name a)) (toLowerCase target) = true
  \/ (LocatorHint.type (Action.locator a) = LtTestId /\
      Js.includes (toLowerCase (LocatorHint.value (Action.locator a)))
                  (toLowerCase target) = true).

(** The target matches no entry of the action list of the cached
    snapshot. *)
Definition AbsentFrom (toLowerCase : string -> string) (target : string)
           (snapshot : option PageSnapshot.t) : Prop :=
  match snapshot with
  | Some s =>
      forall a, In a (PageSnapshot.actions s) -> ~ Matches toLowerCase target a
  | None => True
  end.

(** The session record is consistent: without a browser there is neither a
    remote attachment nor a tracked URL, and a remote attachment has its
    context and its page. *)
Definition consistent (st : SessionState) : Prop :=
  (browser st = None -> isRemote st = false /\ currentUrl st = None) /\
  (isRemote st = true -> context st <> None /\ page st <> None).

(** The calls made between two moments of the process. *)
Definition calls_between (m m' : Machine) (calls : list Event) : Prop :=
  trace m' = (trace m ++ calls)%list.

(** A recognized action lacks a required parameter; [response] is the
    validation response of that action. *)
Inductive MissingParameter (request : ToolRequest) : string -> Prop :=
| missing_click_target :
    arg request a_action = Some "click" ->
    Js.supplied (arg request a_target) = None ->
    MissingParameter request missing_click
| missing_type_target_or_text :
    arg request a_action = Some "type" ->
    Js.supplied (arg request a_target) = None \/
    Js.supplied (arg request a_text) = None ->
    MissingParameter request missing_type
| missing_select_target_or_value :
    arg request a_action = Some "select" ->
    Js.supplied (arg request a_target) = None \/
    Js.supplied (arg request a_value) = None ->
    MissingParameter request missing_select
| missing_hover_target :
    arg request a_action = Some "hover" ->
    Js.supplied (arg request a_target) = None ->
    MissingParameter request missing_hover
| missing_press_key :
    arg request a_action = Some "press" ->
    Js.supplied (arg request a_key) = None ->
    MissingParameter request missing_press.

(** The validation responses of the dispatcher. *)
Definition validation_responses : list string :=
  [missing_click; missing_type; missing_select; missing_hover; missing_press].

(** A call of the URL auto-detection: a connection to a debugging port and
    its closing, a port probe, a HEAD request. *)
Definition is_detection_call (e : Event) : bool :=
  match e with
  | ConnectOverCDP _ None | BrowserClose (CdpBrowser _)
  | PortProbe _ | FetchHead _ => true
  | _ => false
  end.

(** [calm_world] with other image files: the baseline screenshot decodes to
    [before_img], every other image to [after_img]. *)
Definition image_world (before_img after_img : PNG) (differing : Z) : World :=
  let base := world_of (fun _ => false) differing in
  {| w_USE_CDP := w_USE_CDP base;
     w_HEADED := w_HEADED base;
     w_now := w_now base;
     w_timestamp := w_timestamp base;
     w_exec := w_exec base;
     w_cdp_pages := w_cdp_pages base;
     w_page_url := w_page_url base;
     w_inputValue := w_inputValue base;
     w_textContent := w_textContent base;
     w_isVisible := w_isVisible base;
     w_isEnabled := w_isEnabled base;
     w_getAttribute := w_getAttribute base;
     w_captureScreenshot := w_captureScreenshot base;
     w_extract := w_extract base;
     w_textSample := w_textSample base;
     w_port_open := w_port_open base;
     w_fetch_head := w_fetch_head base;
     w_existsSync := w_existsSync base;
     w_read_png := fun _ path =>
                     if String.eqb path "out/page-before.png"
                     then Returned before_img else Returned after_img;
     w_read_snapshot := w_read_snapshot base;
     w_toLowerCase := w_toLowerCase base;
     w_url_host := w_url_host base;
     w_path_join := w_path_join base;
     w_path_dirname := w_path_dirname base;
     w_pixelmatch := w_pixelmatch base;
     w_generateReport := w_generateReport base;
     w_formatCompareReport := w_formatCompareReport base |}.


(** The action list of the snapshot, when there is one, is the output of
    [extractActions]: its locators are those of [computeLocator]. *)
Definition FromExtractor (snapshot : option PageSnapshot.t) : Prop :=
  match snapshot with
  | Some s =>
      exists vp raws, PageSnapshot.actions s = actions_of_raw vp raws
  | None => True
  end.

(** [calm_world] with the files that [present] selects, every snapshot
    file lying in [out]. *)
Definition files_world (present : string -> bool) : World :=
  let base := calm_world in
  {| w_USE_CDP := w_USE_CDP base;
     w_HEADED := w_HEADED base;
     w_now := w_now base;
     w_timestamp := w_timestamp base;
     w_exec := w_exec base;
     w_cdp_pages := w_cdp_pages base;
     w_page_url := w_page_url base;
     w_inputValue := w_inputValue base;
     w_textContent := w_textContent base;
     w_isVisible := w_isVisible base;
     w_isEnabled := w_isEnabled base;
     w_getAttribute := w_getAttribute base;
     w_captureScreenshot := w_captureScreenshot base;
     w_extract := w_extract base;
     w_textSample := w_textSample base;
     w_port_open := w_port_open base;
     w_fetch_head := w_fetch_head base;
     w_existsSync := fun _ path => present path;
     w_read_png := w_read_png base;
     w_read_snapshot := w_read_snapshot base;
     w_toLowerCase := w_toLowerCase base;
     w_url_host := w_url_host base;
     w_path_join := w_path_join base;
     w_path_dirname := fun _ => "out";
     w_pixelmatch := w_pixelmatch base;
     w_generateReport := w_generateReport base;
     w_formatCompareReport := w_formatCompareReport base |}.

(** Every file exists but the baseline screenshot. *)
Definition no_baseline_image_world : World :=
  files_world (fun path => negb (String.eqb path "out/page-before.png")).

(** No file exists. *)
Definition empty_directory_world : World := files_world (fun _ => false).

(** [calm_world] in which the element of every visibility test is
    hidden. *)
Definition hidden_world : World :=
  let base := calm_world in
  {| w_USE_CDP := w_USE_CDP base;
     w_HEADED := w_HEADED base;
     w_now := w_now base;
     w_timestamp := w_timestamp base;
     w_exec := w_exec base;
     w_cdp_pages := w_cdp_pages base;
     w_page_url := w_page_url base;
     w_inputValue := w_inputValue base;
     w_textContent := w_textContent base;
     w_isVisible := fun _ _ => Returned false;
     w_isEnabled := w_isEnabled base;
     w_getAttribute := w_getAttribute base;
     w_captureScreenshot := w_captureScreenshot base;
     w_extract := w_extract base;
     w_textSample := w_textSample base;
     w_port_open := w_port_open base;
     w_fetch_head := w_fetch_head base;
     w_existsSync := w_existsSync base;
     w_read_png := w_read_png base;
     w_read_snapshot := w_read_snapshot base;
     w_toLowerCase := w_toLowerCase base;
     w_url_host := w_url_host base;
     w_path_join := w_path_join base;
     w_path_dirname := w_path_dirname base;
     w_pixelmatch := w_pixelmatch base;
     w_generateReport := w_generateReport base;
     w_formatCompareReport := w_formatCompareReport base |}.

(** The interaction that the dispatcher runs on the page [url] for a
    request that names one of its six interaction actions and supplies the
    parameters the action requires. *)
Definition requested_interaction (request : ToolRequest) (url : string)
  : option Interaction :=
  let action := arg request a_action in
  if is_action action "click" then
    match Js.supplied (arg request a_target) with
    | Some t => Some (Click t (Some url))
    | None => None
    end
  else if is_action action "type" then
    match Js.supplied (arg request a_target),
          Js.supplied (arg request a_text) with
    | Some t, Some x => Some (TypeText t x (Some url))
    | _, _ => None
    end
  else if is_action action "select" then
    match Js.supplied (arg request a_target),
          Js.supplied (arg request a_value) with
    | Some t, Some v => Some (SelectOption t v (Some url))
    | _, _ => None
    end
  else if is_action action "hover" then
    match Js.supplied (arg request a_target) with
    | Some t => Some (Hover t (Some url))
    | None => None
    end
  else if is_action action "scroll" then
    Some (Scroll (Js.or_else (arg request a_direction) "down") (Some url))
  else if is_action action "press" then
    match Js.supplied (arg request a_key) with
    | Some k => Some (Press k (Some url))
    | None => None
    end
  else None.

(** The actions that the dispatcher recognizes. *)
Definition known_actions : list string :=
  [ "look"; "baseline"; "diff"; "click"; "type"; "select"; "hover";
    "scroll"; "press" ].

(** The text of the response to a fault that reaches the dispatcher. *)
Definition fault_response (e : JsError) : string :=
  MARK_FAIL ++ " Error: " ++ error_message_or_string e.

(** A detected page is well formed: a browser tab has a usable URL and the
    debugging port it was found on, a development server has the local URL
    of its port, and the default has no port. *)
Definition well_formed_detection (d : DetectedPage) : Prop :=
  match dp_source d with
  | SrcCdp =>
      exists port, dp_port d = Some port /\ In port CDP_PORTS /\
                   usable_page_url (dp_url d) = true
  | SrcDevserver =>
      exists port, dp_port d = Some port /\ In port DEV_PORTS /\
                   dp_url d = localhost_url port
  | SrcDefault => dp_port d = None /\ dp_url d = "http://localhost:5173/"
  end.

(** [l1] is [l2] with some of its elements left out. *)
Inductive Subsequence (A : Type) : list A -> list A -> Prop :=
| subsequence_nil : Subsequence [] []
| subsequence_skip : forall x l1 l2,
    Subsequence l1 l2 -> Subsequence l1 (x :: l2)
| subsequence_keep : forall x l1 l2,
    Subsequence l1 l2 -> Subsequence (x :: l1) (x :: l2).

(** A HEAD request. *)
Definition is_head_request (e : Event) : Prop :=
  match e with
  | FetchHead _ => True
  | _ => False
  end.

(** One of the two images of a comparison started at moment [t] is missing
    or cannot be decoded. *)
Definition image_unavailable (w : World) (t : nat) (before after : string)
  : Prop :=
  w_existsSync w t before = false \/
  w_existsSync w (S t) after = false \/
  (exists e, w_read_png w (S (S t)) before = Raised e) \/
  (exists e, w_read_png w (S (S (S t))) after = Raised e).

(** A call that probes or reads an image file. *)
Definition reads_image (e : Event) : Prop :=
  match e with
  | ExistsSync _ | ReadPng _ => True
  | _ => False
  end.

(** The machine [m1] after a further acquisition of its page [p] in the
    world [w2]: no call is made, and only a remote session changes, its
    tracked URL being set to the URL that the page shows. *)
Definition after_reacquisition (w2 : World) (p : Page) (m1 : Machine)
  : Machine :=
  {| state := if isRemote (state m1)
              then set_currentUrl
                     (Some (w_page_url w2 (length (trace m1)) p)) (state m1)
              else state m1;
     trace := trace m1 |}.

(** Every variable of the theme has a value that is not the empty string. *)
Definition no_empty_value (t : Theme.t) : Prop :=
  forall k v, In (k, v) (Theme.cssVariables t) -> v <> "".

(** The specification of a program [c]: started in a session that
    satisfies [P], the program only appends calls to the trace, each of the
    appended calls satisfies [E], and the outcome and the final session
    satisfy [Q]. *)
Definition triple {A : Type} (P : SessionState -> Prop) (c : M A)
           (E : Event -> Prop) (Q : Outcome A -> SessionState -> Prop)
  : Prop :=
  forall m, P (state m) ->
    exists calls,
      calls_between m (snd (c m)) calls /\
      Forall E calls /\
      Q (fst (c m)) (state (snd (c m))).

(** The program returns and leaves the session as it was, namely [st]. *)
Definition returns_unchanged {A : Type} (st : SessionState)
  : Outcome A -> SessionState -> Prop :=
  fun o st' => st' = st /\ exists a, o = Returned a.

Definition not_navigation (e : Event) : Prop := is_navigation e = false.

Definition detection_call (e : Event) : Prop := is_detection_call e = true.

Definition any_call (e : Event) : Prop := True.

(** The caller supplies a URL that differs from the tracked URL of a session
    that is not attached to a remote browser. *)
Definition MayNavigate (url : option string) (st : SessionState) : Prop :=
  exists u, Js.supplied url = Some u /\
            currentUrl st <> Some u /\
            isRemote st = false.

(** A navigation is made for a supplied URL only. *)
Definition navigation_has_url (url : option string) (e : Event) : Prop :=
  is_navigation e = true -> Js.supplied url <> None.

(** A navigation is made only when the session [st] may navigate. *)
Definition navigation_allowed (url : option string) (st : SessionState)
           (e : Event) : Prop :=
  is_navigation e = true -> MayNavigate url st.

(** The session is [st], whatever the outcome. *)
Definition still {A : Type} (st : SessionState)
  : Outcome A -> SessionState -> Prop :=
  fun _ st' => st' = st.

(** [I] holds of the session, whatever the outcome. *)
Definition holds {A : Type} (I : SessionState -> Prop)
  : Outcome A -> SessionState -> Prop :=
  fun _ st' => I st'.

(** The session is consistent and tracks the URL and the attachment of
    [st0]. *)
Definition tracks (st0 : SessionState) (st : SessionState) : Prop :=
  consistent st /\
  currentUrl st = currentUrl st0 /\
  isRemote st = isRemote st0.

(** After a step of [getPage] that returned, the session has a browser and
    tracks [st0]; after a step that threw, it is consistent. *)
Definition acquiring {A : Type} (st0 : SessionState)
  : Outcome A -> SessionState -> Prop :=
  fun o st =>
    match o with
    | Returned _ => tracks st0 st /\ browser st <> None
    | Raised _ => consistent st
    end.

(** [Qr] after a return, [Qe] after a throw. *)
Definition by_outcome {A : Type} (Qr Qe : SessionState -> Prop)
  : Outcome A -> SessionState -> Prop :=
  fun o st =>
    match o with
    | Returned _ => Qr st
    | Raised _ => Qe st
    end.

(** The first call a program makes is [ev], whatever the machine it starts
    on. *)
Definition starts_with {A : Type} (ev : Event) (c : M A) : Prop :=
  forall m, exists rest, calls_between m (snd (c m)) (ev :: rest).

(** The program only appends calls to the trace. *)
Definition appends {A : Type} (c : M A) : Prop :=
  forall m, exists calls, calls_between m (snd (c m)) calls.

(** Selections of failing calls for [world_of]. *)
Definition waiting_fails (ev : Event) : bool :=
  match ev with
  | WaitForSelector _ _ => true
  | _ => false
  end.

Definition capture_fails (ev : Event) : bool :=
  match ev with
  | PageScreenshot _ _ => true
  | _ => false
  end.

Definition value_read_fails (ev : Event) : bool :=
  match ev with
  | InputValue _ _ => true
  | _ => false
  end.

Definition click_fails (ev : Event) : bool :=
  match ev with
  | PageClick _ _ => true
  | _ => false
  end.


(* ================================================================== *)
(** * Properties *)
(* ================================================================== *)

Unset Implicit Arguments.

(** ** Strings *)

Lemma prefix_append (p s : string) : String.prefix p (p ++ s) = true.
Proof.
  induction p as [|c p IH]; simpl.
  - destruct s; reflexivity.
  - destruct (ascii_dec c c) as [_|ne]; [exact IH | now elim ne].
Qed.

Lemma prefix_split (p s : string) :
  String.prefix p s = true -> exists rest, s = p ++ rest.
Proof.
  revert s; induction p as [|c p IH]; intros s H.
  - exists s; reflexivity.
  - destruct s as [|d s]; simpl in H; [discriminate|].
    destruct (ascii_dec c d) as [->|]; [|discriminate].
    destruct (IH _ H) as [rest ->]. exists rest; reflexivity.
Qed.

Lemma includes_of_prefix (s sub : string) :
  String.prefix sub s = true -> Js.includes s sub = true.
Proof.
  intros H. destruct s; cbn [Js.includes]; rewrite H; reflexivity.
Qed.

Lemma includes_append (a sub b : string) :
  Js.includes (a ++ sub ++ b) sub = true.
Proof.
  induction a as [|c a IH].
  - change (Js.includes (sub ++ b) sub = true).
    apply includes_of_prefix, prefix_append.
  - cbn [append Js.includes]. rewrite IH. apply orb_true_r.
Qed.

Lemma includes_split (s sub : string) :
  Js.includes s sub = true -> exists a b, s = a ++ sub ++ b.
Proof.
  induction s as [|c s IH]; cbn [Js.includes]; intros H.
  - rewrite orb_false_r in H. destruct sub; [|discriminate].
    exists "", ""; reflexivity.
  - apply orb_true_iff in H as [H|H].
    + destruct (prefix_split sub (String c s) H) as [rest E].
      exists "", rest. exact E.
    + destruct (IH H) as (a & b & ->). exists (String c a), b. reflexivity.
Qed.

(** ** Target resolver *)

Lemma startsWith_char (c : ascii) (target : string) :
  Js.startsWith target (String c "") = true <->
  exists rest, target = String c "" ++ rest.
Proof.
  unfold Js.startsWith. split.
  - apply prefix_split.
  - intros [rest ->]. apply prefix_append.
Qed.

Lemma looks_like_selector_iff (target : string) :
  looks_like_selector target = true <-> HasSelectorSyntax target.
Proof.
  unfold looks_like_selector, HasSelectorSyntax.
  rewrite !orb_true_iff, !startsWith_char. split.
  - intros [[[H|H]|H]|H]; auto.
    right; right; right. now apply includes_split.
  - intros [H|[H|[H|(a & b & ->)]]]; auto.
    right. apply includes_append.
Qed.

(** C3.  A target that already has selector syntax (it starts with a
    bracket, a hash or a dot, or it contains an equals sign) is returned
    unchanged by the resolver, whatever the cached snapshot holds and also
    when there is none. *)
Theorem findSelector_keeps_selector_syntax
        (toLowerCase : string -> string) (target : string)
        (snapshot : option PageSnapshot.t) :
  HasSelectorSyntax target ->
  findSelector toLowerCase target snapshot = target.
Proof.
  intros H. apply looks_like_selector_iff in H.
  unfold findSelector. rewrite H. reflexivity.
Qed.

Lemma findSelector_keeps_selector_syntax_witness :
  HasSelectorSyntax "input[name=q]" /\
  findSelector Js.toLowerCase "input[name=q]"
               (Some (snapshot_of empty_theme [save_button]))
  = "input[name=q]".
Proof.
  assert (H : HasSelectorSyntax "input[name=q]").
  { right; right; right. exists "input[name", "q]". reflexivity. }
  split; [exact H|].
  apply (findSelector_keeps_selector_syntax Js.toLowerCase "input[name=q]"
           (Some (snapshot_of empty_theme [save_button])) H).
Defined.

Lemma token_char_not_special (c : ascii) :
  Js.is_word_char c || Js.is_hyphen c = true ->
  c <> "["%char /\ c <> "#"%char /\ c <> "."%char /\ c <> "="%char.
Proof.
  intros H; repeat split; intros ->; vm_compute in H; discriminate.
Qed.

Lemma prefix_char_false (c d : ascii) (s : string) :
  d <> c -> String.prefix (String c "") (String d s) = false.
Proof.
  intros ne. simpl. destruct (ascii_dec c d) as [->|]; [now elim ne | reflexivity].
Qed.

Lemma token_has_no_equals (s : string) :
  Js.all_chars (fun c => Js.is_word_char c || Js.is_hyphen c) s = true ->
  Js.includes s "=" = false.
Proof.
  induction s as [|d s IH]; intros H.
  - reflexivity.
  - cbn [Js.all_chars] in H. apply andb_true_iff in H as [Hd Hs].
    cbn [Js.includes]. rewrite (IH Hs), orb_false_r.
    apply prefix_char_false. now apply token_char_not_special.
Qed.

Lemma token_has_no_selector_syntax (target : string) :
  IsToken target -> looks_like_selector target = false.
Proof.
  intros [ne H]. unfold looks_like_selector, Js.startsWith.
  rewrite (token_has_no_equals _ H), orb_false_r.
  destruct target as [|d s]; [now elim ne|].
  cbn [Js.all_chars] in H. apply andb_true_iff in H as [Hd _].
  destruct (token_char_not_special _ Hd) as (n1 & n2 & n3 & _).
  now rewrite !prefix_char_false.
Qed.

Lemma token_passes_test (target : string) :
  IsToken target -> Js.test_word_hyphen target = true.
Proof.
  intros [ne H]. destruct target; [now elim ne | exact H].
Qed.

Lemma action_matches_Matches (lower : string -> string) (target : string)
      (a : Action.t) :
  action_matches lower target a = true -> Matches lower target a.
Proof.
  unfold action_matches, Matches. intros H.
  apply orb_true_iff in H as [H|H]; [now left | right].
  apply andb_true_iff in H as [Ht Hv]. split; [|exact Hv].
  destruct (LocatorHint.type (Action.locator a)); simpl in Ht;
    (reflexivity || discriminate).
Qed.

Lemma find_absent (lower : string -> string) (target : string)
      (acts : list Action.t) :
  (forall a, In a acts -> ~ Matches lower target a) ->
  find (action_matches lower target) acts = None.
Proof.
  induction acts as [|a acts IH]; intros H; simpl.
  - reflexivity.
  - destruct (action_matches lower target a) eqn:E.
    + exfalso. apply (H a); [now left | now apply action_matches_Matches].
    + apply IH. intros b Hb. apply H. now right.
Qed.

(** C4.  A target that is a single token of word characters and hyphens
    (at least one character; such a token never has selector syntax) and that
    matches no entry of the action list of the cached snapshot, neither as a
    case-insensitive substring of an accessible name nor of a locator value
    of the test-id type, is resolved to exactly the query
    [[data-testid="<target>"]]. *)
Theorem findSelector_synthesizes_testid
        (toLowerCase : string -> string) (target : string)
        (snapshot : option PageSnapshot.t) :
  IsToken target ->
  AbsentFrom toLowerCase target snapshot ->
  findSelector toLowerCase target snapshot
  = "[data-testid=" ++ Js.dq ++ target ++ Js.dq ++ "]".
Proof.
  intros Htok Habs. unfold findSelector.
  rewrite (token_has_no_selector_syntax _ Htok), (token_passes_test _ Htok).
  destruct snapshot as [s|]; [|reflexivity].
  simpl in Habs. now rewrite (find_absent _ _ _ Habs).
Qed.

Lemma findSelector_synthesizes_testid_witness :
  IsToken "btn-toast" /\
  AbsentFrom Js.toLowerCase "btn-toast"
             (Some (snapshot_of empty_theme [save_button])) /\
  findSelector Js.toLowerCase "btn-toast"
               (Some (snapshot_of empty_theme [save_button]))
  = "[data-testid=" ++ Js.dq ++ "btn-toast" ++ Js.dq ++ "]".
Proof.
  assert (Htok : IsToken "btn-toast").
  { split; [discriminate | reflexivity]. }
  assert (Habs : AbsentFrom Js.toLowerCase "btn-toast"
                   (Some (snapshot_of empty_theme [save_button]))).
  { intros a [<-|[]] [H|[_ H]]; vm_compute in H; discriminate. }
  split; [exact Htok|]. split; [exact Habs|].
  apply (findSelector_synthesizes_testid Js.toLowerCase "btn-toast"
           (Some (snapshot_of empty_theme [save_button])) Htok Habs).
Defined.

(** The empty target is not a token: it matches every entry of a snapshot
    and, without a snapshot, falls through to the text query. *)
Lemma findSelector_empty_target :
  findSelector Js.toLowerCase "" None = "text=" /\
  findSelector Js.toLowerCase ""
               (Some (snapshot_of empty_theme [save_button]))
  = LocatorHint.value (Action.locator save_button).
Proof. split; reflexivity. Qed.

(** ** Running a program *)

Lemma bind_returned {A B} (c : M A) (k : A -> M B) (m m' : Machine) (a : A) :
  c m = (Returned a, m') -> bind c k m = k a m'.
Proof. intros H. unfold bind. now rewrite H. Qed.

Lemma bind_raised {A B} (c : M A) (k : A -> M B) (m m' : Machine)
      (e : JsError) :
  c m = (Raised e, m') -> bind c k m = (Raised e, m').
Proof. intros H. unfold bind. now rewrite H. Qed.

(** A [try] whose handler returns never throws. *)
Lemma try_catch_total {A} (c : M A) (h : JsError -> M A) (m : Machine) :
  (forall e m1, exists a m2, h e m1 = (Returned a, m2)) ->
  exists a m', try_catch c h m = (Returned a, m').
Proof.
  intros Hh. unfold try_catch. destruct (c m) as [[a|e] m1].
  - now exists a, m1.
  - apply Hh.
Qed.

Lemma length_snoc {A} (l : list A) (x : A) :
  length (l ++ [x]) = S (length l).
Proof. rewrite length_app. simpl. lia. Qed.

(** ** Diff engine: pixel comparison *)

(** [compareImages] returns in every world. *)
Lemma compareImages_returns (w : World) (a b out : string) (m : Machine) :
  exists r m', compareImages w a b out m = (Returned r, m').
Proof.
  unfold compareImages, bind, existsSync, call at 1. cbn [fst snd].
  destruct (w_existsSync w (length (trace m)) a); cbn [negb].
  2: { unfold ret. eauto. }
  unfold call at 1.
  match goal with |- context [w_existsSync w ?t b] =>
    destruct (w_existsSync w t b) end; cbn [negb].
  2: { unfold ret. eauto. }
  apply try_catch_total. intros e m1. unfold ret. eauto.
Qed.

(** Unfolding the monad and the primitive calls, and using the answers of
    the world that the context fixes. *)
Ltac crunch :=
  repeat (progress (
    cbv beta iota delta [bind try_catch call ret perform observe get_state
                         modify_state swallow date_now url_of existsSync
                         read_png throw];
    cbn [trace state fst snd negb];
    rewrite ?length_snoc)).

Ltac run :=
  crunch;
  repeat (match goal with
          | H : _ = _ |- _ => rewrite H
          end; crunch).

(** C6.  When both image files exist and decode, and their pixel dimensions
    differ, [compareImages] returns (it does not throw) a result with
    [diffPercent = 100], no path of a visualization image and
    [hasSignificantChange = true]; the only calls it makes are the two
    existence tests and the two reads, so [pixelmatch] is not run and no
    image is written. *)
Theorem compareImages_size_mismatch
        (w : World) (a b out : string) (m : Machine) (img1 img2 : PNG) :
  w_existsSync w (length (trace m)) a = true ->
  w_existsSync w (S (length (trace m))) b = true ->
  w_read_png w (S (S (length (trace m)))) a = Returned img1 ->
  w_read_png w (S (S (S (length (trace m))))) b = Returned img2 ->
  width img1 <> width img2 \/ height img1 <> height img2 ->
  exists r m',
    compareImages w a b out m = (Returned (Some r), m') /\
    diffPercent r = 100 /\
    diffImagePath r = None /\
    hasSignificantChange r = true /\
    calls_between m m' [ExistsSync a; ExistsSync b; ReadPng a; ReadPng b].
Proof.
  intros E1 E2 R1 R2 Hdim.
  assert (Hneq : negb (width img1 =? width img2)%Z
                 || negb (height img1 =? height img2)%Z = true).
  { apply orb_true_iff. destruct Hdim as [H|H]; [left|right];
      apply negb_true_iff, Z.eqb_neq; exact H. }
  clear Hdim.
  exists (size_mismatch img1). eexists.
  unfold compareImages. run.
  repeat split.
  unfold calls_between. cbn [trace]. rewrite <- !app_assoc. reflexivity.
Qed.

Lemma compareImages_size_mismatch_witness :
  exists r m',
    compareImages (image_world (blank_png 1280 720) (blank_png 1280 900) 0)
      "out/page-before.png" "out/page.png" "out" initial_machine
    = (Returned (Some r), m') /\
    diffPercent r = 100 /\
    diffImagePath r = None /\
    hasSignificantChange r = true /\
    calls_between initial_machine m'
      [ExistsSync "out/page-before.png"; ExistsSync "out/page.png";
       ReadPng "out/page-before.png"; ReadPng "out/page.png"].
Proof.
  apply (compareImages_size_mismatch
           (image_world (blank_png 1280 720) (blank_png 1280 900) 0)
           "out/page-before.png" "out/page.png" "out" initial_machine
           (blank_png 1280 720) (blank_png 1280 900)).
  - reflexivity.
  - reflexivity.
  - reflexivity.
  - reflexivity.
  - right. discriminate.
Defined.

(** ** Binary64 arithmetic *)

Lemma nearest_even_spec (N D : Z) :
  (0 < D)%Z ->
  (2 * (Double.nearest_even N D * D - N) <= D /\
   - D <= 2 * (Double.nearest_even N D * D - N))%Z.
Proof.
  intros HD. unfold Double.nearest_even.
  pose proof (Z.div_mod N D ltac:(lia)) as E.
  pose proof (Z.mod_pos_bound N D HD) as B.
  destruct (Z.compare_spec (2 * (N mod D)) D);
    try destruct (Z.even (N / D)); nia.
Qed.

Lemma nearest_even_near (s : Q) :
  inject_Z (Double.nearest_even (Qnum s) (Zpos (Qden s))) - (1 # 2) <= s /\
  s <= inject_Z (Double.nearest_even (Qnum s) (Zpos (Qden s))) + (1 # 2).
Proof.
  destruct (nearest_even_spec (Qnum s) (Zpos (Qden s)) eq_refl) as [H1 H2].
  destruct s as [N D]. cbn [Qnum Qden] in *.
  set (M := Double.nearest_even N (Z.pos D)) in *. clearbody M.
  unfold Qle, Qminus, Qplus, Qopp, inject_Z. cbn [Qnum Qden].
  split; nia.
Qed.

Lemma pow2_pos (k : Z) : 0 < 2 ^ k.
Proof. apply Qpower_0_lt. reflexivity. Qed.

Lemma pow2_opp (k : Z) : 2 ^ k * 2 ^ (- k) == 1.
Proof.
  rewrite <- Qpower_plus by discriminate.
  now rewrite Z.add_opp_diag_r.
Qed.

(** [binade x] is the integer part of the binary logarithm of [x]. *)
Lemma binade_lower (x : Q) : 0 < x -> 2 ^ Double.binade x <= x.
Proof.
  intros Hx. unfold Double.binade.
  set (c := (Z.log2 (Qnum x) - Z.log2 (Z.pos (Qden x)))%Z).
  destruct (Qle_bool (2 ^ c) x) eqn:T; [now apply Qle_bool_iff|].
  destruct x as [a b]. cbn [Qnum Qden] in *.
  assert (Ha : (0 < a)%Z).
  { unfold Qlt in Hx. cbn in Hx. lia. }
  pose proof (Z.log2_spec a Ha) as [La _].
  pose proof (Z.log2_spec (Z.pos b) eq_refl) as [_ Lb].
  pose proof (Z.log2_nonneg a) as Na.
  pose proof (Z.log2_nonneg (Z.pos b)) as Nb.
  replace (c - 1)%Z with (Z.log2 a - Z.succ (Z.log2 (Z.pos b)))%Z
    by (unfold c; lia).
  rewrite Qpower_minus by discriminate.
  rewrite <- !(Zpower_Qpower 2) by lia.
  set (A := (2 ^ Z.log2 a)%Z) in *.
  set (B := (2 ^ Z.succ (Z.log2 (Z.pos b)))%Z) in *.
  assert (HB : (0 < B)%Z) by lia.
  apply Qle_shift_div_r.
  - unfold Qlt. cbn. lia.
  - unfold Qle. cbn [Qnum Qden Qmult inject_Z]. nia.
Qed.

Lemma binade_upper (x : Q) : 0 < x -> x < 2 ^ (Double.binade x + 1).
Proof.
  intros Hx. unfold Double.binade.
  set (c := (Z.log2 (Qnum x) - Z.log2 (Z.pos (Qden x)))%Z).
  destruct (Qle_bool (2 ^ c) x) eqn:T.
  - destruct x as [a b]. cbn [Qnum Qden] in *.
    assert (Ha : (0 < a)%Z).
    { unfold Qlt in Hx. cbn in Hx. lia. }
    pose proof (Z.log2_spec a Ha) as [_ La].
    pose proof (Z.log2_spec (Z.pos b) eq_refl) as [Lb _].
    pose proof (Z.log2_nonneg a) as Na.
    pose proof (Z.log2_nonneg (Z.pos b)) as Nb.
    replace (c + 1)%Z with (Z.succ (Z.log2 a) - Z.log2 (Z.pos b))%Z
      by (unfold c; lia).
    rewrite Qpower_minus by discriminate.
    rewrite <- !(Zpower_Qpower 2) by lia.
    set (A := (2 ^ Z.succ (Z.log2 a))%Z) in *.
    set (B := (2 ^ Z.log2 (Z.pos b))%Z) in *.
    assert (HB : (0 < B)%Z) by lia.
    apply Qlt_shift_div_l.
    + unfold Qlt. cbn. lia.
    + unfold Qlt. cbn [Qnum Qden Qmult inject_Z]. nia.
  - replace (c - 1 + 1)%Z with c by lia.
    apply Qnot_le_lt. intros H. apply Qle_bool_iff in H. congruence.
Qed.

(** The rounding moves a value by half a unit in the last place at most. *)
Lemma round_pos_error (x : Q) :
  0 < x ->
  x - 2 ^ Double.ulp_exponent x * (1 # 2) <= Double.round_pos x /\
  Double.round_pos x <= x + 2 ^ Double.ulp_exponent x * (1 # 2).
Proof.
  intros Hx. unfold Double.round_pos.
  set (e := Double.ulp_exponent x).
  set (s := x * 2 ^ (- e)).
  destruct (nearest_even_near s) as [H1 H2].
  set (M := inject_Z (Double.nearest_even (Qnum s) (Z.pos (Qden s)))) in *.
  clearbody M.
  pose proof (pow2_pos e) as P.
  pose proof (pow2_opp e) as I.
  assert (Hs : s * 2 ^ e == x).
  { unfold s. rewrite <- Qmult_assoc, (Qmult_comm (2 ^ (- e))), I.
    apply Qmult_1_r. }
  set (p := 2 ^ e) in *. clearbody p. clearbody s.
  split; rewrite <- Hs; nra.
Qed.

Lemma round_pos_relative (x : Q) :
  2 ^ (-1022) <= x ->
  x * (1 - Double.epsilon) <= Double.round_pos x /\
  Double.round_pos x <= x * (1 + Double.epsilon).
Proof.
  intros Hn.
  assert (Hx : 0 < x).
  { eapply Qlt_le_trans; [apply (pow2_pos (-1022)) | exact Hn]. }
  destruct (round_pos_error x Hx) as [H1 H2].
  assert (Hu : 2 ^ Double.ulp_exponent x * (1 # 2) <= x * Double.epsilon).
  { unfold Double.ulp_exponent, Double.epsilon.
    destruct (Z.max_spec (Double.binade x - 52) (-1074)) as [[_ ->]|[_ ->]].
    - change (2 ^ (-1074) * (1 # 2)) with (2 ^ (-1022) * 2 ^ (-53)).
      apply Qmult_le_compat_r; [exact Hn|]. apply Qlt_le_weak, pow2_pos.
    - pose proof (binade_lower x Hx) as L.
      replace (Double.binade x - 52)%Z with (Double.binade x + -52)%Z by lia.
      rewrite Qpower_plus by discriminate.
      setoid_replace (2 ^ Double.binade x * 2 ^ (-52) * (1 # 2))
        with (2 ^ Double.binade x * 2 ^ (-53)).
      + apply Qmult_le_compat_r; [exact L|]. apply Qlt_le_weak, pow2_pos.
      + rewrite <- Qmult_assoc. apply Qmult_comp; reflexivity. }
  split; lra.
Qed.

(** The rounding depends on the value only, not on the fraction that
    denotes it. *)
Lemma round_comp (x y : Q) : x == y -> Double.round x = Double.round y.
Proof.
  intros H. unfold Double.round. now rewrite (Qred_complete x y H).
Qed.

Lemma round_zero (x : Q) : x == 0 -> Double.round x = 0.
Proof. intros H. now rewrite (round_comp x 0 H). Qed.

(** The relative error of an operation whose exact result is a normal
    number is [2^-53] at most. *)
Lemma round_relative (x : Q) :
  2 ^ (-1022) <= x ->
  x * (1 - Double.epsilon) <= Double.round x /\
  Double.round x <= x * (1 + Double.epsilon).
Proof.
  intros Hn. unfold Double.round.
  pose proof (Qred_correct x) as R.
  assert (Hx : 0 < Qred x).
  { rewrite R. eapply Qlt_le_trans; [apply (pow2_pos (-1022)) | exact Hn]. }
  destruct (Qnum (Qred x)) as [|a|a] eqn:E.
  - exfalso. unfold Qlt in Hx. rewrite E in Hx. cbn in Hx. lia.
  - rewrite <- R in Hn. destruct (round_pos_relative (Qred x) Hn) as [H1 H2].
    rewrite R in H1 at 1. rewrite R in H2 at 2. now split.
  - exfalso. unfold Qlt in Hx. rewrite E in Hx. cbn in Hx. lia.
Qed.

Lemma round_near (x : Q) :
  (1 # 18446744073709551616) <= x ->
  x * (1 - (1 # 9007199254740992)) <= Double.round x /\
  Double.round x <= x * (1 + (1 # 9007199254740992)).
Proof.
  intros H. apply round_relative.
  eapply Qle_trans; [|exact H]. discriminate.
Qed.

(** The rounding agrees with the specification of the binary64 operations
    in the standard library ([SFdiv], [SFmul] with 53 bits and the exponent
    bound 1024) on the operands of the examples of this file. *)
Example double_agrees_with_SpecFloat :
  let percent n t :=
    SpecFloat.SFmul 53 1024
      (SpecFloat.SFdiv 53 1024 (Double.spec_of_Z n) (Double.spec_of_Z t))
      (Double.spec_of_Z 100) in
  let hundredths n t :=
    SpecFloat.SFmul 53 1024 (percent n t) (Double.spec_of_Z 100) in
  forallb
    (fun nt =>
       Qeq_bool (Double.of_spec (percent (fst nt) (snd nt)))
                (raw_percent (fst nt) (snd nt))
       && Qeq_bool (Double.of_spec (hundredths (fst nt) (snd nt)))
                   (Double.mul (raw_percent (fst nt) (snd nt)) 100))
    [ (7, 20000); (201, 20000); (33408, 921600); (63, 12500); (250, 12500);
      (1, 200); (1, 20000); (1, 3); (49, 1000000); (921599, 921600) ]%Z
  = true /\
  forallb
    (fun k =>
       Qeq_bool (Double.of_spec
                   (SpecFloat.SFdiv 53 1024 (Double.spec_of_Z k)
                                    (Double.spec_of_Z 100)))
                (Double.div (inject_Z k) 100))
    [ 1; 3; 4; 29; 50; 100; 101; 362; 9999; 10000 ]%Z
  = true.
Proof. split; vm_compute; reflexivity. Qed.

(** ** Diff engine: the percentage *)

Lemma exceeds_threshold_iff (q : Q) :
  exceeds_threshold q = true <-> (1 # 2) < q.
Proof.
  unfold exceeds_threshold. rewrite negb_true_iff. split.
  - intros H. apply Qnot_le_lt. intros Hle.
    apply Qle_bool_iff in Hle. congruence.
  - intros H. destruct (Qle_bool q (1 # 2)) eqn:E; [|reflexivity].
    apply Qle_bool_iff in E. exfalso. exact (Qlt_not_le _ _ H E).
Qed.

Lemma ratio_bounds (n : Z) (t : positive) :
  (1 <= n <= Z.pos t)%Z -> (Z.pos t < 2 ^ 32)%Z ->
  (1 # 4294967296) <= inject_Z n / inject_Z (Z.pos t) /\
  inject_Z n / inject_Z (Z.pos t) <= 1.
Proof.
  intros Hn Ht. unfold Qle, Qdiv, Qmult, Qinv, inject_Z. cbn [Qnum Qden].
  change (2 ^ 32)%Z with 4294967296%Z in Ht. split; lia.
Qed.

(** The three operations of the computation, for a count that is not zero:
    the percentage and the number of hundredths are the exact ones up to the
    relative error [2^-51]. *)
Lemma percent_near (n : Z) (t : positive) :
  (1 <= n <= Z.pos t)%Z -> (Z.pos t < 2 ^ 32)%Z ->
  let x := inject_Z n / inject_Z (Z.pos t) in
  let u := 1 # 2251799813685248 in
  x * 100 * (1 - u) <= raw_percent n (Z.pos t) /\
  raw_percent n (Z.pos t) <= x * 100 * (1 + u) /\
  x * 100 * 100 * (1 - u) <= Double.mul (raw_percent n (Z.pos t)) 100 /\
  Double.mul (raw_percent n (Z.pos t)) 100 <= x * 100 * 100 * (1 + u).
Proof.
  intros Hn Ht x u. unfold raw_percent, Double.mul, Double.div.
  fold x. destruct (ratio_bounds n t Hn Ht) as [X0 X1]. fold x in X0, X1.
  clearbody x.
  destruct (round_near x) as [A1 A2]; [lra|].
  set (d1 := Double.round x) in *. clearbody d1.
  destruct (round_near (d1 * 100)) as [B1 B2]; [lra|].
  set (p := Double.round (d1 * 100)) in *. clearbody p.
  destruct (round_near (p * 100)) as [C1 C2]; [lra|].
  set (q := Double.round (p * 100)) in *. clearbody q.
  unfold u. repeat split; lra.
Qed.

Lemma raw_percent_zero (t : Z) : raw_percent 0 t = 0.
Proof.
  unfold raw_percent, Double.mul, Double.div.
  rewrite (round_zero (inject_Z 0 / inject_Z t)).
  - reflexivity.
  - unfold Qdiv. apply Qmult_0_l.
Qed.

(** Equal ratios give the same computed percentage. *)
Lemma raw_percent_ratio (n t n' t' : Z) :
  (0 < t)%Z -> (0 < t')%Z -> (n * t' = n' * t)%Z ->
  raw_percent n t = raw_percent n' t'.
Proof.
  intros Ht Ht' H. unfold raw_percent, Double.div.
  rewrite (round_comp (inject_Z n / inject_Z t) (inject_Z n' / inject_Z t')).
  - reflexivity.
  - destruct t as [|t|t]; try lia. destruct t' as [|t'|t']; try lia.
    unfold Qeq, Qdiv, Qmult, Qinv, inject_Z. cbn [Qnum Qden]. lia.
Qed.

(** [Math.round] is exact on the Number it is given. *)
Lemma round_spec (q : Q) :
  inject_Z (Js.round q) <= q + (1 # 2) /\
  q + (1 # 2) < inject_Z (Js.round q) + 1.
Proof.
  unfold Js.round. split.
  - apply Qfloor_le.
  - pose proof (Qlt_floor (q + (1 # 2))) as H.
    rewrite inject_Z_plus in H. exact H.
Qed.

(** The number of hundredths that is reported, for a count that is not
    zero: an integer nearest to the exact [10000 * n / t]. *)
Lemma hundredths_nearest (n : Z) (t : positive) :
  (1 <= n <= Z.pos t)%Z -> (Z.pos t < 2 ^ 32)%Z ->
  (20000 * n - Z.pos t
   <= 2 * Z.pos t * Js.round (Double.mul (raw_percent n (Z.pos t)) 100)
   <= 20000 * n + Z.pos t)%Z.
Proof.
  intros Hn Ht.
  destruct (percent_near n t Hn Ht) as (_ & _ & Q1 & Q2).
  cbv zeta in Q1, Q2.
  destruct (round_spec (Double.mul (raw_percent n (Z.pos t)) 100))
    as [K1 K2].
  set (k := Js.round (Double.mul (raw_percent n (Z.pos t)) 100)) in *.
  clearbody k.
  set (q := Double.mul (raw_percent n (Z.pos t)) 100) in *. clearbody q.
  assert (U : inject_Z k
              <= inject_Z n / inject_Z (Z.pos t) * 100 * 100
                 * (2251799813685249 # 2251799813685248) + (1 # 2)) by lra.
  assert (L : inject_Z n / inject_Z (Z.pos t) * 100 * 100
              * (2251799813685247 # 2251799813685248) + (1 # 2)
              < inject_Z k + 1) by lra.
  clear Q1 Q2 K1 K2 q.
  change (2 ^ 32)%Z with 4294967296%Z in Ht.
  unfold Qle, Qlt, Qdiv, Qmult, Qplus, Qminus, Qopp, Qinv, inject_Z in U, L.
  cbn [Qnum Qden] in U, L.
  repeat rewrite Pos2Z.inj_mul in U. repeat rewrite Pos2Z.inj_mul in L.
  pose proof (Pos2Z.is_pos t) as Hp.
  set (T := Z.pos t) in *. clearbody T.
  split; lia.
Qed.

Lemma hundredths_zero_count (t : Z) :
  Js.round (Double.mul (raw_percent 0 t) 100) = 0%Z.
Proof. rewrite raw_percent_zero. reflexivity. Qed.

(** The two exact ties of the thresholds, computed. *)
Lemma raw_percent_half : raw_percent 1 200 == 1 # 2.
Proof. vm_compute. reflexivity. Qed.

Lemma hundredths_half :
  Js.round (Double.mul (raw_percent 1 20000) 100) = 1%Z.
Proof. vm_compute. reflexivity. Qed.

(** The result is marked significant exactly when more than one pixel in
    200 differs. *)
Lemma significance_exact (n : Z) (t : positive) :
  (0 <= n <= Z.pos t)%Z -> (Z.pos t < 2 ^ 32)%Z ->
  exceeds_threshold (raw_percent n (Z.pos t)) = true <->
  (Z.pos t < 200 * n)%Z.
Proof.
  intros Hn Ht. rewrite exceeds_threshold_iff.
  destruct (Z.eq_dec n 0) as [->|Hn0].
  { rewrite raw_percent_zero. split; [intros H; discriminate H | lia]. }
  destruct (percent_near n t ltac:(lia) Ht) as (P1 & P2 & _).
  cbv zeta in P1, P2.
  set (p := raw_percent n (Z.pos t)) in *.
  change (2 ^ 32)%Z with 4294967296%Z in Ht.
  split.
  - intros H.
    destruct (Z.lt_trichotomy (Z.pos t) (200 * n)) as [Hlt|[Heq|Hgt]];
      [exact Hlt | exfalso | exfalso].
    + unfold p in H.
      rewrite (raw_percent_ratio n (Z.pos t) 1 200) in H by lia.
      rewrite raw_percent_half in H. discriminate H.
    + assert (B : (1 # 2) < inject_Z n / inject_Z (Z.pos t) * 100
                            * (2251799813685249 # 2251799813685248))
        by (clearbody p; lra).
      clear P1 P2 H. clearbody p.
      unfold Qlt, Qdiv, Qmult, Qinv, inject_Z in B. cbn [Qnum Qden] in B.
      repeat rewrite Pos2Z.inj_mul in B. lia.
  - intros H.
    assert (B : (1 # 2) < inject_Z n / inject_Z (Z.pos t) * 100
                          * (2251799813685247 # 2251799813685248)).
    { unfold Qlt, Qdiv, Qmult, Qinv, inject_Z. cbn [Qnum Qden].
      repeat rewrite Pos2Z.inj_mul. lia. }
    clearbody p. lra.
Qed.

(** The reported number of hundredths: an integer nearest to
    [10000 * n / t], between 0 and 10000, and 0 exactly when fewer than one
    pixel in 20000 differs. *)
Lemma hundredths_facts (n : Z) (t : positive) :
  (0 <= n <= Z.pos t)%Z -> (Z.pos t < 2 ^ 32)%Z ->
  let k := Js.round (Double.mul (raw_percent n (Z.pos t)) 100) in
  (20000 * n - Z.pos t <= 2 * Z.pos t * k <= 20000 * n + Z.pos t)%Z /\
  (0 <= k <= 10000)%Z /\
  (k = 0%Z <-> (20000 * n < Z.pos t)%Z).
Proof.
  intros Hn Ht k.
  pose proof (Pos2Z.is_pos t) as Hp.
  destruct (Z.eq_dec n 0) as [->|Hn0].
  { unfold k. rewrite hundredths_zero_count. repeat split; lia. }
  pose proof (hundredths_nearest n t ltac:(lia) Ht) as H. fold k in H.
  change (2 ^ 32)%Z with 4294967296%Z in Ht.
  split; [exact H|]. split; [nia|]. split.
  - intros K.
    destruct (Z.lt_trichotomy (20000 * n) (Z.pos t)) as [Hlt|[Heq|Hgt]];
      [exact Hlt | exfalso | exfalso].
    + unfold k in K.
      rewrite (raw_percent_ratio n (Z.pos t) 1 20000) in K by lia.
      rewrite hundredths_half in K. discriminate K.
    + rewrite K in H. lia.
  - intros Hlt. nia.
Qed.

(** The Number that is written [k / 100], for [0 <= k <= 10000]: it is 0 for
    [k = 0] only, it reaches 0.5 from [k = 50] on and exceeds it from
    [k = 51] on, and it is 100 at most. *)
Lemma hundredth_value (k : Z) :
  (0 <= k <= 10000)%Z ->
  0 <= Double.div (inject_Z k) 100 /\
  Double.div (inject_Z k) 100 <= 100 /\
  (Double.div (inject_Z k) 100 == 0 <-> k = 0%Z) /\
  ((1 # 2) <= Double.div (inject_Z k) 100 <-> (50 <= k)%Z) /\
  ((1 # 2) < Double.div (inject_Z k) 100 <-> (51 <= k)%Z).
Proof.
  intros Hk. unfold Double.div.
  destruct (Z.eq_dec k 0) as [->|K0].
  { rewrite (round_zero (inject_Z 0 / 100)) by reflexivity.
    repeat split; try discriminate; try lia; intros H;
      exfalso; revert H; unfold Qle, Qlt; cbn; lia. }
  destruct (Z.eq_dec k 50) as [->|K50].
  { rewrite (round_comp (inject_Z 50 / 100) (1 # 2)) by reflexivity.
    assert (E : Double.round (1 # 2) == 1 # 2) by (vm_compute; reflexivity).
    rewrite E. repeat split; try discriminate; try lia; intros H;
      exfalso; revert H; unfold Qle, Qlt, Qeq; cbn; lia. }
  destruct (Z.eq_dec k 10000) as [->|Kmax].
  { rewrite (round_comp (inject_Z 10000 / 100) 100) by reflexivity.
    assert (E : Double.round 100 == 100) by (vm_compute; reflexivity).
    rewrite E. repeat split; try discriminate; try lia; intros H;
      exfalso; revert H; unfold Qle, Qlt, Qeq; cbn; lia. }
  assert (X : inject_Z k / 100 == inject_Z k * (1 # 100)) by reflexivity.
  assert (K1 : 1 <= inject_Z k) by (unfold Qle; cbn; lia).
  assert (K2 : inject_Z k <= 9999) by (unfold Qle; cbn; lia).
  destruct (round_near (inject_Z k / 100)) as [A1 A2]; [lra|].
  set (d := Double.round (inject_Z k / 100)) in *. clearbody d.
  split; [lra|]. split; [lra|]. split.
  { split; [intros H; exfalso; lra | intros H; contradiction]. }
  split.
  - split.
    + intros H. destruct (Z.le_gt_cases 50 k) as [|Hlow]; [assumption|].
      exfalso. assert (inject_Z k <= 49) by (unfold Qle; cbn; lia). lra.
    + intros H. assert (51 <= inject_Z k) by (unfold Qle; cbn; lia). lra.
  - split.
    + intros H. destruct (Z.le_gt_cases 51 k) as [|Hlow]; [assumption|].
      exfalso. assert (inject_Z k <= 49) by (unfold Qle; cbn; lia). lra.
    + intros H. assert (51 <= inject_Z k) by (unfold Qle; cbn; lia). lra.
Qed.

(** Three exact ties of the rounding to two decimals, 0.035, 1.005 and
    3.625 per cent: the computed number of hundredths lies just below the
    half, and the lower hundredth is reported. *)
Example round2_below_exact_ties :
  round2 (raw_percent 7 20000) = Double.div 3 100 /\
  round2 (raw_percent 201 20000) = Double.div 100 100 /\
  round2 (raw_percent 33408 921600) = Double.div 362 100.
Proof. repeat split; vm_compute; reflexivity. Qed.

(** C8, amended.  For two screenshots of the same dimensions, of fewer than
    [2^32] pixels, on which [pixelmatch] counts [n] differing pixels out of
    [total] (the diff image being written without fault), the reported
    [diffPercent] is the Number written [k / 100] for a whole number [k] of
    hundredths nearest to the exact percentage [n / total * 100]: at an
    exact half either neighbour may be reported, the floating-point
    arithmetic deciding.  The result is marked significant exactly when the
    exact percentage exceeds 0.5; the comparison is made on the percentage
    before its rounding to two decimals, not on the reported one. *)
Theorem compareImages_percentage
        (w : World) (a b out : string) (m : Machine) (img1 img2 : PNG)
        (n : Z) :
  w_existsSync w (length (trace m)) a = true ->
  w_existsSync w (S (length (trace m))) b = true ->
  w_read_png w (S (S (length (trace m)))) a = Returned img1 ->
  w_read_png w (S (S (S (length (trace m))))) b = Returned img2 ->
  width img1 = width img2 ->
  height img1 = height img2 ->
  (0 < width img1 * height img1 < 2 ^ 32)%Z ->
  (0 <= n <= width img1 * height img1)%Z ->
  w_pixelmatch w (data img1) (data img2) (width img1) (height img1)
  = Returned n ->
  w_exec w (S (S (S (S (S (length (trace m)))))))
         (WriteFileSync (w_path_join w out "diff.png")) = Returned tt ->
  exists r m',
    compareImages w a b out m = (Returned (Some r), m') /\
    diffPixels r = n /\
    totalPixels r = (width img1 * height img1)%Z /\
    (exists k : Z,
        diffPercent r = Double.div (inject_Z k) 100 /\
        inject_Z n / inject_Z (width img1 * height img1) * 100 * 100 - (1 # 2)
          <= inject_Z k /\
        inject_Z k
          <= inject_Z n / inject_Z (width img1 * height img1) * 100 * 100
             + (1 # 2)) /\
    (hasSignificantChange r = true <->
     (1 # 2) < inject_Z n / inject_Z (width img1 * height img1) * 100).
Proof.
  intros E1 E2 R1 R2 Hw Hh Hpos Hn P Wr.
  assert (Heq : negb (width img1 =? width img2)%Z
                || negb (height img1 =? height img2)%Z = false).
  { rewrite <- Hw, <- Hh, !Z.eqb_refl. reflexivity. }
  clear Hw Hh.
  eexists. eexists.
  unfold compareImages. run.
  split; [reflexivity|]. cbn [diffPixels totalPixels diffPercent
                               hasSignificantChange].
  split; [reflexivity|]. split; [reflexivity|].
  destruct (width img1 * height img1)%Z as [|t|t]; try lia.
  destruct (hundredths_facts n t ltac:(lia) ltac:(lia)) as (Hk & _).
  cbv zeta in Hk. split.
  - exists (Js.round (Double.mul (raw_percent n (Z.pos t)) 100)).
    split; [reflexivity|].
    set (k := Js.round (Double.mul (raw_percent n (Z.pos t)) 100)) in *.
    clearbody k.
    unfold Qminus. unfold Qle, Qdiv, Qmult, Qplus, Qopp, Qinv, inject_Z.
    cbn [Qnum Qden]. repeat rewrite Pos2Z.inj_mul.
    split; lia.
  - rewrite (significance_exact n t) by lia.
    unfold Qlt, Qdiv, Qmult, Qinv, inject_Z. cbn [Qnum Qden].
    repeat rewrite Pos2Z.inj_mul. lia.
Qed.

Lemma compareImages_percentage_witness :
  exists r m',
    compareImages (image_world (blank_png 100 125) (blank_png 100 125) 250)
      "out/page-before.png" "out/page.png" "out" initial_machine
    = (Returned (Some r), m') /\
    diffPixels r = 250%Z /\
    totalPixels r = (100 * 125)%Z /\
    (exists k : Z,
        diffPercent r = Double.div (inject_Z k) 100 /\
        inject_Z 250 / inject_Z (100 * 125) * 100 * 100 - (1 # 2)
          <= inject_Z k /\
        inject_Z k
          <= inject_Z 250 / inject_Z (100 * 125) * 100 * 100 + (1 # 2)) /\
    (hasSignificantChange r = true <->
     (1 # 2) < inject_Z 250 / inject_Z (100 * 125) * 100).
Proof.
  apply (compareImages_percentage
           (image_world (blank_png 100 125) (blank_png 100 125) 250)
           "out/page-before.png" "out/page.png" "out" initial_machine
           (blank_png 100 125) (blank_png 100 125) 250).
  - reflexivity.
  - reflexivity.
  - reflexivity.
  - reflexivity.
  - reflexivity.
  - reflexivity.
  - cbn. lia.
  - cbn. lia.
  - reflexivity.
  - reflexivity.
Defined.

(** C8 as stated fails.  (1) The threshold is applied to the percentage
    before its rounding: 63 differing pixels out of 12500 are 0.504 per
    cent; the reported percentage is 0.5, which does not exceed the
    threshold, and the result is marked significant.  (2) The rounding to
    two decimals is made on the computed Number: 7 differing pixels out of
    20000 are exactly 0.035 per cent, the computed product is just below
    3.5, and 0.03 is reported where the rounding of 0.035 to two decimals
    with halves upwards, the rule of [Math.round], gives 0.04. *)
Lemma compareImages_percentage_against_the_claim :
  (exists r m',
      compareImages (image_world (blank_png 100 125) (blank_png 100 125) 63)
        "out/page-before.png" "out/page.png" "out" initial_machine
      = (Returned (Some r), m') /\
      diffPercent r == 1 # 2 /\
      hasSignificantChange r = true) /\
  (exists r m',
      compareImages (image_world (blank_png 100 200) (blank_png 100 200) 7)
        "out/page-before.png" "out/page.png" "out" initial_machine
      = (Returned (Some r), m') /\
      diffPercent r = Double.div 3 100 /\
      diffPercent r < 35 # 1000 /\
      inject_Z 7 / inject_Z (100 * 200) * 100 == 35 # 1000 /\
      Js.round ((35 # 1000) * 100) = 4%Z /\
      Double.mul (raw_percent 7 (100 * 200)) 100 < 35 # 10).
Proof.
  split.
  - eexists. eexists. split; [reflexivity|].
    split; vm_compute; reflexivity.
  - eexists. eexists. split; [reflexivity|].
    repeat split; vm_compute; reflexivity.
Qed.

(** ** Diff engine: structural comparison *)

Lemma has_true_iff (set : list string) (x : string) :
  has set x = true <-> In x set.
Proof.
  unfold has. rewrite existsb_exists. split.
  - intros (y & Hy & E). apply String.eqb_eq in E. now subst.
  - intros H. exists x. split; [exact H | apply String.eqb_refl].
Qed.

Lemma In_set_of (xs : list string) (x : string) :
  In x (set_of xs) <-> In x xs.
Proof.
  induction xs as [|y xs IH]; simpl; [tauto|].
  rewrite filter_In, IH, negb_true_iff, String.eqb_neq.
  destruct (string_dec y x) as [->|ne]; [tauto|]. tauto.
Qed.

Lemma NoDup_set_of (xs : list string) : NoDup (set_of xs).
Proof.
  induction xs as [|y xs IH]; simpl; constructor.
  - rewrite filter_In, negb_true_iff, String.eqb_neq. tauto.
  - now apply NoDup_filter.
Qed.

Lemma not_in_subset (s l : list string) :
  (forall y, In y l -> In y s) -> not_in s l = [].
Proof.
  intros H. unfold not_in. induction l as [|y l IH]; simpl; [reflexivity|].
  assert (Hy : has s y = true) by (apply has_true_iff, H; now left).
  rewrite Hy. simpl. apply IH. intros z Hz. apply H. now right.
Qed.

Lemma not_in_self (s : list string) : not_in s s = [].
Proof. apply not_in_subset. auto. Qed.

Lemma theme_changes_self (t : Theme.t) : theme_changes t t = [].
Proof.
  unfold theme_changes, themeProps. simpl. now rewrite !String.eqb_refl.
Qed.

Lemma radii_changes_self (t : Theme.t) : radii_changes t t = [].
Proof. unfold radii_changes. now rewrite not_in_self. Qed.

Lemma lookup_of_key (vars : list (string * string)) (k : string) :
  In k (keys vars) -> exists v, lookup k vars = Some v /\ In (k, v) vars.
Proof.
  induction vars as [|[k' v'] vars IH]; simpl; [tauto|].
  intros H. destruct (String.eqb k' k) eqn:E.
  - apply String.eqb_eq in E. subst. exists v'. auto.
  - destruct H as [H|H]; [subst; now rewrite String.eqb_refl in E|].
    destruct (IH H) as (v & L & I). exists v. auto.
Qed.

(** A change is reported for a variable exactly when it is a key of one of
    the two snapshots and its two values, after the substitution of the
    sentinels, differ; each key is reported once at most. *)
Lemma css_variable_changes_spec (b a : Theme.t) (d : ThemeDiff) :
  In d (css_variable_changes b a) <->
  (In (property d) (keys (Theme.cssVariables b))
   \/ In (property d) (keys (Theme.cssVariables a))) /\
  before d = Js.or_else (lookup (property d) (Theme.cssVariables b)) "(not set)"
  /\
  after d = Js.or_else (lookup (property d) (Theme.cssVariables a)) "(removed)"
  /\
  before d <> after d.
Proof.
  unfold css_variable_changes. rewrite in_flat_map. split.
  - intros (k & Hk & Hd). apply In_set_of, in_app_iff in Hk.
    unfold css_variable_change in Hd.
    destruct (String.eqb _ _) eqn:E; simpl in Hd; [tauto|].
    destruct Hd as [<-|[]]. simpl. repeat split; auto.
    now apply String.eqb_neq.
  - intros (Hk & Hb & Ha & Hne). exists (property d). split.
    + now apply In_set_of, in_app_iff.
    + unfold css_variable_change. rewrite <- Hb, <- Ha.
      apply String.eqb_neq in Hne. rewrite Hne. simpl. left.
      now destruct d.
Qed.

(** The sentinels stand for the absent keys. *)
Lemma sentinel_of_absent_key (vars : list (string * string)) (k s : string) :
  ~ In k (keys vars) -> Js.or_else (lookup k vars) s = s.
Proof.
  induction vars as [|[k' v'] vars IH]; simpl; intros H; [reflexivity|].
  destruct (String.eqb k' k) eqn:E.
  - apply String.eqb_eq in E. tauto.
  - apply IH. tauto.
Qed.

(** The example of the specification: [{A: "1"}] against
    [{A: "1", B: "2"}]. *)
Lemma css_variable_changes_example (w : World) (m : Machine) :
  exists r,
    compareSnapshots w
      (snapshot_of (with_variables [("A", "1")]) [])
      (snapshot_of (with_variables [("A", "1"); ("B", "2")]) [])
      None None m = (Returned r, m) /\
    cssVariableChanges r
    = [ {| property := "B"; before := "(not set)"; after := "2" |} ].
Proof. eexists. split; reflexivity. Qed.

Lemma css_variable_changes_self (t : Theme.t) :
  no_empty_value t -> css_variable_changes t t = [].
Proof.
  intros Hne. unfold css_variable_changes.
  set (vars := Theme.cssVariables t) in *.
  assert (H : forall ks, (forall k, In k ks -> In k (keys vars)) ->
                         flat_map (css_variable_change vars vars) ks = []).
  { induction ks as [|k ks IH]; intros Hks; simpl; [reflexivity|].
    rewrite IH by (intros; apply Hks; now right).
    destruct (lookup_of_key vars k (Hks k (or_introl eq_refl)))
      as (v & L & I).
    unfold css_variable_change. rewrite L.
    assert (T : Js.truthy v = true).
    { destruct v; [now elim (Hne k "" I) | reflexivity]. }
    simpl. rewrite T, String.eqb_refl. reflexivity. }
  apply H. intros k Hk. apply In_set_of, in_app_iff in Hk. tauto.
Qed.

(** A snapshot none of whose CSS variables has the empty string as its
    value, compared with itself, yields the seven change lists empty. *)
Lemma compareSnapshots_self_without_empty_values
      (w : World) (s : PageSnapshot.t) (bp ap : option string) (m : Machine) :
  no_empty_value (PageSnapshot.theme s) ->
  exists r m',
    compareSnapshots w s s bp ap m = (Returned r, m') /\
    themeChanges r = [] /\ cssVariableChanges r = [] /\
    sectionsAdded r = [] /\ sectionsRemoved r = [] /\
    actionsAdded r = [] /\ actionsRemoved r = [] /\ layoutChanges r = [].
Proof.
  intros Hne. unfold compareSnapshots.
  match goal with |- context [bind ?c _ _] =>
    assert (Himg : exists img m', c m = (Returned img, m')) end.
  { destruct (Js.supplied bp); [|unfold ret; eauto].
    destruct (Js.supplied ap); [|unfold ret; eauto].
    unfold bind, existsSync, call. apply compareImages_returns. }
  destruct Himg as (img & m' & Himg).
  exists (structural_diff s s img), m'.
  split; [now rewrite (bind_returned _ _ m m' img Himg)|].
  cbn [structural_diff themeChanges cssVariableChanges sectionsAdded
       sectionsRemoved actionsAdded actionsRemoved layoutChanges].
  rewrite theme_changes_self, radii_changes_self, !not_in_self.
  rewrite (css_variable_changes_self _ Hne). repeat split.
Qed.

(** A screenshot compared with itself: when [pixelmatch] finds no differing
    pixel between the image and itself, the percentage is 0 and the result
    is not marked significant. *)
Lemma compareImages_same_file
      (w : World) (a out : string) (m : Machine) (img : PNG) :
  w_existsSync w (length (trace m)) a = true ->
  w_existsSync w (S (length (trace m))) a = true ->
  w_read_png w (S (S (length (trace m)))) a = Returned img ->
  w_read_png w (S (S (S (length (trace m))))) a = Returned img ->
  w_pixelmatch w (data img) (data img) (width img) (height img)
  = Returned 0%Z ->
  w_exec w (S (S (S (S (S (length (trace m)))))))
         (WriteFileSync (w_path_join w out "diff.png")) = Returned tt ->
  exists r m',
    compareImages w a a out m = (Returned (Some r), m') /\
    diffPercent r == 0 /\ diffPixels r = 0%Z /\
    hasSignificantChange r = false.
Proof.
  intros E1 E2 R1 R2 P Wr.
  assert (Heq : negb (width img =? width img)%Z
                || negb (height img =? height img)%Z = false).
  { now rewrite !Z.eqb_refl. }
  eexists. eexists. unfold compareImages. run.
  split; [reflexivity|].
  cbn [diffPercent diffPixels hasSignificantChange].
  rewrite raw_percent_zero. repeat split.
Qed.

(** C5.  The claim fails on a snapshot that has a CSS variable with the
    empty string as its value: comparing the snapshot whose only variable is
    [--gap: ""] with itself reports the change
    [--gap: "(not set)" -> "(removed)"], while the other six lists are
    empty. *)
Theorem compareSnapshots_self_with_empty_value (w : World) (m : Machine) :
  exists r,
    compareSnapshots w
      (snapshot_of (with_variables [("--gap", "")]) [save_button])
      (snapshot_of (with_variables [("--gap", "")]) [save_button])
      None None m = (Returned r, m) /\
    cssVariableChanges r
    = [ {| property := "--gap"; before := "(not set)";
           after := "(removed)" |} ] /\
    themeChanges r = [] /\
    sectionsAdded r = [] /\ sectionsRemoved r = [] /\
    actionsAdded r = [] /\ actionsRemoved r = [] /\ layoutChanges r = [].
Proof. eexists. repeat split. Qed.

(** C7.  The claim fails on a variable that both snapshots set to the empty
    string: for the variables [{A: ""}] before and [{A: ""}] after, whose
    values do not differ, the diff reports a change for [A], from
    ["(not set)"] to ["(removed)"], although [A] is a key of both. *)
Theorem css_variable_changes_equal_empty_values (w : World) (m : Machine) :
  exists r,
    compareSnapshots w
      (snapshot_of (with_variables [("A", "")]) [])
      (snapshot_of (with_variables [("A", "")]) [])
      None None m = (Returned r, m) /\
    lookup "A" [("A", "")] = Some "" /\
    cssVariableChanges r
    = [ {| property := "A"; before := "(not set)"; after := "(removed)" |} ].
Proof. eexists. repeat split. Qed.

(** ** Rules for the specifications of programs *)

Section Rules.

Context {A B : Type}.
Variables (P : SessionState -> Prop) (E : Event -> Prop).

Lemma triple_ret (a : A) (Q : Outcome A -> SessionState -> Prop) :
  (forall st, P st -> Q (Returned a) st) -> triple P (ret a) E Q.
Proof.
  intros H m Hm. exists []. unfold calls_between. simpl.
  rewrite app_nil_r. auto.
Qed.

Lemma triple_modify_state (f : SessionState -> SessionState)
      (Q : Outcome unit -> SessionState -> Prop) :
  (forall st, P st -> Q (Returned tt) (f st)) -> triple P (modify_state f) E Q.
Proof.
  intros H m Hm. exists []. unfold calls_between. simpl.
  rewrite app_nil_r. auto.
Qed.

Lemma triple_observe (f : nat -> A) (Q : Outcome A -> SessionState -> Prop) :
  (forall st a, P st -> Q (Returned a) st) -> triple P (observe f) E Q.
Proof.
  intros H m Hm. exists []. unfold calls_between. simpl.
  rewrite app_nil_r. auto.
Qed.

Lemma triple_call (ev : Event) (answer : nat -> Outcome A)
      (Q : Outcome A -> SessionState -> Prop) :
  E ev -> (forall st o, P st -> Q o st) -> triple P (call ev answer) E Q.
Proof.
  intros He H m Hm. exists [ev]. unfold calls_between. simpl. auto.
Qed.

Lemma triple_bind (c : M A) (k : A -> M B)
      (Q1 : Outcome A -> SessionState -> Prop)
      (Q2 : Outcome B -> SessionState -> Prop) :
  triple P c E Q1 ->
  (forall e st, Q1 (Raised e) st -> Q2 (Raised e) st) ->
  (forall a, triple (Q1 (Returned a)) (k a) E Q2) ->
  triple P (bind c k) E Q2.
Proof.
  intros Hc Hraise Hk m Hm. destruct (Hc m Hm) as (calls1 & T1 & F1 & q1).
  unfold bind, calls_between in *. destruct (c m) as [[a|e] m1]; simpl in *.
  - destruct (Hk a m1 q1) as (calls2 & T2 & F2 & q2).
    exists (calls1 ++ calls2)%list. unfold calls_between in T2.
    rewrite T2, T1, app_assoc. split; [reflexivity|].
    split; [now apply Forall_app | exact q2].
  - exists calls1. auto.
Qed.

Lemma triple_try_catch (c : M A) (h : JsError -> M A)
      (Q1 Q2 : Outcome A -> SessionState -> Prop) :
  triple P c E Q1 ->
  (forall a st, Q1 (Returned a) st -> Q2 (Returned a) st) ->
  (forall e, triple (Q1 (Raised e)) (h e) E Q2) ->
  triple P (try_catch c h) E Q2.
Proof.
  intros Hc Hret Hh m Hm. destruct (Hc m Hm) as (calls1 & T1 & F1 & q1).
  unfold try_catch, calls_between in *.
  destruct (c m) as [[a|e] m1]; simpl in *.
  - exists calls1. auto.
  - destruct (Hh e m1 q1) as (calls2 & T2 & F2 & q2).
    exists (calls1 ++ calls2)%list. unfold calls_between in T2.
    rewrite T2, T1, app_assoc. split; [reflexivity|].
    split; [now apply Forall_app | exact q2].
Qed.

Lemma triple_weaken (c : M A) (P' : SessionState -> Prop)
      (E' : Event -> Prop) (Q Q' : Outcome A -> SessionState -> Prop) :
  triple P' c E' Q' ->
  (forall st, P st -> P' st) ->
  (forall e, E' e -> E e) ->
  (forall o st, Q' o st -> Q o st) ->
  triple P c E Q.
Proof.
  intros Hc HP HE HQ m Hm. destruct (Hc m (HP _ Hm)) as (calls & T & F & q).
  exists calls. split; [exact T|]. split; [|now apply HQ].
  eapply Forall_impl; [|exact F]. exact HE.
Qed.

End Rules.

(** Reading the session fixes it for the rest of the program. *)
Lemma triple_get_bind {B : Type} (P : SessionState -> Prop) (E : Event -> Prop)
      (k : SessionState -> M B) (Q : Outcome B -> SessionState -> Prop) :
  (forall st, P st -> triple (fun s => s = st) (k st) E Q) ->
  triple P (bind get_state k) E Q.
Proof.
  intros H m Hm. unfold bind, get_state. apply (H (state m) Hm m eq_refl).
Qed.

Ltac tbind post :=
  eapply triple_bind with (Q1 := post);
  [ | | intros ?; cbv beta delta [still holds] ].
Ltac tcatch post :=
  eapply triple_try_catch with (Q1 := post);
  [ | | intros ?; cbv beta delta [still holds] ].

(** Leaves of a specification: a primitive of the monad under the
    precondition that fixes the session. *)
Ltac tleaf :=
  first
    [ apply triple_ret; unfold still, holds; intros; subst; auto
    | apply triple_call; [ try (intro; discriminate); auto
                         | unfold still, holds; intros; subst; auto ]
    | apply triple_modify_state; unfold still, holds; intros; subst; auto
    | apply triple_observe; unfold still, holds; intros; subst; auto ].

(** ** Session manager *)

Section SessionFacts.

Variable w : World.

Lemma swallow_spec (c : M unit) (st : SessionState) (E : Event -> Prop) :
  triple (fun s => s = st) c E (still st) ->
  triple (fun s => s = st) (swallow c) E (still st).
Proof.
  intros H. unfold swallow. tcatch (@still unit st).
  - exact H.
  - auto.
  - tleaf.
Qed.

Lemma connect_port_spec (url : option string) (port : Z) (st : SessionState) :
  triple (fun s => s = st) (connect_port w url port) (navigation_has_url url)
         (returns_unchanged st).
Proof.
  unfold connect_port.
  tcatch (@still (option (Browser * Page)) st).
  - tbind (@still (list string) st).
    + tleaf.
    + auto.
    + destruct (usable_pages port a) as [|first rest].
      * tbind (@still unit st); [unfold perform; tleaf | auto | tleaf].
      * destruct (Js.supplied url) as [u|] eqn:Hu; [|tleaf].
        destruct (match_page w u (first :: rest)); [tleaf|].
        tbind (@still unit st).
        { unfold perform. apply triple_call.
          - intros _. rewrite Hu. discriminate.
          - unfold still. intros; subst; auto. }
        { auto. }
        tbind (@still unit st).
        { apply swallow_spec. unfold perform. tleaf. }
        { auto. }
        tleaf.
  - unfold still, returns_unchanged. intros a s ->. eauto.
  - apply triple_ret. unfold still, returns_unchanged. intros s ->. eauto.
Qed.

Lemma tryConnectCDP_from_spec (ports : list Z) (url : option string)
      (st : SessionState) :
  triple (fun s => s = st) (tryConnectCDP_from w ports url) (navigation_has_url url)
         (returns_unchanged st).
Proof.
  induction ports as [|port ports IH]; simpl.
  - apply triple_ret. intros s ->. split; eauto.
  - tbind (@returns_unchanged (option (Browser * Page)) st).
    + apply connect_port_spec.
    + intros e s [_ [x Hx]]. discriminate.
    + eapply triple_weaken with (P' := fun s => s = st) (E' := navigation_has_url url)
                                (Q' := returns_unchanged st); auto.
      2: { intros s [H _]. auto. }
      destruct a; [|exact IH].
      apply triple_ret. intros s ->. split; eauto.
Qed.

Lemma should_navigate_allowed (url : option string) (st0 st : SessionState)
      (u : string) :
  tracks st0 st -> should_navigate url st = Some u ->
  MayNavigate url st0 /\ Js.supplied url = Some u.
Proof.
  intros (_ & Hc & Hr) H. unfold should_navigate in H.
  destruct (Js.supplied url) as [u'|] eqn:Hu; [|discriminate].
  destruct (negb (Js.eqb_opt (Some u') (currentUrl st))
            && negb (isRemote st)) eqn:E; [|discriminate].
  apply andb_true_iff in E as [E1 E2]. split; [|exact H].
  exists u'. split; [exact Hu|].
  rewrite <- Hc, <- Hr. split.
  - intros Heq. rewrite Heq in E1. simpl in E1.
    now rewrite String.eqb_refl in E1.
  - now apply negb_true_iff.
Qed.

Lemma tracks_refl (st : SessionState) : consistent st -> tracks st st.
Proof. intros C. split; [exact C | split; reflexivity]. Qed.

Lemma consistent_set_currentUrl (st : SessionState) (u : string) :
  consistent st -> browser st <> None ->
  consistent (set_currentUrl (Some u) st).
Proof.
  intros [C1 C2] Hb. split; simpl; auto. intros H. now elim Hb.
Qed.

Lemma consistent_set_context (st : SessionState) (c : BrowserContext) :
  consistent st -> consistent (set_context (Some c) st).
Proof.
  intros [C1 C2]. split; simpl; [exact C1|].
  intros R. split; [discriminate | apply (C2 R)].
Qed.

Lemma consistent_set_page (st : SessionState) (p : Page) :
  consistent st -> consistent (set_page (Some p) st).
Proof.
  intros [C1 C2]. split; simpl; [exact C1|].
  intros R. split; [apply (C2 R) | discriminate].
Qed.

Lemma consistent_set_browser (st : SessionState) (b : Browser) :
  consistent st -> consistent (set_browser (Some b) st).
Proof.
  intros [C1 C2]. split; simpl; [discriminate | exact C2].
Qed.

Lemma getPage_launched_spec (url : option string) (st0 : SessionState) :
  consistent st0 ->
  triple (fun s => s = st0) (getPage_launched w url)
         (navigation_allowed url st0) (holds consistent).
Proof.
  intros C0. unfold getPage_launched.
  apply triple_get_bind. intros st Est. subst st0.
  tbind (@acquiring unit st).
  { destruct (browser st) eqn:Hb.
    - tleaf. split; [now apply tracks_refl | congruence].
    - tbind (@still unit st). { unfold perform; tleaf. }
      { unfold still, acquiring. intros e s ->. apply C0. }
      tbind (@still unit
               (set_browser
                  (Some (LaunchedBrowser (negb (env_is_1 (w_HEADED w)))
                     (if negb (env_is_1 (w_HEADED w)) then 0%Z else 50%Z)))
                  st)).
      { tleaf. }
      { unfold still, acquiring. intros e s ->.
        now apply consistent_set_browser. }
      tleaf. destruct C0 as [C1 C2]. destruct (C1 Hb) as [R U].
      split; [|discriminate]. split; [|split; simpl; auto].
      split; simpl; [discriminate | intros; discriminate]. }
  { unfold acquiring, holds. auto. }
  cbv beta delta [acquiring] iota.
  apply triple_get_bind. intros st1 [T1 B1].
  tbind (@acquiring unit st).
  { destruct (context st1) eqn:Hc.
    - tleaf. now split.
    - tbind (@still unit st1). { unfold perform; tleaf. }
      { unfold still, acquiring. intros e s ->. apply T1. }
      tleaf. destruct T1 as (C & U & R).
      split; [|exact B1]. split; [|split; assumption].
      now apply consistent_set_context. }
  { unfold acquiring, holds. auto. }
  cbv beta delta [acquiring] iota.
  apply triple_get_bind. intros st2 [T2 B2].
  tbind (@acquiring unit st).
  { destruct (page st2) eqn:Hp.
    - tleaf. now split.
    - tbind (@still unit st2). { unfold perform; tleaf. }
      { unfold still, acquiring. intros e s ->. apply T2. }
      tbind (@acquiring unit st).
      { tleaf. destruct T2 as (C & U & R).
        split; [|exact B2]. split; [|split; assumption].
        now apply consistent_set_page. }
      { auto. }
      cbv beta delta [acquiring] iota.
      unfold perform. apply triple_call; [intro; discriminate|].
      intros s [o|e] [T B]; simpl; auto. apply T. }
  { unfold acquiring, holds. auto. }
  cbv beta delta [acquiring] iota.
  apply triple_get_bind. intros st3 [T3 B3].
  tbind (@holds unit consistent).
  { destruct (should_navigate url st3) as [u|] eqn:Hnav.
    - destruct (should_navigate_allowed url st st3 u T3 Hnav) as [May _].
      tbind (@still unit st3).
      { unfold perform. apply triple_call; [intros _; exact May|].
        unfold still. intros; subst; auto. }
      { unfold still, holds. intros e s ->. apply T3. }
      tbind (@still unit st3).
      { apply swallow_spec. unfold perform. tleaf. }
      { unfold still, holds. intros e s ->. apply T3. }
      tleaf. apply consistent_set_currentUrl; [apply T3 | exact B3].
    - destruct (isRemote st3).
      + tbind (@still string st3). { unfold url_of. tleaf. }
        { unfold still, holds. intros e s ->. apply T3. }
        tleaf. apply consistent_set_currentUrl; [apply T3 | exact B3].
      + tleaf. apply T3. }
  { auto. }
  tleaf.
Qed.

Lemma navigation_without_browser (url : option string) (st : SessionState)
      (e : Event) :
  consistent st -> browser st = None ->
  navigation_has_url url e -> navigation_allowed url st e.
Proof.
  intros [C1 _] Hb H Hnav. destruct (C1 Hb) as [R U].
  destruct (Js.supplied url) as [u|] eqn:Hu; [|now elim (H Hnav)].
  exists u. rewrite U. repeat split; auto. discriminate.
Qed.

(** [getPage] keeps the session consistent, and it navigates only when the
    session it starts from may navigate. *)
Lemma getPage_spec (url : option string) (st0 : SessionState) :
  consistent st0 ->
  triple (fun s => s = st0) (getPage w url)
         (navigation_allowed url st0) (holds consistent).
Proof.
  intros C0. unfold getPage.
  apply triple_get_bind. intros st Est. subst st0.
  tbind (@returns_unchanged (option (Browser * Page)) st).
  { destruct (browser st) eqn:Hb; [tleaf; split; eauto|].
    destruct (env_is_1 (w_USE_CDP w)); [|tleaf; split; eauto].
    eapply triple_weaken.
    - apply (tryConnectCDP_from_spec CDP_PORTS url st).
    - auto.
    - intros e. now apply navigation_without_browser.
    - auto. }
  { intros e s [_ [x Hx]]. discriminate. }
  destruct a as [[b p]|].
  - tbind (@still string st).
    { unfold url_of. apply triple_observe. intros s x [H _]. exact H. }
    { intros e s ->. exact C0. }
    tbind (@holds unit consistent).
    { tleaf. split; simpl; intros; split; discriminate. }
    { auto. }
    tleaf.
  - eapply triple_weaken.
    + apply (getPage_launched_spec url st C0).
    + intros s [H _]. exact H.
    + auto.
    + auto.
Qed.

(** [closeSession] keeps the session consistent. *)
Lemma closeSession_spec (st0 : SessionState) :
  consistent st0 ->
  triple (fun s => s = st0) (closeSession w) any_call (holds consistent).
Proof.
  intros C0. unfold closeSession.
  apply triple_get_bind. intros st Est. subst st0.
  destruct (isRemote st) eqn:R.
  - tbind (@by_outcome unit (fun _ => True) consistent).
    { destruct (browser st) as [b|].
      - tbind (@still unit st).
        + unfold perform. apply triple_call; [exact I|].
          unfold still. intros; subst; auto.
        + unfold still, by_outcome. intros e s ->. exact C0.
        + tleaf; exact I.
      - tleaf; exact I. }
    { unfold by_outcome, holds. auto. }
    apply triple_modify_state. intros s _.
    split; simpl; [auto | discriminate].
  - tbind (@by_outcome unit (fun s => consistent s /\ isRemote s = false)
                       consistent).
    { destruct (context st).
      - tbind (@still unit st).
        + unfold perform. apply triple_call; [exact I|].
          unfold still. intros; subst; auto.
        + unfold still, by_outcome. intros e s ->. exact C0.
        + tbind (@still unit (set_context None st)); [tleaf | | ].
          * unfold still. intros e s ->. destruct C0 as [C1 C2].
            split; simpl; [exact C1 | congruence].
          * tleaf. destruct C0 as [C1 C2]. simpl.
            split; [|exact R]. split; simpl; [exact C1 | congruence].
      - tleaf; simpl; auto. }
    { unfold by_outcome, holds. auto. }
    cbv beta delta [by_outcome] iota.
    apply triple_get_bind. intros st1 [C1 R1].
    tbind (@by_outcome unit (fun s => isRemote s = false) consistent).
    { destruct (browser st1) as [b|].
      - tbind (@still unit st1).
        + unfold perform. apply triple_call; [exact I|].
          unfold still. intros; subst; auto.
        + unfold still, by_outcome. intros e s ->. exact C1.
        + tleaf; simpl; exact R1.
      - tleaf; simpl; exact R1. }
    { unfold by_outcome, holds. auto. }
    cbv beta delta [by_outcome] iota.
    tbind (@by_outcome unit
             (fun s => isRemote s = false /\ currentUrl s = None) consistent).
    { apply triple_modify_state. intros s Hs. simpl. auto. }
    { unfold by_outcome, holds. auto. }
    cbv beta delta [by_outcome] iota.
    apply triple_modify_state. intros s [Hr Hu].
    split; simpl; [auto | congruence].
Qed.

Lemma initial_state_consistent : consistent initial_state.
Proof. split; simpl; [auto | discriminate]. Qed.

End SessionFacts.



(** X15.  The converse of the navigation policy, for a session that has
    its browser, context and page and is not remote: a supplied URL that
    differs from the tracked one is navigated to, before anything else. *)
Lemma getPage_navigates_when_allowed
      (w : World) (url : option string) (m : Machine)
      (b : Browser) (c : BrowserContext) (p : Page) (u : string) :
  browser (state m) = Some b ->
  context (state m) = Some c ->
  page (state m) = Some p ->
  isRemote (state m) = false ->
  Js.supplied url = Some u ->
  currentUrl (state m) <> Some u ->
  exists rest,
    calls_between m (snd (getPage w url m)) (PageGoto u 30000 :: rest).
Proof.
  destruct m as [[br cx pg cu ls r] tr]. simpl.
  intros -> -> -> -> Hu Hne.
  assert (N : should_navigate url
                {| browser := Some b; context := Some c; page := Some p;
                   currentUrl := cu; lastSnapshot := ls;
                   isRemote := false |} = Some u).
  { unfold should_navigate. rewrite Hu. simpl.
    destruct cu as [x|]; simpl; [|reflexivity].
    destruct (String.eqb u x) eqn:E; [|reflexivity].
    apply String.eqb_eq in E. subst. now elim Hne. }
  unfold getPage, getPage_launched, calls_between, bind, get_state, ret.
  simpl. rewrite N. unfold perform, call, swallow, try_catch, modify_state.
  simpl. destruct (w_exec w (length tr) (PageGoto u 30000)) as [[]|e].
  - rewrite length_snoc.
    destruct (w_exec w (S (length tr)) (WaitForLoadState "networkidle" 3000))
      as [[]|e]; simpl; eexists; rewrite <- app_assoc; reflexivity.
  - simpl. exists []. reflexivity.
Qed.

(** The policy at work: a launched session navigates to a new URL, does not
    navigate again to the URL it tracks, and a session attached to a remote
    browser does not navigate to a new URL. *)
Example getPage_navigates_once :
  let url := Some "http://localhost:5173/" in
  let m1 := snd (getPage calm_world url initial_machine) in
  let m2 := snd (getPage calm_world url m1) in
  trace m1 = [Launch true 0; BrowserNewContext; ContextNewPage; PageRoute;
              PageGoto "http://localhost:5173/" 30000;
              WaitForLoadState "networkidle" 3000] /\
  trace m2 = trace m1.
Proof. split; reflexivity. Qed.

Example getPage_remote_does_not_navigate :
  let w := cdp_world ["http://localhost:3000/app"] in
  let m1 := snd (getPage w None initial_machine) in
  let m2 := snd (getPage w (Some "http://localhost:5173/") m1) in
  isRemote (state m1) = true /\
  trace m1 = [ConnectOverCDP 9222 (Some 2000%Z)] /\
  trace m2 = trace m1 /\
  currentUrl (state m2) = Some "http://localhost:3000/app".
Proof. repeat split; reflexivity. Qed.

(** The first acquisition with [USE_CDP=1]: no tab of the running browser
    matches the supplied URL, and its first usable tab is navigated. *)
Example getPage_attach_navigates_first_tab :
  let w := cdp_world ["about:blank"; "http://localhost:3000/app"] in
  let m1 := snd (getPage w (Some "http://localhost:5173/") initial_machine) in
  isRemote (state m1) = true /\
  page (state m1) = Some (CdpPage 9222 1) /\
  trace m1 = [ConnectOverCDP 9222 (Some 2000%Z);
              PageGoto "http://localhost:5173/" 30000;
              WaitForLoadState "networkidle" 3000].
Proof. repeat split; reflexivity. Qed.

(** ** Discovery of the active page *)

Lemma triple_call_returned {A : Type} (P : SessionState -> Prop)
      (E : Event -> Prop) (ev : Event) (f : nat -> A)
      (Q : Outcome A -> SessionState -> Prop) :
  E ev -> (forall st a, P st -> Q (Returned a) st) ->
  triple P (call ev (fun t => Returned (f t))) E Q.
Proof.
  intros He H m Hm. exists [ev]. unfold calls_between. simpl. auto.
Qed.

Lemma triple_appends {A : Type} (c : M A) :
  (forall st, exists E Q, triple (fun s => s = st) c E Q) -> appends c.
Proof.
  intros H m. destruct (H (state m)) as (E & Q & Hc).
  destruct (Hc m eq_refl) as (calls & T & _). now exists calls.
Qed.

Lemma starts_with_call {A : Type} (ev : Event) (answer : nat -> Outcome A) :
  starts_with ev (call ev answer).
Proof. intros m. exists []. reflexivity. Qed.

Lemma starts_with_bind {A B : Type} (ev : Event) (c : M A) (k : A -> M B) :
  starts_with ev c -> (forall a, appends (k a)) -> starts_with ev (bind c k).
Proof.
  intros Hc Hk m. destruct (Hc m) as (rest & T).
  unfold bind, calls_between in *. destruct (c m) as [[a|e] m1]; simpl in *.
  - destruct (Hk a m1) as (calls & T2). unfold calls_between in T2.
    exists (rest ++ calls)%list. rewrite T2, T, <- app_assoc. reflexivity.
  - now exists rest.
Qed.

Lemma starts_with_try_catch {A : Type} (ev : Event) (c : M A)
      (h : JsError -> M A) :
  starts_with ev c -> (forall e, appends (h e)) ->
  starts_with ev (try_catch c h).
Proof.
  intros Hc Hh m. destruct (Hc m) as (rest & T).
  unfold try_catch, calls_between in *.
  destruct (c m) as [[a|e] m1]; simpl in *.
  - now exists rest.
  - destruct (Hh e m1) as (calls & T2). unfold calls_between in T2.
    exists (rest ++ calls)%list. rewrite T2, T, <- app_assoc. reflexivity.
Qed.

Lemma appends_ret {A : Type} (a : A) : appends (ret a).
Proof. intros m. exists []. unfold calls_between. simpl. now rewrite app_nil_r. Qed.

Section DetectFacts.

Variable w : World.

Lemma getActiveTabFromCDP_spec (port : Z) (st : SessionState) :
  triple (fun s => s = st) (getActiveTabFromCDP w port) detection_call
         (returns_unchanged st).
Proof.
  unfold getActiveTabFromCDP.
  tcatch (@still (option string) st).
  - tbind (@still (list string) st).
    + apply triple_call; [reflexivity|]. unfold still. now intros; subst.
    + auto.
    + destruct (find usable_page_url a);
        (tbind (@still unit st);
         [ unfold perform; apply triple_call; [reflexivity|];
           unfold still; now intros; subst
         | auto
         | tleaf ]).
  - unfold still, returns_unchanged. intros a s ->. eauto.
  - apply triple_ret. unfold still, returns_unchanged. intros s ->. eauto.
Qed.

Lemma detect_cdp_spec (ports : list Z) (st : SessionState) :
  triple (fun s => s = st) (detect_cdp w ports) detection_call
         (returns_unchanged st).
Proof.
  induction ports as [|port ports IH]; simpl.
  - apply triple_ret. intros s ->. split; eauto.
  - tbind (@returns_unchanged (option string) st).
    + apply getActiveTabFromCDP_spec.
    + intros e s [_ [x Hx]]. discriminate.
    + eapply triple_weaken with (P' := fun s => s = st)
                                (E' := detection_call)
                                (Q' := returns_unchanged st); auto.
      2: { intros s [H _]. auto. }
      destruct (Js.supplied a) as [found|]; [|exact IH].
      apply triple_ret. intros s ->. split; eauto.
Qed.

Lemma probe_ports_spec (ports : list Z) (st : SessionState) :
  triple (fun s => s = st) (probe_ports w ports) detection_call
         (returns_unchanged st).
Proof.
  induction ports as [|port ports IH]; simpl.
  - apply triple_ret. intros s ->. split; eauto.
  - tbind (@returns_unchanged bool st).
    + unfold isPortOpen. apply triple_call_returned; [reflexivity|].
      intros s a ->. split; eauto.
    + intros e s [_ [x Hx]]. discriminate.
    + tbind (@returns_unchanged (list (Z * bool)) st).
      * eapply triple_weaken; [exact IH | | auto | auto].
        intros s [H _]. exact H.
      * intros e s [_ [x Hx]]. discriminate.
      * apply triple_ret. intros s [-> _]. split; eauto.
Qed.

Lemma isValidPage_spec (url : string) (st : SessionState) :
  triple (fun s => s = st) (isValidPage w url) detection_call
         (returns_unchanged st).
Proof.
  unfold isValidPage. tcatch (@still bool st).
  - tbind (@still (bool * option string) st).
    + apply triple_call; [reflexivity|]. unfold still. now intros; subst.
    + auto.
    + tleaf.
  - unfold still, returns_unchanged. intros a s ->. eauto.
  - apply triple_ret. unfold still, returns_unchanged. intros s ->. eauto.
Qed.

Lemma detect_devserver_spec (checks : list (Z * bool)) (st : SessionState) :
  triple (fun s => s = st) (detect_devserver w checks) detection_call
         (returns_unchanged st).
Proof.
  induction checks as [|[port open] checks IH]; simpl.
  - apply triple_ret. intros s ->. split; eauto.
  - destruct open; [|exact IH].
    tbind (@returns_unchanged bool st).
    + apply isValidPage_spec.
    + intros e s [_ [x Hx]]. discriminate.
    + eapply triple_weaken with (P' := fun s => s = st)
                                (E' := detection_call)
                                (Q' := returns_unchanged st); auto.
      2: { intros s [H _]. auto. }
      destruct a; [|exact IH].
      apply triple_ret. intros s ->. split; eauto.
Qed.

(** [detectActivePage] returns in every world, leaves the session as it
    was, and only makes calls of the detection. *)
Lemma detectActivePage_spec (st : SessionState) :
  triple (fun s => s = st) (detectActivePage w) detection_call
         (returns_unchanged st).
Proof.
  unfold detectActivePage.
  tbind (@returns_unchanged (option DetectedPage) st).
  - apply detect_cdp_spec.
  - intros e s [_ [x Hx]]. discriminate.
  - destruct a as [d|].
    + apply triple_ret. intros s [-> _]. split; eauto.
    + tbind (@returns_unchanged (list (Z * bool)) st).
      * eapply triple_weaken; [apply (probe_ports_spec DEV_PORTS st) | | auto | auto].
        intros s [H _]. exact H.
      * intros e s [_ [x Hx]]. discriminate.
      * tbind (@returns_unchanged (option DetectedPage) st).
        -- eapply triple_weaken;
             [apply (detect_devserver_spec a st) | | auto | auto].
           intros s [H _]. exact H.
        -- intros e s [_ [x Hx]]. discriminate.
        -- destruct a0; apply triple_ret; intros s [-> _]; split; eauto.
Qed.

(** The detection starts by trying to connect to the browser on the first
    debugging port. *)
Lemma detectActivePage_starts_with_connection :
  starts_with (ConnectOverCDP 9222 None) (detectActivePage w).
Proof.
  unfold detectActivePage. apply starts_with_bind.
  - unfold CDP_PORTS. cbn [detect_cdp]. apply starts_with_bind.
    + unfold getActiveTabFromCDP. apply starts_with_try_catch.
      * apply starts_with_bind; [apply starts_with_call|].
        intros urls. apply triple_appends. intros st.
        exists any_call, (fun _ _ => True).
        destruct (find usable_page_url urls);
          (tbind (@still unit st);
           [ unfold perform; apply triple_call; [exact I|];
             unfold still; now intros; subst
           | auto
           | apply triple_ret; auto ]).
      * intros e. apply appends_ret.
    + intros found. destruct (Js.supplied found); [apply appends_ret|].
      apply triple_appends. intros st. eexists. eexists.
      apply (detect_cdp_spec [9229%Z] st).
  - intros [d|]; [apply appends_ret|].
    apply triple_appends. intros st.
    exists detection_call, (fun _ _ => True).
    tbind (@returns_unchanged (list (Z * bool)) st).
    + apply probe_ports_spec.
    + auto.
    + tbind (@returns_unchanged (option DetectedPage) st).
      * eapply triple_weaken;
          [apply (detect_devserver_spec a st) | | auto | auto].
        intros s [H _]. exact H.
      * auto.
      * destruct a0; apply triple_ret; auto.
Qed.

End DetectFacts.

(** ** Tool-invocation boundary *)

Lemma or_else_unsupplied (o : option string) (d : string) :
  Js.supplied o = None -> Js.or_else o d = d.
Proof.
  destruct o as [s|]; simpl; [|reflexivity].
  destruct (Js.truthy s); [discriminate | reflexivity].
Qed.

(** [resolveUrl] returns in every world and leaves the session as it was;
    with a URL supplied it makes no call, without one it makes the calls of
    the detection, the first of which is a connection to a browser. *)
Lemma resolveUrl_spec (w : World) (url : option string) (m : Machine) :
  exists resolved calls,
    resolveUrl w url m
    = (Returned resolved,
       {| state := state m; trace := (trace m ++ calls)%list |}) /\
    Forall detection_call calls /\
    (Js.supplied url <> None -> calls = []) /\
    (Js.supplied url = None ->
     exists rest, calls = ConnectOverCDP 9222 None :: rest).
Proof.
  unfold resolveUrl. destruct (Js.supplied url) as [u|] eqn:Hu.
  - eexists. exists []. unfold ret. rewrite app_nil_r. destruct m.
    repeat split; auto. intros; discriminate.
  - destruct (detectActivePage_spec w (state m) m eq_refl)
      as (calls & T & F & Hst & d & Hd).
    destruct (detectActivePage_starts_with_connection w m) as (rest & T').
    unfold bind, calls_between in *.
    destruct (detectActivePage w m) as [o m1]. simpl in *. subst o.
    eexists. exists calls. split.
    + unfold ret. destruct m1 as [st1 tr1]. simpl in *. now subst.
    + split; [exact F|]. split; [intros H; now elim H|].
      intros _. exists rest. rewrite T in T'.
      now apply app_inv_head in T'.
Qed.

Lemma dispatch_missing (w : World) (request : ToolRequest)
      (url urlInfo response : string) :
  MissingParameter request response ->
  dispatch w request url urlInfo = ret response.
Proof.
  intros H. unfold dispatch.
  destruct H as [Ha Ht | Ha Ht | Ha Ht | Ha Ht | Ha Ht];
    rewrite Ha; cbn [is_action Js.eqb_opt]; simpl String.eqb; cbv iota.
  - now rewrite Ht.
  - destruct Ht as [Ht|Ht]; rewrite Ht; [reflexivity|].
    now destruct (Js.supplied (arg request a_target)).
  - destruct Ht as [Ht|Ht]; rewrite Ht; [reflexivity|].
    now destruct (Js.supplied (arg request a_target)).
  - now rewrite Ht.
  - now rewrite Ht.
Qed.

(** C2, amended.  For a recognized action that lacks a required parameter
    the dispatcher returns the validation response of that action and leaves
    the session untouched: no page is acquired and no interaction is
    attempted.  When a url argument is supplied no call at all is made
    before the response.  When none is supplied the URL auto-detection runs
    first: all calls made are calls of the detection, and the first of them
    is an attempt to connect to a browser on the debugging port 9222. *)
Theorem handle_missing_parameter
        (w : World) (request : ToolRequest) (m : Machine) (response : string) :
  name request = "websight" ->
  MissingParameter request response ->
  exists calls,
    handle w request m
    = (Returned response,
       {| state := state m; trace := (trace m ++ calls)%list |}) /\
    Forall detection_call calls /\
    (Js.supplied (arg request a_url) <> None -> calls = []) /\
    (Js.supplied (arg request a_url) = None ->
     exists rest, calls = ConnectOverCDP 9222 None :: rest).
Proof.
  intros Hname Hmiss.
  destruct (resolveUrl_spec w (arg request a_url) m)
    as (resolved & calls & Hr & F & Hsome & Hnone).
  exists calls. split; [|auto].
  unfold handle. rewrite Hname. simpl String.eqb. cbv iota.
  unfold try_catch.
  rewrite (bind_returned _ _ m _ resolved Hr).
  now rewrite (dispatch_missing w request _ _ response Hmiss).
Qed.

Lemma handle_missing_parameter_witness :
  name (request_of "click" (Some "http://localhost:5173/") None) = "websight"
  /\
  MissingParameter (request_of "click" (Some "http://localhost:5173/") None)
                   missing_click /\
  exists calls,
    handle calm_world (request_of "click" (Some "http://localhost:5173/") None)
           initial_machine
    = (Returned missing_click,
       {| state := state initial_machine;
          trace := (trace initial_machine ++ calls)%list |}) /\
    Forall detection_call calls /\
    (Js.supplied (arg (request_of "click" (Some "http://localhost:5173/") None)
                      a_url) <> None -> calls = []) /\
    (Js.supplied (arg (request_of "click" (Some "http://localhost:5173/") None)
                      a_url) = None ->
     exists rest, calls = ConnectOverCDP 9222 None :: rest).
Proof.
  assert (Hm : MissingParameter
                 (request_of "click" (Some "http://localhost:5173/") None)
                 missing_click).
  { apply missing_click_target; reflexivity. }
  split; [reflexivity|]. split; [exact Hm|].
  apply (handle_missing_parameter calm_world
           (request_of "click" (Some "http://localhost:5173/") None)
           initial_machine missing_click eq_refl Hm).
Defined.

(** C2 as stated fails when no url argument is supplied: a [click] without
    target and without url is answered by the validation response only after
    the dispatcher has tried to connect to a browser on the debugging ports
    9222 and 9229. *)
Lemma handle_missing_target_connects_first :
  MissingParameter (request_of "click" None None) missing_click /\
  fst (handle calm_world (request_of "click" None None) initial_machine)
  = Returned missing_click /\
  firstn 2 (trace (snd (handle calm_world (request_of "click" None None)
                               initial_machine)))
  = [ConnectOverCDP 9222 None; ConnectOverCDP 9229 None] /\
  existsb is_browser_call
          (trace (snd (handle calm_world (request_of "click" None None)
                              initial_machine))) = true.
Proof.
  split; [apply missing_click_target; reflexivity|].
  repeat split; reflexivity.
Qed.

(** What [scroll] returns once the page is acquired: a success or a failure
    whose message starts as the source writes it; the scroll step has been
    run in either case. *)
Lemma scroll_after_getPage (w : World) (direction : string)
      (url : option string) (m mp : Machine) (p : Page) :
  getPage w url m = (Returned p, mp) ->
  exists result,
    scroll w direction url m
    = (Returned result, snd (scroll_step w direction mp)) /\
    action result = "scroll" /\ target result = direction /\
    ((success result = true /\ message result = "Scrolled " ++ direction) \/
     (success result = false /\
      exists e, message result
                = "Failed to scroll " ++ direction ++ ": "
                    ++ error_message_or_unknown e)).
Proof.
  intros Hp. unfold scroll, bind at 1, date_now, observe. cbv iota beta.
  rewrite (bind_returned _ _ m mp p Hp).
  unfold try_catch, bind.
  destruct (scroll_step w direction mp) as [[u|e] m2]; simpl.
  - eexists. split; [reflexivity|]. simpl. auto.
  - eexists. split; [reflexivity|]. simpl. split; [reflexivity|].
    split; [reflexivity|]. right. split; [reflexivity|]. now exists e.
Qed.

Lemma scroll_when_getPage_raises (w : World) (direction : string)
      (url : option string) (m mp : Machine) (e : JsError) :
  getPage w url m = (Raised e, mp) ->
  scroll w direction url m = (Raised e, mp).
Proof.
  intros Hp. unfold scroll, bind at 1, date_now, observe. cbv iota beta.
  now rewrite (bind_raised _ _ m mp e Hp).
Qed.

Lemma not_validation_ok (msg rest : string) :
  ~ In (MARK_OK ++ " " ++ msg ++ rest) validation_responses.
Proof.
  unfold validation_responses. simpl.
  intros [H|[H|[H|[H|[H|[]]]]]]; discriminate H.
Qed.

Lemma not_validation_failed (rest : string) :
  ~ In (MARK_FAIL ++ " " ++ "Failed to scroll " ++ rest) validation_responses.
Proof.
  unfold validation_responses. simpl.
  intros [H|[H|[H|[H|[H|[]]]]]]; discriminate H.
Qed.

Lemma not_validation_error (rest : string) :
  ~ In (MARK_FAIL ++ " Error: " ++ rest) validation_responses.
Proof.
  unfold validation_responses. simpl.
  intros [H|[H|[H|[H|[H|[]]]]]]; discriminate H.
Qed.

(** C10.  A [scroll] request without a direction is not answered by a
    parameter-validation response: the direction is ['down'], the scroll
    function is called with it, and once the page is acquired the key
    [PageDown] is pressed and the response renders the result of
    [scroll('down')]. *)
Theorem handle_scroll_without_direction
        (w : World) (request : ToolRequest) (m : Machine) :
  name request = "websight" ->
  arg request a_action = Some "scroll" ->
  Js.supplied (arg request a_direction) = None ->
  exists resolved m1 text m2,
    resolveUrl w (arg request a_url) m = (Returned resolved, m1) /\
    handle w request m = (Returned text, m2) /\
    ~ In text validation_responses /\
    forall p mp,
      getPage w (Some (ru_url resolved)) m1 = (Returned p, mp) ->
      exists result,
        scroll w "down" (Some (ru_url resolved)) m1 = (Returned result, m2) /\
        text = render result /\
        action result = "scroll" /\
        target result = "down" /\
        calls_between mp m2 [KeyboardPress "PageDown"].
Proof.
  intros Hname Ha Hd.
  destruct (resolveUrl_spec w (arg request a_url) m)
    as (resolved & calls & Hr & _).
  set (m1 := {| state := state m; trace := (trace m ++ calls)%list |}) in *.
  exists resolved, m1.
  assert (Hh : handle w request m
               = try_catch
                   (bind (scroll w "down" (Some (ru_url resolved)))
                         (fun result => ret (render result)))
                   (fun error =>
                      ret (MARK_FAIL ++ " Error: "
                             ++ error_message_or_string error)) m1).
  { unfold handle. rewrite Hname. simpl String.eqb. cbv iota.
    unfold try_catch. rewrite (bind_returned _ _ m m1 resolved Hr).
    unfold dispatch. rewrite Ha. cbn [is_action Js.eqb_opt].
    simpl String.eqb. cbv iota.
    now rewrite (or_else_unsupplied _ "down" Hd). }
  destruct (getPage w (Some (ru_url resolved)) m1) as [[p|e] mp] eqn:Hp.
  - destruct (scroll_after_getPage w "down" _ m1 mp p Hp)
      as (result & Hs & Hact & Htgt & Hmsg).
    exists (render result), (snd (scroll_step w "down" mp)).
    split; [exact Hr|]. split.
    { rewrite Hh. unfold try_catch.
      now rewrite (bind_returned _ _ m1 _ result Hs). }
    split.
    { unfold render. destruct Hmsg as [[-> ->]|[-> [e ->]]].
      - apply not_validation_ok.
      - apply not_validation_failed. }
    intros p' mp' E. injection E as <- <-.
    exists result. repeat split; auto.
  - exists (MARK_FAIL ++ " Error: " ++ error_message_or_string e), mp.
    split; [exact Hr|]. split.
    { rewrite Hh. unfold try_catch.
      now rewrite (bind_raised _ _ m1 mp e
                     (scroll_when_getPage_raises w "down" _ m1 mp e Hp)). }
    split; [apply not_validation_error|].
    intros p' mp' E. discriminate E.
Qed.

Lemma handle_scroll_without_direction_witness :
  name (request_of "scroll" (Some "http://localhost:5173/") None) = "websight"
  /\
  arg (request_of "scroll" (Some "http://localhost:5173/") None) a_action
  = Some "scroll" /\
  Js.supplied (arg (request_of "scroll" (Some "http://localhost:5173/") None)
                   a_direction) = None /\
  exists resolved m1 text m2,
    resolveUrl calm_world
      (arg (request_of "scroll" (Some "http://localhost:5173/") None) a_url)
      initial_machine = (Returned resolved, m1) /\
    handle calm_world (request_of "scroll" (Some "http://localhost:5173/") None)
           initial_machine = (Returned text, m2) /\
    ~ In text validation_responses /\
    forall p mp,
      getPage calm_world (Some (ru_url resolved)) m1 = (Returned p, mp) ->
      exists result,
        scroll calm_world "down" (Some (ru_url resolved)) m1
        = (Returned result, m2) /\
        text = render result /\
        action result = "scroll" /\
        target result = "down" /\
        calls_between mp m2 [KeyboardPress "PageDown"].
Proof.
  split; [reflexivity|]. split; [reflexivity|]. split; [reflexivity|].
  apply (handle_scroll_without_direction calm_world
           (request_of "scroll" (Some "http://localhost:5173/") None)
           initial_machine eq_refl eq_refl eq_refl).
Defined.

(** The response of the example: the scroll was made and took the time of
    seven calls. *)
Example handle_scroll_example :
  handle calm_world (request_of "scroll" (Some "http://localhost:5173/") None)
         initial_machine
  = (Returned (MARK_OK ++ " Scrolled down (7ms)"),
     {| state := {| browser := Some (LaunchedBrowser true 0);
                    context := Some LaunchedContext;
                    page := Some LaunchedPage;
                    currentUrl := Some "http://localhost:5173/";
                    lastSnapshot := None; isRemote := false |};
        trace := [Launch true 0; BrowserNewContext; ContextNewPage; PageRoute;
                  PageGoto "http://localhost:5173/" 30000;
                  WaitForLoadState "networkidle" 3000;
                  KeyboardPress "PageDown"] |}).
Proof. reflexivity. Qed.

(** ** Interaction executor *)

Lemma append_assoc (a b c : string) : (a ++ b) ++ c = a ++ b ++ c.
Proof. induction a as [|x a IH]; simpl; [reflexivity | now rewrite IH]. Qed.

Lemma prefix_refl (s : string) : String.prefix s s = true.
Proof.
  induction s as [|c s IH]; simpl; [reflexivity|].
  destruct (ascii_dec c c) as [_|ne]; [exact IH | now elim ne].
Qed.

Lemma includes_refl (s : string) : Js.includes s s = true.
Proof. apply includes_of_prefix, prefix_refl. Qed.

Lemma includes_app_l (a b sub : string) :
  Js.includes a sub = true -> Js.includes (a ++ b) sub = true.
Proof.
  intros H. apply includes_split in H as (x & y & ->).
  rewrite !append_assoc. apply includes_append.
Qed.

Lemma includes_app_r (a b sub : string) :
  Js.includes b sub = true -> Js.includes (a ++ b) sub = true.
Proof.
  intros H. apply includes_split in H as (x & y & ->).
  rewrite <- append_assoc. apply includes_append.
Qed.

(** A part of a message built by concatenation is included in it. *)
Ltac find_part :=
  first [ apply includes_refl
        | apply includes_app_l; find_part
        | apply includes_app_r; find_part ].

(** Case analysis on the answer of the world to the next call of the
    program under execution. *)
Ltac split_world :=
  match goal with
  | |- context [match w_exec ?w ?t ?ev with _ => _ end] =>
      destruct (w_exec w t ev) as [[]|?] eqn:?
  | |- context [match w_inputValue ?w ?t ?s with _ => _ end] =>
      destruct (w_inputValue w t s) eqn:?
  | |- context [match w_textContent ?w ?t ?s with _ => _ end] =>
      destruct (w_textContent w t s) eqn:?
  | |- context [match w_isVisible ?w ?t ?s with _ => _ end] =>
      destruct (w_isVisible w t s) as [[]|?] eqn:?
  | |- context [match w_isEnabled ?w ?t ?s with _ => _ end] =>
      destruct (w_isEnabled w t s) as [[]|?] eqn:?
  | |- context [match w_getAttribute ?w ?t ?s ?a with _ => _ end] =>
      destruct (w_getAttribute w t s a) as [[]|?] eqn:?
  | |- context [match w_captureScreenshot ?w ?t with _ => _ end] =>
      destruct (w_captureScreenshot w t) eqn:?
  | |- context [if String.eqb ?a ?b then _ else _] =>
      destruct (String.eqb a b) eqn:?
  | |- context [if ?c && negb (isRemote ?s) then _ else _] =>
      destruct (c && negb (isRemote s)) eqn:?
  end.

(** C1, amended.  A fault raised while the page is acquired (launch,
    creation of the context or of the page, navigation) is not caught: the
    interaction raises it to its caller.  Once the page is acquired, every
    interaction returns a result and raises nothing; the result carries the
    name of the action and, as its target, what the action operates on.  When
    the operation itself faults (for [getValue]: when both the read of the
    form-control value and the read of the text content fault), the result
    has [success = false]; its message names what the caller named, except
    for [screenshot], and carries the text of the fault, except for
    [waitFor], which reports the time waited. *)
Theorem interact_reports_operation_fault
        (w : World) (i : Interaction) (m : Machine) :
  match getPage w (url_of_call i) m with
  | (Raised e, mp) => interact w i m = (Raised e, mp)
  | (Returned _, mp) =>
      exists result m',
        interact w i m = (Returned result, m') /\
        action result = kind i /\
        target result
        = resolved (w_toLowerCase w) i (lastSnapshot (state mp)) /\
        forall e,
          operation_fault w i (state mp) (length (trace mp)) = Some e ->
          success result = false /\
          (message_names_target i = true ->
           Js.includes (message result) (named i) = true) /\
          (message_carries_fault i = true ->
           Js.includes (message result) (error_message_or_unknown e) = true)
  end.
Proof.
  destruct i as [tg u|tg tx u|tg v u|tg u|k u|tg u ms|d u|tg u|tg u
                |pth u f|tg attr u];
    cbn [interact url_of_call];
    unfold click, type, select, hover, press, waitFor, scroll, scroll_step,
           getValue, isVisible, screenshot, getAttribute, operation_fault;
    cbn [resolved first_fault];
    cbv beta iota delta [bind date_now observe];
    (destruct (getPage w u m) as [[p|e] mp]; [|reflexivity]);
    crunch; repeat (split_world; crunch);
    try solve [exfalso; congruence];
    (eexists; eexists; split; [reflexivity|]);
    cbn [plain_result action target success message kind named fault_of
         message_names_target message_carries_fault];
    (split; [reflexivity|]); (split; [reflexivity|]);
    intros err Hf; try discriminate Hf;
    injection Hf as <-;
    (split; [reflexivity|]);
    (split; intros Hm; try discriminate Hm);
    repeat match goal with
           | H : Raised _ = Raised _ |- _ => injection H as <-
           end;
    unfold Js.quoted; find_part.
Qed.

(** A click whose target never appears: the result is a failure that names
    the target and carries the fault. *)
Example click_on_missing_target :
  fst (click (world_of click_fails 0) "btn-save"
             (Some "http://localhost:5173/") initial_machine)
  = Returned
      (plain_result false "click"
         ("[data-testid=" ++ Js.dq ++ "btn-save" ++ Js.dq ++ "]")
         ("Failed to click " ++ Js.quoted "btn-save"
            ++ ": Timeout 5000ms exceeded.") 7).
Proof. reflexivity. Qed.

(** C1 as stated fails.  (1) When the navigation of the page acquisition
    times out, [click] raises the fault to its caller.  (2) The failure
    message of [waitFor] does not carry the fault.  (3) The failure message
    of [screenshot] does not name its target.  (4) [getValue] reports a
    success although the read of the form-control value faulted. *)
Lemma interactions_against_the_claim :
  fst (click (world_of is_navigation 0) "btn-save"
             (Some "http://localhost:5173/") initial_machine)
  = Raised timeout_error /\
  (exists r,
      fst (waitFor (world_of waiting_fails 0) "modal-backdrop" None 5000
                   initial_machine) = Returned r /\
      success r = false /\
      Js.includes (message r) (error_message_or_unknown timeout_error)
      = false) /\
  (exists r,
      fst (screenshot (world_of capture_fails 0) "out/shot.png" None None
                      initial_machine) = Returned r /\
      success r = false /\
      Js.includes (message r) "out/shot.png" = false) /\
  (exists r,
      fst (getValue (world_of value_read_fails 0) "btn-save" None
                    initial_machine) = Returned r /\
      success r = true /\
      w_inputValue (world_of value_read_fails 0) 4
                   ("[data-testid=" ++ Js.dq ++ "btn-save" ++ Js.dq ++ "]")
      = Raised timeout_error).
Proof.
  split; [reflexivity|].
  split; [eexists; split; [reflexivity|]; split; reflexivity|].
  split; [eexists; split; [reflexivity|]; split; reflexivity|].
  eexists; split; [reflexivity|]; split; reflexivity.
Qed.

(** ** The consistency of the session is kept *)

Lemma getPage_consistent (w : World) (url : option string) (m : Machine) :
  consistent (state m) -> consistent (state (snd (getPage w url m))).
Proof.
  intros C. destruct (getPage_spec w url (state m) C m eq_refl)
    as (calls & _ & _ & H). exact H.
Qed.

(** An interaction leaves the session as the page acquisition left it. *)
Lemma interact_session (w : World) (i : Interaction) (m : Machine) :
  state (snd (interact w i m)) = state (snd (getPage w (url_of_call i) m)).
Proof.
  destruct i as [tg u|tg tx u|tg v u|tg u|k u|tg u ms|d u|tg u|tg u
                |pth u f|tg attr u];
    cbn [interact url_of_call];
    unfold click, type, select, hover, press, waitFor, scroll, scroll_step,
           getValue, isVisible, screenshot, getAttribute;
    cbv beta iota delta [bind date_now observe];
    (destruct (getPage w u m) as [[p|e] mp]; [|reflexivity]);
    crunch; repeat (split_world; crunch); reflexivity.
Qed.

Lemma interact_consistent (w : World) (i : Interaction) (m : Machine) :
  consistent (state m) -> consistent (state (snd (interact w i m))).
Proof.
  intros C. rewrite interact_session. now apply getPage_consistent.
Qed.

Lemma consistent_set_lastSnapshot (st : SessionState)
      (x : option PageSnapshot.t) :
  consistent st -> consistent (set_lastSnapshot x st).
Proof. intros [C1 C2]. split; simpl; auto. Qed.

Ltac keep_consistent :=
  first
    [ apply triple_call; [exact I | unfold holds; auto]
    | apply triple_call_returned; [exact I | unfold holds; auto]
    | apply triple_observe; unfold holds; auto
    | apply triple_ret; unfold holds; auto ].

Lemma analyze_spec (w : World) (url out : string) (st0 : SessionState) :
  consistent st0 ->
  triple (fun s => s = st0) (analyze w url out) any_call (holds consistent).
Proof.
  intros C0. unfold analyze.
  tbind (@holds Page consistent).
  { eapply triple_weaken; [apply (getPage_spec w (Some url) st0 C0) | | | ];
      auto. intros; exact I. }
  { auto. }
  tbind (@holds Extracted consistent); [keep_consistent | auto | ].
  tbind (@holds string consistent); [keep_consistent | auto | ].
  tbind (@holds bool consistent);
    [unfold existsSync; keep_consistent | auto | ].
  tbind (@holds unit consistent);
    [destruct (negb a2); unfold perform; keep_consistent | auto | ].
  tbind (@holds unit consistent).
  { tcatch (@holds unit consistent);
      [unfold perform; keep_consistent | auto | keep_consistent]. }
  { auto. }
  tbind (@holds string consistent); [keep_consistent | auto | ].
  tbind (@holds unit consistent).
  { apply triple_modify_state. unfold holds. intros.
    now apply consistent_set_lastSnapshot. }
  { auto. }
  tbind (@holds unit consistent); [unfold perform; keep_consistent | auto | ].
  tbind (@holds unit consistent); [unfold perform; keep_consistent | auto | ].
  keep_consistent.
Qed.

(* ================================================================== *)
(** * Further properties of the code *)
(* ================================================================== *)

(** ** Locator hints and the target resolver *)

Lemma computeLocator_has_selector_syntax (a : RawAction) :
  HasSelectorSyntax (LocatorHint.value (computeLocator a)).
Proof.
  unfold computeLocator, HasSelectorSyntax.
  destruct (Js.supplied (raw_testId a)) as [t|].
  - left. eexists. reflexivity.
  - destruct (Js.supplied (raw_id a)) as [i|].
    + right; left. eexists. reflexivity.
    + right; right; right. exists "role". eexists. reflexivity.
Qed.

Lemma Matches_action_matches (lower : string -> string) (target : string)
      (a : Action.t) :
  Matches lower target a -> action_matches lower target a = true.
Proof.
  unfold action_matches, Matches. intros [H|[Ht Hv]].
  - rewrite H. reflexivity.
  - rewrite Ht, Hv. apply orb_true_r.
Qed.

Lemma find_first_match (lower : string -> string) (target : string)
      (front back : list Action.t) (a : Action.t) :
  (forall b, In b front -> ~ Matches lower target b) ->
  Matches lower target a ->
  find (action_matches lower target) (front ++ a :: back) = Some a.
Proof.
  intros Hfront Ha. induction front as [|b front IH]; simpl.
  - now rewrite (Matches_action_matches _ _ _ Ha).
  - destruct (action_matches lower target b) eqn:E.
    + exfalso. apply (Hfront b); [now left|].
      now apply action_matches_Matches.
    + apply IH. intros c Hc. apply Hfront. now right.
Qed.

Lemma includes_empty (s : string) : Js.includes s "" = true.
Proof. destruct s; reflexivity. Qed.

Lemma findSelector_has_selector_syntax
      (lower : string -> string) (target : string)
      (snapshot : option PageSnapshot.t) :
  FromExtractor snapshot ->
  HasSelectorSyntax (findSelector lower target snapshot).
Proof.
  intros Hs. unfold findSelector.
  destruct (looks_like_selector target) eqn:L.
  - now apply looks_like_selector_iff.
  - assert (Hfound :
      forall m, match snapshot with
                | Some s => find (action_matches lower target)
                                 (PageSnapshot.actions s)
                | None => None
                end = Some m ->
                HasSelectorSyntax (LocatorHint.value (Action.locator m))).
    { intros m Hm. destruct snapshot as [s|]; [|discriminate].
      destruct Hs as (vp & raws & Hs). rewrite Hs in Hm.
      apply find_some in Hm as [Hin _].
      unfold actions_of_raw in Hin. apply in_map_iff in Hin as (r & <- & _).
      apply computeLocator_has_selector_syntax. }
    destruct (match snapshot with Some s => _ | None => None end) as [m|].
    + now apply Hfound.
    + destruct (Js.test_word_hyphen target).
      * left. eexists. reflexivity.
      * right; right; right. exists "text", target. reflexivity.
Qed.

(** X1.  The locator that [computeLocator] gives to an element has selector
    syntax, whatever the test id, the id, the role and the name of the
    element are, so the resolver hands it back unchanged: the locator value
    of a snapshot entry can be passed as a target, with any snapshot cached
    or none, and is not wrapped a second time. *)
Theorem computeLocator_is_a_stable_target
        (lower : string -> string) (a : RawAction)
        (snapshot : option PageSnapshot.t) :
  HasSelectorSyntax (LocatorHint.value (computeLocator a)) /\
  findSelector lower (LocatorHint.value (computeLocator a)) snapshot
  = LocatorHint.value (computeLocator a).
Proof.
  pose proof (computeLocator_has_selector_syntax a) as H.
  split; [exact H|].
  apply looks_like_selector_iff in H.
  unfold findSelector. now rewrite H.
Qed.

(** X2.  Over a snapshot produced by the extractor (or without a snapshot)
    the resolver always answers with a string that has selector syntax, and
    resolving its answer again, against any snapshot, changes nothing. *)
Theorem findSelector_idempotent
        (lower : string -> string) (target : string)
        (snapshot later : option PageSnapshot.t) :
  FromExtractor snapshot ->
  HasSelectorSyntax (findSelector lower target snapshot) /\
  findSelector lower (findSelector lower target snapshot) later
  = findSelector lower target snapshot.
Proof.
  intros Hs.
  pose proof (findSelector_has_selector_syntax lower target snapshot Hs) as H.
  split; [exact H|].
  apply looks_like_selector_iff in H.
  unfold findSelector at 1. now rewrite H.
Qed.

Lemma findSelector_idempotent_witness :
  FromExtractor (Some (snapshot_of empty_theme
                         (actions_of_raw viewport [raw_save_button]))) /\
  HasSelectorSyntax
    (findSelector Js.toLowerCase "save"
       (Some (snapshot_of empty_theme
                (actions_of_raw viewport [raw_save_button])))) /\
  findSelector Js.toLowerCase
    (findSelector Js.toLowerCase "save"
       (Some (snapshot_of empty_theme
                (actions_of_raw viewport [raw_save_button])))) None
  = findSelector Js.toLowerCase "save"
      (Some (snapshot_of empty_theme
               (actions_of_raw viewport [raw_save_button]))).
Proof.
  assert (H : FromExtractor
                (Some (snapshot_of empty_theme
                         (actions_of_raw viewport [raw_save_button])))).
  { exists viewport, [raw_save_button]. reflexivity. }
  split; [exact H|].
  apply (findSelector_idempotent Js.toLowerCase "save"
           (Some (snapshot_of empty_theme
                    (actions_of_raw viewport [raw_save_button]))) None H).
Defined.

(** X3.  A target without selector syntax is resolved to the locator of the
    first entry of the action list that it matches: the entries before it
    that do not match are skipped, the entries after it are not
    consulted. *)
Theorem findSelector_returns_first_match
        (lower : string -> string) (target : string) (s : PageSnapshot.t)
        (front back : list Action.t) (a : Action.t) :
  ~ HasSelectorSyntax target ->
  PageSnapshot.actions s = (front ++ a :: back)%list ->
  (forall b, In b front -> ~ Matches lower target b) ->
  Matches lower target a ->
  findSelector lower target (Some s) = LocatorHint.value (Action.locator a).
Proof.
  intros Hsyn Hs Hfront Ha. unfold findSelector.
  destruct (looks_like_selector target) eqn:L.
  - exfalso. apply Hsyn. now apply looks_like_selector_iff.
  - rewrite Hs, (find_first_match lower target front back a Hfront Ha).
    reflexivity.
Qed.

Lemma findSelector_returns_first_match_witness :
  findSelector Js.toLowerCase "SAVE"
    (Some (snapshot_of empty_theme
             (actions_of_raw viewport
                [raw_cancel_link; raw_save_button; raw_save_button])))
  = "[data-testid=" ++ Js.dq ++ "btn-save" ++ Js.dq ++ "]".
Proof.
  apply (findSelector_returns_first_match Js.toLowerCase "SAVE"
           (snapshot_of empty_theme
              (actions_of_raw viewport
                 [raw_cancel_link; raw_save_button; raw_save_button]))
           [action_of_raw viewport raw_cancel_link]
           [action_of_raw viewport raw_save_button]
           (action_of_raw viewport raw_save_button)).
  - intros H. apply looks_like_selector_iff in H. vm_compute in H.
    discriminate.
  - reflexivity.
  - intros b [<-|[]] [H|[H _]]; vm_compute in H; discriminate.
  - left. reflexivity.
Defined.

(** X4.  The empty target matches every entry: it is resolved to the locator
    of the first entry of the action list, and to the bare text query
    [text=] when there is no snapshot or the list is empty. *)
Theorem findSelector_empty_target_takes_first_action
        (lower : string -> string) (snapshot : option PageSnapshot.t) :
  lower "" = "" ->
  findSelector lower "" snapshot
  = match snapshot with
    | Some s =>
        match PageSnapshot.actions s with
        | a :: _ => LocatorHint.value (Action.locator a)
        | [] => "text="
        end
    | None => "text="
    end.
Proof.
  intros Hl. unfold findSelector. cbn [looks_like_selector].
  change (looks_like_selector "") with false. cbv iota.
  destruct snapshot as [s|]; [|reflexivity].
  destruct (PageSnapshot.actions s) as [|a rest]; [reflexivity|].
  cbn [find]. unfold action_matches. rewrite Hl, includes_empty.
  reflexivity.
Qed.

Lemma findSelector_empty_target_takes_first_action_witness :
  findSelector Js.toLowerCase ""
    (Some (snapshot_of empty_theme
             (actions_of_raw viewport [raw_cancel_link; raw_save_button])))
  = "role=link[name=" ++ Js.dq ++ "Cancel" ++ Js.dq ++ "]".
Proof.
  apply (findSelector_empty_target_takes_first_action Js.toLowerCase
           (Some (snapshot_of empty_theme
                    (actions_of_raw viewport
                       [raw_cancel_link; raw_save_button])))).
  reflexivity.
Defined.

(** X5.  For an element of non-negative height and a viewport of positive
    height exactly one of the three fold flags is set: [belowFold] when the
    top edge is at or below the fold, [aboveFold] when the bottom edge is at
    or above the top of the viewport, [inViewport] otherwise; the horizontal
    position plays no part. *)
Theorem computeFoldAwareness_sets_one_flag (bounds : Bounds) (vp : ViewportInfo) :
  (0 <= bh bounds)%Z ->
  (0 < vp_height vp)%Z ->
  (inViewport (computeFoldAwareness bounds vp) = true /\
   belowFold (computeFoldAwareness bounds vp) = false /\
   aboveFold (computeFoldAwareness bounds vp) = false /\
   (by_ bounds < vp_height vp)%Z /\ (0 < by_ bounds + bh bounds)%Z)
  \/
  (inViewport (computeFoldAwareness bounds vp) = false /\
   belowFold (computeFoldAwareness bounds vp) = true /\
   aboveFold (computeFoldAwareness bounds vp) = false /\
   (vp_height vp <= by_ bounds)%Z)
  \/
  (inViewport (computeFoldAwareness bounds vp) = false /\
   belowFold (computeFoldAwareness bounds vp) = false /\
   aboveFold (computeFoldAwareness bounds vp) = true /\
   (by_ bounds + bh bounds <= 0)%Z).
Proof.
  intros Hh Hv. unfold computeFoldAwareness.
  cbn [inViewport belowFold aboveFold].
  destruct (Z.leb_spec (vp_height vp) (by_ bounds));
    destruct (Z.leb_spec (by_ bounds + bh bounds) 0); cbn [negb andb].
  - exfalso. lia.
  - right; left. repeat split; assumption.
  - right; right. repeat split; assumption.
  - left. repeat split; assumption.
Qed.

Lemma computeFoldAwareness_sets_one_flag_witness :
  belowFold (computeFoldAwareness {| bx := 0; by_ := 720; bw := 10; bh := 0 |}
                                  viewport) = true.
Proof.
  destruct (computeFoldAwareness_sets_one_flag
              {| bx := 0; by_ := 720; bw := 10; bh := 0 |} viewport)
    as [(_ & _ & _ & H & _)|[(_ & H & _)|(_ & _ & _ & H)]].
  - cbn. lia.
  - reflexivity.
  - exfalso. revert H. cbn. lia.
  - exact H.
  - exfalso. revert H. cbn. lia.
Defined.

(** X6.  The request filter lets a request through exactly when its URL
    contains none of the seven tracker hosts and its resource type is neither
    [font] nor [media]; every other request is aborted. *)
Theorem route_handler_continues_iff (reqUrl resourceType : string) :
  route_handler reqUrl resourceType = RouteContinue <->
  (forall host, In host BLOCKED_RESOURCES ->
     ~ exists left right, reqUrl = left ++ host ++ right) /\
  resourceType <> "font" /\ resourceType <> "media".
Proof.
  unfold route_handler.
  destruct (existsb (fun blocked => Js.includes reqUrl blocked)
                    BLOCKED_RESOURCES) eqn:Ex.
  - split; [discriminate|]. intros [H _]. exfalso.
    apply existsb_exists in Ex as (host & Hin & Hinc).
    apply (H host Hin). now apply includes_split.
  - assert (Hfree : forall host, In host BLOCKED_RESOURCES ->
                      ~ exists left right, reqUrl = left ++ host ++ right).
    { intros host Hin (l & r & ->).
      assert (T : existsb (fun blocked => Js.includes (l ++ host ++ r) blocked)
                          BLOCKED_RESOURCES = true).
      { apply existsb_exists. exists host. split; [exact Hin|].
        apply includes_append. }
      congruence. }
    destruct (String.eqb resourceType "font") eqn:F; cbn [orb].
    + split; [discriminate|]. intros (_ & H & _).
      apply String.eqb_eq in F. contradiction.
    + destruct (String.eqb resourceType "media") eqn:Md.
      * split; [discriminate|]. intros (_ & _ & H).
        apply String.eqb_eq in Md. contradiction.
      * split; [|reflexivity]. intros _. split; [exact Hfree|].
        split; apply String.eqb_neq; assumption.
Qed.

(** ** Diff engine: what the comparison always gives *)

(** [compareSnapshots] returns in every world; its result is the structural
    comparison, with the image comparison it could make. *)
Lemma compareSnapshots_returns
      (w : World) (b a : PageSnapshot.t) (bp ap : option string) (m : Machine) :
  exists img m',
    compareSnapshots w b a bp ap m = (Returned (structural_diff b a img), m').
Proof.
  unfold compareSnapshots.
  match goal with |- context [bind ?c _ _] =>
    assert (Himg : exists img m', c m = (Returned img, m')) end.
  { destruct (Js.supplied bp); [|unfold ret; eauto].
    destruct (Js.supplied ap); [|unfold ret; eauto].
    unfold bind, existsSync, call. apply compareImages_returns. }
  destruct Himg as (img & m' & Himg).
  exists img, m'. now rewrite (bind_returned _ _ m m' img Himg).
Qed.

Lemma In_not_in (xs ys : list string) (k : string) :
  In k (not_in xs ys) <-> In k ys /\ ~ In k xs.
Proof.
  unfold not_in. rewrite filter_In, negb_true_iff.
  split; intros [H1 H2]; (split; [exact H1|]).
  - intros Hin. apply has_true_iff in Hin. congruence.
  - destruct (has xs k) eqn:E; [|reflexivity].
    apply has_true_iff in E. contradiction.
Qed.

Lemma NoDup_not_in (xs ys : list string) : NoDup ys -> NoDup (not_in xs ys).
Proof. apply NoDup_filter. Qed.

Lemma no_changes_text (l : list string) :
  match l with
  | [] => "No visual changes detected"
  | _ => String.append "Changes: " (Js.join ", " l)
  end = "No visual changes detected" <-> l = [].
Proof.
  destruct l; split; try reflexivity; discriminate.
Qed.

(** X7.  [compareSnapshots] never throws, whatever the files and the image
    decoder do, and its lists of added and removed sections and actions are
    set differences: a key is reported as added exactly when an entry of the
    second snapshot has it and no entry of the first has it, as removed in
    the opposite case, and no key is listed twice.  Sections are compared by
    test id, or by name when there is no test id, actions by name. *)
Theorem compareSnapshots_added_and_removed
        (w : World) (b a : PageSnapshot.t) (bp ap : option string)
        (m : Machine) :
  exists r m',
    compareSnapshots w b a bp ap m = (Returned r, m') /\
    (forall k, In k (sectionsAdded r) <->
       In k (map section_key (PageSnapshot.sections a)) /\
       ~ In k (map section_key (PageSnapshot.sections b))) /\
    (forall k, In k (sectionsRemoved r) <->
       In k (map section_key (PageSnapshot.sections b)) /\
       ~ In k (map section_key (PageSnapshot.sections a))) /\
    (forall k, In k (actionsAdded r) <->
       In k (map Action.name (PageSnapshot.actions a)) /\
       ~ In k (map Action.name (PageSnapshot.actions b))) /\
    (forall k, In k (actionsRemoved r) <->
       In k (map Action.name (PageSnapshot.actions b)) /\
       ~ In k (map Action.name (PageSnapshot.actions a))) /\
    NoDup (sectionsAdded r) /\ NoDup (sectionsRemoved r) /\
    NoDup (actionsAdded r) /\ NoDup (actionsRemoved r).
Proof.
  destruct (compareSnapshots_returns w b a bp ap m) as (img & m' & H).
  exists (structural_diff b a img), m'. split; [exact H|].
  cbn [structural_diff sectionsAdded sectionsRemoved actionsAdded
       actionsRemoved].
  unfold section_set, action_set.
  repeat match goal with
         | |- _ /\ _ => split
         | |- NoDup _ => apply NoDup_not_in, NoDup_set_of
         | |- forall k, _ <-> _ =>
             intros k; rewrite In_not_in, !In_set_of; reflexivity
         end.
Qed.

(** X8.  The summary of a comparison is [No visual changes detected]
    exactly when the lists of theme, CSS variable, section and layout
    changes are all empty and the image comparison, if there is one, is not
    marked significant and reports a percentage of zero or less.  The added
    and removed actions play no part in the summary. *)
Theorem compareSnapshots_quiet_summary_iff
        (w : World) (b a : PageSnapshot.t) (bp ap : option string)
        (m : Machine) :
  exists r m',
    compareSnapshots w b a bp ap m = (Returned r, m') /\
    (summary r = "No visual changes detected" <->
     themeChanges r = [] /\ cssVariableChanges r = [] /\
     sectionsAdded r = [] /\ sectionsRemoved r = [] /\
     layoutChanges r = [] /\
     match imageDiff r with
     | Some d => hasSignificantChange d = false /\ diffPercent d <= 0
     | None => True
     end).
Proof.
  destruct (compareSnapshots_returns w b a bp ap m) as (img & m' & H).
  exists (structural_diff b a img), m'. split; [exact H|].
  cbn [structural_diff summary themeChanges cssVariableChanges sectionsAdded
       sectionsRemoved layoutChanges imageDiff].
  unfold make_summary.
  cbn [themeChanges cssVariableChanges sectionsAdded sectionsRemoved
       layoutChanges imageDiff].
  rewrite no_changes_text.
  destruct (theme_changes (PageSnapshot.theme b) (PageSnapshot.theme a));
    destruct (css_variable_changes (PageSnapshot.theme b)
                                   (PageSnapshot.theme a));
    destruct (not_in (section_set b) (section_set a));
    destruct (not_in (section_set a) (section_set b));
    destruct (radii_changes (PageSnapshot.theme b) (PageSnapshot.theme a));
    destruct img as [d|];
    try destruct (hasSignificantChange d);
    cbn [concat app];
    try (split; [discriminate | intros (?&?&?&?&?&?); try discriminate;
                 intuition discriminate]).
  - destruct (Qle_bool (diffPercent d) 0) eqn:Q.
    + apply Qle_bool_iff in Q. split; [|reflexivity]. intros _.
      repeat split; auto.
    + split; [discriminate|]. intros (_&_&_&_&_&_&Hle).
      apply Qle_bool_iff in Hle. congruence.
  - split; [|reflexivity]. intros _. repeat split.
Qed.

(** ** Diff engine: the reported percentage *)

(** The reported percentage and the significance mark, for [n] differing
    pixels out of [t]. *)
Lemma percentage_bounds (n : Z) (t : positive) :
  (0 <= n <= Z.pos t)%Z -> (Z.pos t < 2 ^ 32)%Z ->
  0 <= round2 (raw_percent n (Z.pos t)) /\
  round2 (raw_percent n (Z.pos t)) <= 100 /\
  (exceeds_threshold (raw_percent n (Z.pos t)) = true ->
   (1 # 2) <= round2 (raw_percent n (Z.pos t))) /\
  ((1 # 2) < round2 (raw_percent n (Z.pos t)) ->
   exceeds_threshold (raw_percent n (Z.pos t)) = true) /\
  (round2 (raw_percent n (Z.pos t)) == 0 <-> (20000 * n < Z.pos t)%Z).
Proof.
  intros Hn Ht.
  destruct (hundredths_facts n t Hn Ht) as (Hk & Hr & Hz).
  cbv zeta in Hk, Hr, Hz.
  rewrite (significance_exact n t Hn Ht). unfold round2.
  set (k := Js.round (Double.mul (raw_percent n (Z.pos t)) 100)) in *.
  clearbody k.
  destruct (hundredth_value k Hr) as (V0 & V100 & Vz & Vge & Vgt).
  pose proof (Pos2Z.is_pos t) as Hp.
  split; [exact V0|]. split; [exact V100|]. split.
  { intros S. apply Vge. nia. }
  split.
  { intros S. apply Vgt in S. nia. }
  rewrite Vz. exact Hz.
Qed.

(** The result of [compareImages] on two decodable images of the same
    dimensions, with the calls it makes. *)
Lemma compareImages_equal_sizes
      (w : World) (a b out : string) (m : Machine) (img1 img2 : PNG) (n : Z) :
  w_existsSync w (length (trace m)) a = true ->
  w_existsSync w (S (length (trace m))) b = true ->
  w_read_png w (S (S (length (trace m)))) a = Returned img1 ->
  w_read_png w (S (S (S (length (trace m))))) b = Returned img2 ->
  width img1 = width img2 ->
  height img1 = height img2 ->
  w_pixelmatch w (data img1) (data img2) (width img1) (height img1)
  = Returned n ->
  w_exec w (S (S (S (S (S (length (trace m)))))))
         (WriteFileSync (w_path_join w out "diff.png")) = Returned tt ->
  exists m',
    compareImages w a b out m
    = (Returned
         (Some {| diffPercent :=
                    round2 (raw_percent n (width img1 * height img1));
                  diffPixels := n;
                  totalPixels := (width img1 * height img1)%Z;
                  diffImagePath := Some (w_path_join w out "diff.png");
                  hasSignificantChange :=
                    exceeds_threshold
                      (raw_percent n (width img1 * height img1)) |}), m') /\
    calls_between m m'
      [ExistsSync a; ExistsSync b; ReadPng a; ReadPng b; Pixelmatch;
       WriteFileSync (w_path_join w out "diff.png")].
Proof.
  intros E1 E2 R1 R2 Hw Hh P Wr.
  assert (Heq : negb (width img1 =? width img2)%Z
                || negb (height img1 =? height img2)%Z = false).
  { rewrite <- Hw, <- Hh, !Z.eqb_refl. reflexivity. }
  clear Hw Hh.
  eexists. unfold compareImages. run.
  split; [reflexivity|].
  unfold calls_between. cbn [trace]. rewrite <- !app_assoc. reflexivity.
Qed.

(** X9.  When one of the two image files is missing or cannot be decoded,
    [compareImages] returns no image comparison and throws nothing; it only
    probes and reads the two files, so [pixelmatch] is not run and no
    visualization image is written. *)
Theorem compareImages_unavailable_image
        (w : World) (a b out : string) (m : Machine) :
  image_unavailable w (length (trace m)) a b ->
  exists m' calls,
    compareImages w a b out m = (Returned None, m') /\
    calls_between m m' calls /\
    Forall reads_image calls /\
    state m' = state m.
Proof.
  intros H. unfold compareImages, calls_between. crunch.
  destruct (w_existsSync w (length (trace m)) a) eqn:E1; crunch.
  2: { eexists. exists [ExistsSync a]. repeat split. repeat constructor. }
  destruct (w_existsSync w (S (length (trace m))) b) eqn:E2; crunch.
  2: { eexists. exists [ExistsSync a; ExistsSync b].
       rewrite <- app_assoc. repeat split. repeat constructor. }
  destruct H as [H|[H|[[e H]|[e H]]]]; try congruence.
  - eexists. exists [ExistsSync a; ExistsSync b; ReadPng a].
    rewrite H. crunch. rewrite <- !app_assoc.
    repeat split. repeat constructor.
  - destruct (w_read_png w (S (S (length (trace m)))) a) as [img1|e1];
      crunch.
    + eexists. exists [ExistsSync a; ExistsSync b; ReadPng a; ReadPng b].
      rewrite H. crunch. rewrite <- !app_assoc.
      repeat split. repeat constructor.
    + eexists. exists [ExistsSync a; ExistsSync b; ReadPng a].
      rewrite <- !app_assoc. repeat split. repeat constructor.
Qed.

Lemma compareImages_unavailable_image_witness :
  exists m' calls,
    compareImages no_baseline_image_world "out/page-before.png"
                  "out/page.png" "out" initial_machine
    = (Returned None, m') /\
    calls_between initial_machine m' calls /\
    Forall reads_image calls /\
    state m' = state initial_machine.
Proof.
  apply (compareImages_unavailable_image no_baseline_image_world
           "out/page-before.png" "out/page.png" "out" initial_machine).
  left. reflexivity.
Defined.

(** X10.  For two screenshots of the same dimensions, of fewer than [2^32]
    pixels, on which [pixelmatch] counts [n] differing pixels out of
    [total], with [0 <= n <= total], the reported percentage lies between 0
    and 100; a result marked significant reports 0.5 at least, and a result
    that reports more than 0.5 is marked significant.  The reported
    percentage is 0 exactly when fewer than one pixel in 20000 differs:
    differences below 0.005 per cent are reported as no difference,
    although [diffPixels] counts them. *)
Theorem compareImages_percentage_bounds
        (w : World) (a b out : string) (m : Machine) (img1 img2 : PNG)
        (n : Z) :
  w_existsSync w (length (trace m)) a = true ->
  w_existsSync w (S (length (trace m))) b = true ->
  w_read_png w (S (S (length (trace m)))) a = Returned img1 ->
  w_read_png w (S (S (S (length (trace m))))) b = Returned img2 ->
  width img1 = width img2 ->
  height img1 = height img2 ->
  w_pixelmatch w (data img1) (data img2) (width img1) (height img1)
  = Returned n ->
  w_exec w (S (S (S (S (S (length (trace m)))))))
         (WriteFileSync (w_path_join w out "diff.png")) = Returned tt ->
  (0 < width img1 * height img1 < 2 ^ 32)%Z ->
  (0 <= n <= width img1 * height img1)%Z ->
  exists r m',
    compareImages w a b out m = (Returned (Some r), m') /\
    diffPixels r = n /\
    0 <= diffPercent r /\ diffPercent r <= 100 /\
    (hasSignificantChange r = true -> (1 # 2) <= diffPercent r) /\
    ((1 # 2) < diffPercent r -> hasSignificantChange r = true) /\
    (diffPercent r == 0 <-> (20000 * n < width img1 * height img1)%Z).
Proof.
  intros E1 E2 R1 R2 Hw Hh P Wr Hpos Hn.
  destruct (compareImages_equal_sizes w a b out m img1 img2 n
              E1 E2 R1 R2 Hw Hh P Wr) as (m' & Hrun & _).
  eexists. exists m'. split; [exact Hrun|].
  cbn [diffPixels diffPercent hasSignificantChange].
  split; [reflexivity|].
  destruct (width img1 * height img1)%Z as [|t|t]; try lia.
  apply percentage_bounds; lia.
Qed.

Lemma compareImages_percentage_bounds_witness :
  exists r m',
    compareImages (image_world (blank_png 1000 1000) (blank_png 1000 1000) 49)
      "out/page-before.png" "out/page.png" "out" initial_machine
    = (Returned (Some r), m') /\
    diffPixels r = 49%Z /\
    0 <= diffPercent r /\ diffPercent r <= 100 /\
    (hasSignificantChange r = true -> (1 # 2) <= diffPercent r) /\
    ((1 # 2) < diffPercent r -> hasSignificantChange r = true) /\
    (diffPercent r == 0 <->
     (20000 * 49 < width (blank_png 1000 1000)
                   * height (blank_png 1000 1000))%Z).
Proof.
  apply (compareImages_percentage_bounds
           (image_world (blank_png 1000 1000) (blank_png 1000 1000) 49)
           "out/page-before.png" "out/page.png" "out" initial_machine
           (blank_png 1000 1000) (blank_png 1000 1000) 49).
  - reflexivity.
  - reflexivity.
  - reflexivity.
  - reflexivity.
  - reflexivity.
  - reflexivity.
  - reflexivity.
  - reflexivity.
  - cbn. lia.
  - cbn. lia.
Defined.

(** X11.  When both snapshot files lie in one directory and record the same
    screenshot file, and that directory holds no [page-before.png], the
    comparison falls back to the screenshot recorded by the first snapshot,
    which is the file of the second: the image is compared with itself, so
    the result reports a difference of 0 per cent and is not marked
    significant when [pixelmatch] finds an image equal to itself. *)
Theorem compareSnapshots_compares_screenshot_with_itself
        (w : World) (b a : PageSnapshot.t) (bp ap : string) (m : Machine)
        (img : PNG) :
  Js.supplied (Some bp) = Some bp ->
  Js.supplied (Some ap) = Some ap ->
  w_path_dirname w bp = w_path_dirname w ap ->
  PageSnapshot.screenshotPath b = PageSnapshot.screenshotPath a ->
  w_existsSync w (length (trace m))
    (w_path_join w (w_path_dirname w bp) "page-before.png") = false ->
  w_existsSync w (S (length (trace m)))
    (w_path_join w (w_path_dirname w ap)
       (Js.or_else (PageSnapshot.screenshotPath a) "page.png")) = true ->
  w_existsSync w (S (S (length (trace m))))
    (w_path_join w (w_path_dirname w ap)
       (Js.or_else (PageSnapshot.screenshotPath a) "page.png")) = true ->
  w_read_png w (S (S (S (length (trace m)))))
    (w_path_join w (w_path_dirname w ap)
       (Js.or_else (PageSnapshot.screenshotPath a) "page.png"))
  = Returned img ->
  w_read_png w (S (S (S (S (length (trace m))))))
    (w_path_join w (w_path_dirname w ap)
       (Js.or_else (PageSnapshot.screenshotPath a) "page.png"))
  = Returned img ->
  w_pixelmatch w (data img) (data img) (width img) (height img)
  = Returned 0%Z ->
  w_exec w (S (S (S (S (S (S (length (trace m))))))))
         (WriteFileSync (w_path_join w (w_path_dirname w ap) "diff.png"))
  = Returned tt ->
  exists r m' d,
    compareSnapshots w b a (Some bp) (Some ap) m = (Returned r, m') /\
    calls_between m m'
      [ExistsSync (w_path_join w (w_path_dirname w bp) "page-before.png");
       ExistsSync (w_path_join w (w_path_dirname w ap)
                     (Js.or_else (PageSnapshot.screenshotPath a) "page.png"));
       ExistsSync (w_path_join w (w_path_dirname w ap)
                     (Js.or_else (PageSnapshot.screenshotPath a) "page.png"));
       ReadPng (w_path_join w (w_path_dirname w ap)
                  (Js.or_else (PageSnapshot.screenshotPath a) "page.png"));
       ReadPng (w_path_join w (w_path_dirname w ap)
                  (Js.or_else (PageSnapshot.screenshotPath a) "page.png"));
       Pixelmatch;
       WriteFileSync (w_path_join w (w_path_dirname w ap) "diff.png")] /\
    imageDiff r = Some d /\
    diffPercent d == 0 /\ diffPixels d = 0%Z /\
    hasSignificantChange d = false.
Proof.
  intros Sb Sa Hdir Hshot Nb E1 E2 R1 R2 P Wr.
  set (shot := w_path_join w (w_path_dirname w ap)
                 (Js.or_else (PageSnapshot.screenshotPath a) "page.png")) in *.
  set (m1 := {| state := state m;
                trace := trace m
                           ++ [ExistsSync
                                 (w_path_join w (w_path_dirname w bp)
                                    "page-before.png")] |}).
  assert (L : length (trace m1) = S (length (trace m))).
  { unfold m1. cbn [trace]. apply length_snoc. }
  destruct (compareImages_equal_sizes w shot shot (w_path_dirname w ap) m1
              img img 0) as (m' & Hrun & Hcalls);
    rewrite ?L; auto.
  eexists. exists m'. eexists.
  split.
  { unfold compareSnapshots. rewrite Sb, Sa.
    cbv beta iota delta [bind existsSync call]. cbn [fst snd trace state].
    rewrite Nb, Hdir, Hshot. fold shot. fold m1 in Hrun.
    cbv iota. unfold m1 in Hrun. rewrite Hdir in Hrun. rewrite Hrun.
    unfold ret. reflexivity. }
  split.
  { unfold calls_between in *. rewrite Hcalls. unfold m1. cbn [trace].
    rewrite <- app_assoc. reflexivity. }
  cbn [structural_diff imageDiff]. split; [reflexivity|].
  cbn [diffPercent diffPixels hasSignificantChange].
  rewrite raw_percent_zero. repeat split.
Qed.

(** ** Session manager: acquisition and release *)

Ltac session_step :=
  repeat (progress (
    crunch;
    cbv beta iota delta [set_browser set_context set_page set_currentUrl
                         set_isRemote set_lastSnapshot];
    cbn [browser context page currentUrl lastSnapshot isRemote state trace])).

(** With a browser in the session, [getPage] is the launched path. *)
Lemma getPage_with_browser (w : World) (url : option string) (m : Machine) :
  browser (state m) <> None -> getPage w url m = getPage_launched w url m.
Proof.
  intros Hb. unfold getPage at 1. crunch.
  destruct (browser (state m)); [reflexivity | now elim Hb].
Qed.

(** The attempt to attach returns and leaves the session as it was. *)
Lemma tryConnectCDP_returns (w : World) (url : option string) (m : Machine) :
  exists r m', tryConnectCDP w url m = (Returned r, m') /\ state m' = state m.
Proof.
  destruct (tryConnectCDP_from_spec w CDP_PORTS url (state m) m eq_refl)
    as (calls & _ & _ & Hst & r & Hr).
  unfold tryConnectCDP.
  destruct (tryConnectCDP_from w CDP_PORTS url m) as [o m'].
  cbn [fst snd] in *. subst o. now exists r, m'.
Qed.

Lemma should_navigate_remote (url : option string) (st : SessionState) :
  isRemote st = true -> should_navigate url st = None.
Proof.
  intros R. unfold should_navigate. rewrite R.
  destruct (Js.supplied url); [|reflexivity].
  now rewrite andb_false_r.
Qed.

Lemma should_navigate_tracked (url : option string) (st : SessionState)
      (u : string) :
  Js.supplied url = Some u -> currentUrl st = Some u ->
  should_navigate url st = None.
Proof.
  intros Hu Hc. unfold should_navigate. rewrite Hu, Hc. cbn.
  now rewrite String.eqb_refl.
Qed.

Lemma should_navigate_some (url : option string) (st : SessionState)
      (u : string) :
  should_navigate url st = Some u ->
  Js.supplied url = Some u /\ isRemote st = false.
Proof.
  unfold should_navigate. destruct (Js.supplied url) as [v|]; [|discriminate].
  destruct (isRemote st); [now rewrite andb_false_r|].
  destruct (negb (Js.eqb_opt (Some v) (currentUrl st))); [|discriminate].
  cbn. intros H. injection H as <-. now split.
Qed.

(** After [getPage_launched] has returned, running it again, in any world,
    returns the same page and makes no call; only the tracked URL of a
    remote session is set again. *)
Lemma getPage_launched_again (w : World) (url : option string)
      (m m1 : Machine) (p : Page) :
  getPage_launched w url m = (Returned p, m1) ->
  browser (state m1) <> None /\
  lastSnapshot (state m1) = lastSnapshot (state m) /\
  forall w2,
    getPage_launched w2 url m1 = (Returned p, after_reacquisition w2 p m1).
Proof.
  destruct m as [[br cx pg cu ls r] tr].
  unfold getPage_launched at 1. session_step.
  destruct br as [b|]; session_step;
    [|split_world; session_step; [|discriminate]];
    (destruct cx as [c|]; session_step;
     [|split_world; session_step; [|discriminate]]);
    (destruct pg as [q|]; session_step;
     [|split_world; session_step; [|discriminate];
       split_world; session_step; [|discriminate]]);
    match goal with
    | |- context [should_navigate url ?st] =>
        destruct (should_navigate url st) as [u|] eqn:Hnav
    end; session_step.
  all: try (split_world; session_step; [|discriminate]).
  all: try (split_world; session_step).
  all: try match goal with
           | |- context [if ?r then _ else _] => destruct r eqn:R
           end; session_step.
  all: intros H; injection H as <- <-; cbn [state trace].
  all: (split; [discriminate|]); (split; [reflexivity|]).
  all: intros w2; unfold getPage_launched, after_reacquisition; session_step.
  all: first
    [ destruct (should_navigate_some _ _ _ Hnav) as [Hu Hr]; cbn in Hr;
      try subst r;
      rewrite should_navigate_tracked with (u := u)
        by (exact Hu || reflexivity);
      session_step; reflexivity
    | rewrite should_navigate_remote by reflexivity; session_step;
      reflexivity
    | rewrite Hnav; session_step; reflexivity ].
Qed.

(** Whatever its outcome, [getPage_launched] leaves the cached snapshot
    alone. *)
Lemma getPage_launched_frame (w : World) (url : option string) (m : Machine) :
  lastSnapshot (state (snd (getPage_launched w url m)))
  = lastSnapshot (state m).
Proof.
  destruct m as [[br cx pg cu ls r] tr].
  unfold getPage_launched. session_step.
  destruct br as [b|]; session_step;
    [|split_world; session_step; [|reflexivity]];
    (destruct cx as [c|]; session_step;
     [|split_world; session_step; [|reflexivity]]);
    (destruct pg as [q|]; session_step;
     [|split_world; session_step; [|reflexivity];
       split_world; session_step; [|reflexivity]]);
    match goal with
    | |- context [should_navigate url ?st] =>
        destruct (should_navigate url st) as [u|] eqn:Hnav
    end; session_step.
  all: try (split_world; session_step; [|reflexivity]).
  all: try (split_world; session_step).
  all: try match goal with
           | |- context [if ?r then _ else _] => destruct r eqn:R
           end; session_step.
  all: reflexivity.
Qed.

Lemma getPage_frame (w : World) (url : option string) (m : Machine) :
  lastSnapshot (state (snd (getPage w url m))) = lastSnapshot (state m).
Proof.
  destruct (browser (state m)) as [b|] eqn:Hb.
  - rewrite getPage_with_browser by congruence.
    apply getPage_launched_frame.
  - unfold getPage. crunch. rewrite Hb.
    destruct (env_is_1 (w_USE_CDP w)); crunch;
      [|apply getPage_launched_frame].
    destruct (tryConnectCDP_returns w url m) as (r & m' & Hc & Hs).
    rewrite Hc. destruct r as [[b p]|].
    + session_step. now rewrite Hs.
    + rewrite getPage_launched_frame. now rewrite Hs.
Qed.

(** X12.  Once [getPage] has returned a page, a further call with the same
    argument returns the same page and records no call (no connection, no
    launch, no new context or page, no navigation), whatever the world does
    at that moment: the
    browser, the context and the page persist from one call to the next.  A
    launched session is left exactly as it is; in a remote session the
    tracked URL, and nothing else, is set again to the URL that the page
    shows when the second call is made, which may differ from the one it
    showed before. *)
Theorem getPage_again_is_free
        (w : World) (url : option string) (m m1 : Machine) (p : Page) :
  getPage w url m = (Returned p, m1) ->
  forall w2 : World,
    getPage w2 url m1 = (Returned p, after_reacquisition w2 p m1).
Proof.
  intros H.
  assert (Hl : forall m0, getPage_launched w url m0 = (Returned p, m1) ->
                 forall w2,
                   getPage w2 url m1
                   = (Returned p, after_reacquisition w2 p m1)).
  { intros m0 H0 w2.
    apply getPage_launched_again in H0 as (Hb & _ & H0).
    rewrite getPage_with_browser by exact Hb. apply H0. }
  destruct (browser (state m)) as [b|] eqn:Hb.
  - rewrite getPage_with_browser in H by congruence. now apply (Hl m).
  - revert H. unfold getPage at 1. crunch. rewrite Hb.
    destruct (env_is_1 (w_USE_CDP w)); crunch; [|apply Hl].
    destruct (tryConnectCDP_returns w url m) as (r & m' & Hc & Hs).
    rewrite Hc. destruct r as [[b q]|]; [|apply Hl].
    session_step. intros H w2. injection H as <- <-.
    rewrite getPage_with_browser by (cbn; discriminate).
    unfold getPage_launched, after_reacquisition. session_step.
    rewrite should_navigate_remote by reflexivity. session_step.
    reflexivity.
Qed.

(** A session attached to a tab that shows [http://localhost:3000/app]: a
    second acquisition, made when the tab shows [about:blank], returns the
    same page, records no call and changes the tracked URL.  A launched
    session is left as it is by a second acquisition. *)
Lemma getPage_again_is_free_witness :
  let tabs := ["about:blank"; "http://localhost:3000/app"] in
  let url := Some "http://localhost:3000/app" in
  let remote := snd (getPage (cdp_world tabs) url initial_machine) in
  let launched := snd (getPage calm_world url initial_machine) in
  (getPage calm_world url remote
   = (Returned (CdpPage 9222 1),
      after_reacquisition calm_world (CdpPage 9222 1) remote) /\
   currentUrl (state remote) = Some "http://localhost:3000/app" /\
   currentUrl (state (after_reacquisition calm_world (CdpPage 9222 1) remote))
   = Some "about:blank") /\
  getPage (world_of is_navigation 0) url launched
  = (Returned LaunchedPage, launched).
Proof.
  intros tabs url remote launched. split; [split; [|split]|].
  - exact (getPage_again_is_free (cdp_world tabs) url initial_machine remote
             (CdpPage 9222 1) eq_refl calm_world).
  - reflexivity.
  - reflexivity.
  - exact (getPage_again_is_free calm_world url initial_machine launched
             LaunchedPage eq_refl (world_of is_navigation 0)).
Defined.

(** X13.  [closeSession] gives the session back in its initial state when
    it returns; when closing the context or the browser throws, the session
    is left as it was or, for a launched session whose context was closed
    before the fault, without its context and page.  (Here a session has a
    page only in a context, which [getPage] ensures.) *)
Theorem closeSession_resets_session (w : World) (m : Machine) :
  (context (state m) = None -> page (state m) = None) ->
  match closeSession w m with
  | (Returned _, m') => state m' = initial_state
  | (Raised _, m') =>
      state m' = state m \/
      (isRemote (state m) = false /\
       state m' = set_page None (set_context None (state m)))
  end.
Proof.
  destruct m as [[br cx pg cu ls r] tr]. cbn [state context page].
  intros Hp. unfold closeSession. session_step.
  destruct r; session_step.
  - destruct br as [b|]; session_step;
      [split_world; session_step|]; auto.
  - destruct cx as [c|]; session_step.
    + split_world; session_step; [|auto].
      destruct br as [b|]; session_step;
        [split_world; session_step|]; auto.
    + rewrite (Hp eq_refl).
      destruct br as [b|]; session_step;
        [split_world; session_step|]; auto.
Qed.

Lemma closeSession_resets_session_witness :
  state (snd (closeSession calm_world
                (snd (getPage calm_world (Some "http://localhost:5173/")
                              initial_machine))))
  = initial_state.
Proof.
  pose proof (closeSession_resets_session calm_world
                (snd (getPage calm_world (Some "http://localhost:5173/")
                              initial_machine))) as H.
  cbv beta iota zeta in H.
  destruct (closeSession calm_world
              (snd (getPage calm_world (Some "http://localhost:5173/")
                            initial_machine))) as [[u|e] m'] eqn:E.
  - apply H. discriminate.
  - exfalso. vm_compute in E. discriminate.
Defined.

(** X14.  Closing a session that is attached to a remote browser only
    disconnects from it: the one call made is the closing of the connection
    (none when the session has no browser), and the context with the tabs
    of the user is never closed. *)
Theorem closeSession_remote_only_disconnects (w : World) (m : Machine) :
  isRemote (state m) = true ->
  calls_between m (snd (closeSession w m))
    match browser (state m) with
    | Some b => [BrowserClose b]
    | None => []
    end.
Proof.
  destruct m as [[br cx pg cu ls r] tr]. cbn [state isRemote browser].
  intros ->. unfold closeSession, calls_between. session_step.
  destruct br as [b|]; session_step.
  - split_world; session_step; reflexivity.
  - now rewrite app_nil_r.
Qed.

Lemma closeSession_remote_only_disconnects_witness :
  calls_between
    (snd (getPage (cdp_world ["http://localhost:3000/app"]) None
                  initial_machine))
    (snd (closeSession (cdp_world ["http://localhost:3000/app"])
            (snd (getPage (cdp_world ["http://localhost:3000/app"]) None
                          initial_machine))))
    [BrowserClose (CdpBrowser 9222)].
Proof.
  apply (closeSession_remote_only_disconnects
           (cdp_world ["http://localhost:3000/app"])
           (snd (getPage (cdp_world ["http://localhost:3000/app"]) None
                         initial_machine))).
  reflexivity.
Defined.

(** ** Analysis and interactions *)

Ltac split_answers :=
  match goal with
  | |- context [match w_extract ?w ?t with _ => _ end] =>
      destruct (w_extract w t) eqn:?
  | |- context [match w_textSample ?w ?t with _ => _ end] =>
      destruct (w_textSample w t) eqn:?
  | |- context [if negb (w_existsSync ?w ?t ?p) then _ else _] =>
      destruct (w_existsSync w t p) eqn:?
  | |- context [if w_existsSync ?w ?t ?p then _ else _] =>
      destruct (w_existsSync w t p) eqn:?
  | _ => split_world
  end.

(** When [analyze] returns, the session caches the snapshot it returns. *)
Lemma analyze_returned (w : World) (url out : string) (m m1 : Machine)
      (s : PageSnapshot.t) (report : string) :
  analyze w url out m = (Returned (s, report), m1) ->
  lastSnapshot (state m1) = Some s /\
  PageSnapshot.url s = url /\
  PageSnapshot.screenshotPath s = Some "page.png" /\
  report = w_generateReport w s.
Proof.
  unfold analyze. cbv beta iota delta [bind].
  destruct (getPage w (Some url) m) as [[p|e] mp]; [|discriminate].
  session_step.
  repeat (split_answers; session_step); try discriminate.
  all: intros H; injection H as <- <- <-; cbn; auto.
Qed.

(** Once the page is acquired, an interaction returns, and the target of
    its result is what it operates on, resolved against the snapshot that
    the session caches at that moment. *)
Lemma interact_target (w : World) (i : Interaction) (m mp : Machine)
      (p : Page) :
  getPage w (url_of_call i) m = (Returned p, mp) ->
  exists result m',
    interact w i m = (Returned result, m') /\
    state m' = state mp /\
    action result = kind i /\
    target result = resolved (w_toLowerCase w) i (lastSnapshot (state mp)).
Proof.
  destruct i as [tg u|tg tx u|tg v u|tg u|k u|tg u ms|d u|tg u|tg u
                |pth u f|tg attr u];
    cbn [interact url_of_call]; intros Hp;
    unfold click, type, select, hover, press, waitFor, scroll, scroll_step,
           getValue, isVisible, screenshot, getAttribute;
    cbn [resolved];
    cbv beta iota delta [bind date_now observe];
    rewrite Hp;
    crunch; repeat (split_world; crunch);
    (eexists; eexists; split; [reflexivity|]);
    cbn [plain_result action target kind state];
    repeat split.
Qed.

(** A fault of the page acquisition is the fault of the interaction. *)
Lemma interact_raises (w : World) (i : Interaction) (m mp : Machine)
      (e : JsError) :
  getPage w (url_of_call i) m = (Raised e, mp) ->
  interact w i m = (Raised e, mp).
Proof.
  destruct i as [tg u|tg tx u|tg v u|tg u|k u|tg u ms|d u|tg u|tg u
                |pth u f|tg attr u];
    cbn [interact url_of_call]; intros Hp;
    unfold click, type, select, hover, press, waitFor, scroll,
           getValue, isVisible, screenshot, getAttribute;
    cbv beta iota delta [bind date_now observe];
    rewrite Hp; reflexivity.
Qed.

(** X16.  When [analyze] returns, the snapshot it returns is the one the
    session caches from then on; the snapshot carries the URL that was
    asked for and names [page.png] as its screenshot, also when taking the
    screenshot failed, and the report is the one generated from this
    snapshot.  When [analyze] throws, nothing is claimed. *)
Theorem analyze_caches_its_snapshot
        (w : World) (url out : string) (m : Machine) :
  match analyze w url out m with
  | (Returned (s, report), m1) =>
      lastSnapshot (state m1) = Some s /\
      PageSnapshot.url s = url /\
      PageSnapshot.screenshotPath s = Some "page.png" /\
      report = w_generateReport w s
  | (Raised _, _) => True
  end.
Proof.
  destruct (analyze w url out m) as [[[s report]|e] m1] eqn:E; [|exact I].
  exact (analyze_returned w url out m m1 s report E).
Qed.

(** X17.  After an analysis, every interaction resolves its target against
    the snapshot of that analysis, also when the interaction names another
    URL and the page navigates there: the result carries, as its target,
    the selector found in the cached snapshot, and the session still caches
    that snapshot afterwards. *)
Theorem interactions_use_the_analyzed_snapshot
        (w : World) (url out : string) (m m1 mp : Machine)
        (s : PageSnapshot.t) (report : string) (i : Interaction) (p : Page) :
  analyze w url out m = (Returned (s, report), m1) ->
  getPage w (url_of_call i) m1 = (Returned p, mp) ->
  exists result m2,
    interact w i m1 = (Returned result, m2) /\
    target result = resolved (w_toLowerCase w) i (Some s) /\
    lastSnapshot (state m2) = Some s.
Proof.
  intros Ha Hp.
  apply analyze_returned in Ha as (Hs & _).
  pose proof (getPage_frame w (url_of_call i) m1) as Hf.
  rewrite Hp in Hf. cbn [snd] in Hf. rewrite Hs in Hf.
  destruct (interact_target w i m1 mp p Hp)
    as (result & m2 & Hi & Hst & _ & Ht).
  exists result, m2. split; [exact Hi|].
  rewrite Ht, Hst, Hf. split; reflexivity.
Qed.

Lemma interactions_use_the_analyzed_snapshot_witness :
  exists result m2,
    interact calm_world (Click "save" (Some "http://localhost:3000/"))
      (snd (analyze calm_world "http://localhost:5173/" "out"
                    initial_machine))
    = (Returned result, m2) /\
    lastSnapshot (state m2) <> None.
Proof.
  destruct (interactions_use_the_analyzed_snapshot calm_world
              "http://localhost:5173/" "out" initial_machine
              (snd (analyze calm_world "http://localhost:5173/" "out"
                            initial_machine))
              (snd (getPage calm_world (Some "http://localhost:3000/")
                      (snd (analyze calm_world "http://localhost:5173/" "out"
                                    initial_machine))))
              (snapshot_of empty_theme [])
              "report"
              (Click "save" (Some "http://localhost:3000/"))
              LaunchedPage)
    as (result & m2 & Hi & _ & Hs).
  - reflexivity.
  - reflexivity.
  - exists result, m2. split; [exact Hi|]. rewrite Hs. discriminate.
Defined.

(** X18.  The fast screenshot path (a capture through a debugging session
    of the page) is taken only when [fast] is set and the session is not
    attached to a remote browser; in every other case the one capture call
    is the standard screenshot of the page, so [fast] is ignored for a
    remote session.  The first call after the page acquisition tells the
    path taken. *)
Theorem screenshot_fast_path_only_when_launched
        (w : World) (path : string) (url : option string)
        (fast : option bool) (m mp : Machine) (p : Page) :
  getPage w url m = (Returned p, mp) ->
  exists result m' rest,
    screenshot w path url fast m = (Returned result, m') /\
    calls_between mp m'
      ((if match fast with Some f => f | None => false end
           && negb (isRemote (state mp))
        then NewCDPSession
        else PageScreenshot path 5000) :: rest) /\
    (isRemote (state mp) = true -> rest = []).
Proof.
  intros Hp. unfold screenshot, calls_between.
  cbv beta iota delta [bind date_now observe]. rewrite Hp. crunch.
  destruct (match fast with Some f => f | None => false end
            && negb (isRemote (state mp))) eqn:F; crunch;
    repeat (split_world; crunch);
    eexists; eexists; eexists;
    (split; [reflexivity|]);
    (split; [rewrite <- ?app_assoc; cbn [app]; reflexivity|]);
    intros R; rewrite R, ?andb_false_r in F; try discriminate; reflexivity.
Qed.

Lemma screenshot_fast_path_only_when_launched_witness :
  exists result m' rest,
    screenshot (cdp_world ["http://localhost:3000/app"]) "out/shot.png" None
               (Some true) initial_machine
    = (Returned result, m') /\
    calls_between
      (snd (getPage (cdp_world ["http://localhost:3000/app"]) None
                    initial_machine)) m'
      (PageScreenshot "out/shot.png" 5000 :: rest) /\
    rest = [].
Proof.
  destruct (screenshot_fast_path_only_when_launched
              (cdp_world ["http://localhost:3000/app"]) "out/shot.png" None
              (Some true) initial_machine
              (snd (getPage (cdp_world ["http://localhost:3000/app"]) None
                            initial_machine))
              (CdpPage 9222 0) eq_refl)
    as (result & m' & rest & Hs & Hc & Hr).
  exists result, m', rest. split; [exact Hs|]. split; [exact Hc|].
  apply Hr. reflexivity.
Defined.

(** X19.  For an element that is not visible, [isVisible] does not ask
    whether it is enabled: it makes the one visibility call and reports a
    success with [visible = false] and [enabled = true]. *)
Theorem isVisible_of_hidden_element
        (w : World) (target : string) (url : option string)
        (m mp : Machine) (p : Page) :
  getPage w url m = (Returned p, mp) ->
  w_isVisible w (length (trace mp))
    (findSelector (w_toLowerCase w) target (lastSnapshot (state mp)))
  = Returned false ->
  exists result m',
    isVisible w target url m = (Returned result, m') /\
    calls_between mp m'
      [IsVisible
         (findSelector (w_toLowerCase w) target (lastSnapshot (state mp)))
         2000] /\
    success result = true /\
    visible result = Some false /\
    enabled result = Some true.
Proof.
  intros Hp Hv. unfold isVisible, calls_between.
  cbv beta iota delta [bind date_now observe]. rewrite Hp. crunch.
  rewrite Hv. crunch.
  eexists. eexists. repeat split.
Qed.

(** X20.  The consistency of the session record (without a browser there is
    neither a remote attachment nor a tracked URL, and a remote attachment
    has its context and its page) holds of the initial session and is kept
    by [getPage], by [closeSession], by [analyze] and by each of the eleven
    interactions, whether they return or throw. *)
Theorem session_stays_consistent (w : World) (m : Machine) :
  consistent (state m) ->
  consistent initial_state /\
  (forall url, consistent (state (snd (getPage w url m)))) /\
  consistent (state (snd (closeSession w m))) /\
  (forall url out, consistent (state (snd (analyze w url out m)))) /\
  (forall i, consistent (state (snd (interact w i m)))).
Proof.
  intros C. split; [exact initial_state_consistent|].
  split; [intros url; now apply getPage_consistent|].
  split.
  { destruct (closeSession_spec w (state m) C m eq_refl)
      as (calls & _ & _ & H). exact H. }
  split.
  { intros url out.
    destruct (analyze_spec w url out (state m) C m eq_refl)
      as (calls & _ & _ & H). exact H. }
  intros i. now apply interact_consistent.
Qed.

Lemma session_stays_consistent_witness :
  consistent (state (snd (closeSession calm_world initial_machine))).
Proof.
  apply (session_stays_consistent calm_world initial_machine
           initial_state_consistent).
Defined.

(** X21.  [saveBaseline] copies only files that exist: when the output
    directory holds neither a snapshot nor a screenshot, it makes the two
    existence tests, copies nothing, and still answers [Baseline saved]. *)
Theorem saveBaseline_without_files (w : World) (out : string) (m : Machine) :
  w_existsSync w (length (trace m)) (w_path_join w out "snapshot.json")
  = false ->
  w_existsSync w (S (length (trace m))) (w_path_join w out "page.png")
  = false ->
  saveBaseline w out m
  = (Returned "Baseline saved",
     {| state := state m;
        trace := trace m
                   ++ [ExistsSync (w_path_join w out "snapshot.json");
                       ExistsSync (w_path_join w out "page.png")] |}).
Proof.
  intros E1 E2. unfold saveBaseline. crunch. rewrite E1. crunch.
  rewrite E2. crunch. rewrite <- app_assoc. reflexivity.
Qed.

(** ** Witnesses *)

Lemma getPage_navigates_when_allowed_witness :
  exists rest,
    calls_between
      (snd (getPage calm_world (Some "http://localhost:5173/")
                    initial_machine))
      (snd (getPage calm_world (Some "http://localhost:3000/")
              (snd (getPage calm_world (Some "http://localhost:5173/")
                            initial_machine))))
      (PageGoto "http://localhost:3000/" 30000 :: rest).
Proof.
  apply (getPage_navigates_when_allowed calm_world
           (Some "http://localhost:3000/")
           (snd (getPage calm_world (Some "http://localhost:5173/")
                         initial_machine))
           (LaunchedBrowser true 0) LaunchedContext LaunchedPage
           "http://localhost:3000/").
  - reflexivity.
  - reflexivity.
  - reflexivity.
  - reflexivity.
  - reflexivity.
  - discriminate.
Defined.

Lemma compareSnapshots_compares_screenshot_with_itself_witness :
  exists r d,
    fst (compareSnapshots no_baseline_image_world
           (snapshot_of empty_theme []) (snapshot_of empty_theme [])
           (Some "out/snapshot-before.json") (Some "out/snapshot.json")
           initial_machine) = Returned r /\
    imageDiff r = Some d /\
    diffPercent d == 0 /\
    hasSignificantChange d = false.
Proof.
  destruct (compareSnapshots_compares_screenshot_with_itself
              no_baseline_image_world
              (snapshot_of empty_theme []) (snapshot_of empty_theme [])
              "out/snapshot-before.json" "out/snapshot.json"
              initial_machine (blank_png 100 125))
    as (r & m' & d & Hrun & _ & Hd & Hp & _ & Hs);
    try reflexivity.
  exists r, d. rewrite Hrun. repeat split; assumption.
Defined.

Lemma isVisible_of_hidden_element_witness :
  exists result m',
    isVisible hidden_world "modal" None initial_machine
    = (Returned result, m') /\
    success result = true /\
    visible result = Some false /\
    enabled result = Some true.
Proof.
  destruct (isVisible_of_hidden_element hidden_world "modal" None
              initial_machine
              (snd (getPage hidden_world None initial_machine))
              LaunchedPage eq_refl eq_refl)
    as (result & m' & Hrun & _ & H1 & H2 & H3).
  exists result, m'. repeat split; assumption.
Defined.

Lemma saveBaseline_without_files_witness :
  fst (saveBaseline empty_directory_world "out" initial_machine)
  = Returned "Baseline saved".
Proof.
  rewrite (saveBaseline_without_files empty_directory_world "out"
             initial_machine eq_refl eq_refl).
  reflexivity.
Defined.

(** ** Tool-invocation boundary: responses *)

Lemma requested_interaction_url (request : ToolRequest) (url : string)
      (i : Interaction) :
  requested_interaction request url = Some i -> url_of_call i = Some url.
Proof.
  unfold requested_interaction.
  repeat match goal with
         | |- context [if ?c then _ else _] => destruct c
         | |- context [match Js.supplied ?o with _ => _ end] =>
             destruct (Js.supplied o)
         end;
    intros H; try discriminate; injection H as <-; reflexivity.
Qed.

(** For such a request the dispatcher runs the interaction and renders its
    result. *)
Lemma dispatch_interaction (w : World) (request : ToolRequest)
      (url urlInfo : string) (i : Interaction) :
  requested_interaction request url = Some i ->
  dispatch w request url urlInfo
  = (result <- interact w i ;; ret (render result)).
Proof.
  unfold requested_interaction, dispatch.
  destruct (arg request a_action) as [a|];
    cbn [is_action Js.eqb_opt]; [|discriminate].
  repeat match goal with
         | |- (if String.eqb a ?s then _ else _) = Some _ -> _ =>
             let E := fresh "E" in
             destruct (String.eqb a s) eqn:E;
             [ apply String.eqb_eq in E; subst a; simpl String.eqb; cbv iota
             | ]
         end;
    try discriminate;
    repeat match goal with
           | |- context [match Js.supplied ?o with _ => _ end] =>
               destruct (Js.supplied o)
           end;
    intros H; try discriminate; injection H as <-; reflexivity.
Qed.

(** X22.  For a request that names an interaction action (click, type,
    select, hover, scroll, press), supplies its parameters and a URL, the
    response of the dispatcher is the rendering of the result of the
    interaction; when the page cannot be acquired, the fault that the
    interaction raises reaches the caller as the text of an error response,
    and the dispatcher itself does not throw. *)
Theorem handle_renders_interaction
        (w : World) (request : ToolRequest) (m : Machine) (u : string)
        (i : Interaction) :
  name request = "websight" ->
  Js.supplied (arg request a_url) = Some u ->
  requested_interaction request u = Some i ->
  match getPage w (Some u) m with
  | (Raised e, mp) => handle w request m = (Returned (fault_response e), mp)
  | (Returned _, _) =>
      exists result m',
        interact w i m = (Returned result, m') /\
        handle w request m = (Returned (render result), m')
  end.
Proof.
  intros Hname Hu Hi.
  assert (Hh : handle w request m
               = match interact w i m with
                 | (Returned r, m') => (Returned (render r), m')
                 | (Raised e, m') => (Returned (fault_response e), m')
                 end).
  { unfold handle. rewrite Hname. simpl String.eqb. cbv iota.
    unfold resolveUrl. rewrite Hu. unfold try_catch, bind at 1, ret at 1.
    cbn [ru_url ru_detected].
    rewrite (dispatch_interaction w request u "" i Hi).
    unfold bind, ret, fault_response.
    destruct (interact w i m) as [[r|e] m']; reflexivity. }
  pose proof (requested_interaction_url request u i Hi) as Hurl.
  destruct (getPage w (Some u) m) as [[p|e] mp] eqn:Hp;
    rewrite <- Hurl in Hp.
  - destruct (interact_target w i m mp p Hp) as (r & m' & Hrun & _).
    exists r, m'. split; [exact Hrun|]. now rewrite Hh, Hrun.
  - now rewrite Hh, (interact_raises w i m mp e Hp).
Qed.

Lemma handle_renders_interaction_witness :
  handle (world_of is_navigation 0)
         (request_of "click" (Some "http://localhost:5173/") (Some "Save"))
         initial_machine
  = (Returned (fault_response timeout_error),
     snd (getPage (world_of is_navigation 0) (Some "http://localhost:5173/")
                  initial_machine)).
Proof.
  pose proof (handle_renders_interaction (world_of is_navigation 0)
                (request_of "click" (Some "http://localhost:5173/")
                            (Some "Save"))
                initial_machine "http://localhost:5173/"
                (Click "Save" (Some "http://localhost:5173/"))
                eq_refl eq_refl eq_refl) as H.
  exact H.
Defined.

(** X23.  The dispatcher never throws: every request, whatever the tool
    name, the action and the arguments, and whatever the browser and the
    file system do, is answered by a text. *)
Theorem handle_never_throws (w : World) (request : ToolRequest) (m : Machine) :
  exists text m', handle w request m = (Returned text, m').
Proof.
  unfold handle. apply try_catch_total. intros e m1.
  unfold ret. eauto.
Qed.

(** X24.  A request for the tool whose action is none of the nine
    recognized ones (or is absent) is answered by the response that names
    the action and lists the recognized ones; the session is left untouched
    and no page is acquired.  The URL is resolved first: without a url
    argument the calls of the detection are made, with one no call at
    all. *)
Theorem handle_unknown_action
        (w : World) (request : ToolRequest) (m : Machine) :
  name request = "websight" ->
  (forall a, In a known_actions -> arg request a_action <> Some a) ->
  exists calls,
    handle w request m
    = (Returned (unknown_action (arg request a_action)),
       {| state := state m; trace := (trace m ++ calls)%list |}) /\
    Forall detection_call calls /\
    (Js.supplied (arg request a_url) <> None -> calls = []).
Proof.
  intros Hname Hunknown.
  destruct (resolveUrl_spec w (arg request a_url) m)
    as (resolved & calls & Hr & F & Hsome & _).
  exists calls. split; [|auto].
  unfold handle. rewrite Hname. simpl String.eqb. cbv iota.
  unfold try_catch. rewrite (bind_returned _ _ m _ resolved Hr).
  assert (Hno : forall a, In a known_actions ->
                          is_action (arg request a_action) a = false).
  { intros a Ha. unfold is_action.
    destruct (arg request a_action) as [x|] eqn:E; [|reflexivity].
    cbn. apply String.eqb_neq. intros ->. now apply (Hunknown a Ha). }
  unfold dispatch.
  rewrite !Hno by (unfold known_actions; cbn; tauto).
  reflexivity.
Qed.

Lemma handle_unknown_action_witness :
  exists calls,
    handle calm_world (request_of "tap" (Some "http://localhost:5173/") None)
           initial_machine
    = (Returned (unknown_action (Some "tap")),
       {| state := state initial_machine;
          trace := (trace initial_machine ++ calls)%list |}) /\
    Forall detection_call calls /\
    (Js.supplied (Some "http://localhost:5173/") <> None -> calls = []).
Proof.
  apply (handle_unknown_action calm_world
           (request_of "tap" (Some "http://localhost:5173/") None)
           initial_machine eq_refl).
  intros a Ha. unfold known_actions in Ha. cbn in Ha.
  intros E. injection E as <-.
  repeat (destruct Ha as [Ha|Ha]; [discriminate Ha|]). exact Ha.
Defined.

(** X25.  A [diff] without a saved baseline is answered by the response
    that asks for a baseline; after the resolution of the URL the one call
    made is the existence test of the baseline snapshot: no page is
    acquired, nothing is analyzed, no file is read or written, and the
    session is left untouched. *)
Theorem handle_diff_without_baseline
        (w : World) (request : ToolRequest) (m : Machine) :
  name request = "websight" ->
  arg request a_action = Some "diff" ->
  (forall t, w_existsSync w t
               (w_path_join w OUTPUT_DIR "snapshot-before.json") = false) ->
  exists calls,
    handle w request m
    = (Returned no_baseline,
       {| state := state m;
          trace := ((trace m ++ calls)
                      ++ [ExistsSync
                            (w_path_join w OUTPUT_DIR
                                         "snapshot-before.json")])%list |}) /\
    Forall detection_call calls /\
    (Js.supplied (arg request a_url) <> None -> calls = []).
Proof.
  intros Hname Hdiff Hnone.
  destruct (resolveUrl_spec w (arg request a_url) m)
    as (resolved & calls & Hr & F & Hsome & _).
  exists calls. split; [|auto].
  unfold handle. rewrite Hname. simpl String.eqb. cbv iota.
  unfold try_catch. rewrite (bind_returned _ _ m _ resolved Hr).
  unfold dispatch. rewrite Hdiff. cbn [is_action Js.eqb_opt].
  repeat match goal with
         | |- context [String.eqb ?a ?b] =>
             let v := eval vm_compute in (String.eqb a b) in
             change (String.eqb a b) with v
         end.
  cbv iota. crunch. rewrite Hnone. crunch.
  reflexivity.
Qed.

Lemma handle_diff_without_baseline_witness :
  exists calls,
    handle empty_directory_world (request_of "diff" None None)
           initial_machine
    = (Returned no_baseline,
       {| state := state initial_machine;
          trace := ((trace initial_machine ++ calls)
                      ++ [ExistsSync
                            (w_path_join empty_directory_world OUTPUT_DIR
                                         "snapshot-before.json")])%list |}) /\
    Forall detection_call calls /\
    (Js.supplied (arg (request_of "diff" None None) a_url) <> None ->
     calls = []).
Proof.
  apply (handle_diff_without_baseline empty_directory_world
           (request_of "diff" None None) initial_machine eq_refl eq_refl).
  intros t. reflexivity.
Defined.

(** ** Discovery: what is detected *)

Section DetectResults.

Variable w : World.

Lemma getActiveTabFromCDP_result (port : Z) (m : Machine) :
  exists r m',
    getActiveTabFromCDP w port m = (Returned r, m') /\
    state m' = state m /\
    forall url, Js.supplied r = Some url -> usable_page_url url = true.
Proof.
  unfold getActiveTabFromCDP. crunch.
  destruct (w_cdp_pages w (length (trace m)) port) as [urls|e]; crunch.
  - destruct (find usable_page_url urls) as [url|] eqn:Hf; crunch;
      split_world; crunch; eexists; eexists;
      (split; [reflexivity|]); (split; [reflexivity|]);
      intros u Hu; try discriminate.
    apply find_some in Hf as [_ Hf].
    unfold Js.supplied in Hu. destruct (Js.truthy url); [|discriminate].
    injection Hu as <-. exact Hf.
  - eexists. eexists. split; [reflexivity|]. split; [reflexivity|].
    intros u Hu. discriminate.
Qed.

Lemma detect_cdp_result (ports : list Z) (m : Machine) :
  exists r m',
    detect_cdp w ports m = (Returned r, m') /\
    state m' = state m /\
    forall d, r = Some d ->
      dp_source d = SrcCdp /\
      exists port, dp_port d = Some port /\ In port ports /\
                   usable_page_url (dp_url d) = true.
Proof.
  revert m. induction ports as [|port ports IH]; intros m; cbn [detect_cdp].
  - exists None, m. split; [reflexivity|]. split; [reflexivity|].
    intros d H. discriminate.
  - destruct (getActiveTabFromCDP_result port m) as (r & m1 & H1 & S1 & U1).
    rewrite (bind_returned _ _ m m1 r H1).
    destruct (Js.supplied r) as [url|] eqn:Hr.
    + eexists. exists m1. split; [reflexivity|]. split; [exact S1|].
      intros d Hd. injection Hd as <-. cbn. split; [reflexivity|].
      exists port. repeat split; auto.
    + destruct (IH m1) as (r2 & m2 & H2 & S2 & U2).
      exists r2, m2. split; [exact H2|]. split; [congruence|].
      intros d Hd. destruct (U2 d Hd) as (Hs & p & Hp & Hin & Hu).
      split; [exact Hs|]. exists p. repeat split; auto. now right.
Qed.

Lemma probe_ports_result (ports : list Z) (m : Machine) :
  exists checks,
    probe_ports w ports m
    = (Returned checks,
       {| state := state m;
          trace := (trace m ++ map PortProbe ports)%list |}) /\
    map fst checks = ports.
Proof.
  revert m. induction ports as [|port ports IH]; intros m; cbn [probe_ports].
  - exists []. unfold ret. cbn. rewrite app_nil_r. now destruct m.
  - unfold isPortOpen. crunch.
    destruct (IH {| state := state m;
                    trace := trace m ++ [PortProbe port] |})
      as (checks & H & Hm).
    rewrite H. eexists. split.
    + cbn [state trace map]. rewrite <- app_assoc. reflexivity.
    + cbn. now rewrite Hm.
Qed.

Lemma isValidPage_result (url : string) (m : Machine) :
  exists valid,
    isValidPage w url m
    = (Returned valid,
       {| state := state m; trace := (trace m ++ [FetchHead url])%list |}).
Proof.
  unfold isValidPage. crunch.
  destruct (w_fetch_head w (length (trace m)) url); crunch; eauto.
Qed.

Lemma detect_devserver_result (checks : list (Z * bool)) (m : Machine) :
  exists r calls,
    detect_devserver w checks m
    = (Returned r,
       {| state := state m; trace := (trace m ++ calls)%list |}) /\
    Forall is_head_request calls /\
    forall d, r = Some d ->
      dp_source d = SrcDevserver /\
      exists port, dp_port d = Some port /\ In port (map fst checks) /\
                   dp_url d = localhost_url port.
Proof.
  revert m.
  induction checks as [|[port open] checks IH]; intros m;
    cbn [detect_devserver].
  - exists None, []. unfold ret. rewrite app_nil_r. destruct m.
    split; [reflexivity|]. split; [constructor|].
    intros d H. discriminate.
  - assert (Hrest : forall m0 : Machine,
              exists r calls,
                detect_devserver w checks m0
                = (Returned r,
                   {| state := state m0;
                      trace := (trace m0 ++ calls)%list |}) /\
                Forall is_head_request calls /\
                forall d, r = Some d ->
                  dp_source d = SrcDevserver /\
                  exists p, dp_port d = Some p /\
                            In p (map fst ((port, open) :: checks)) /\
                            dp_url d = localhost_url p).
    { intros m0. destruct (IH m0) as (r & calls & H & F & U).
      exists r, calls. split; [exact H|]. split; [exact F|].
      intros d Hd. destruct (U d Hd) as (Hs & p & Hp & Hin & Hu).
      split; [exact Hs|]. exists p. repeat split; auto. now right. }
    destruct open; [|apply Hrest].
    destruct (isValidPage_result (localhost_url port) m) as (valid & Hv).
    rewrite (bind_returned _ _ m _ valid Hv).
    destruct valid.
    + eexists. exists [FetchHead (localhost_url port)].
      split; [reflexivity|]. split; [repeat constructor|].
      intros d Hd. injection Hd as <-. cbn. split; [reflexivity|].
      exists port. repeat split; auto.
    + destruct (Hrest {| state := state m;
                         trace := trace m
                                    ++ [FetchHead (localhost_url port)] |})
        as (r & calls & H & F & U).
      exists r, (FetchHead (localhost_url port) :: calls).
      rewrite H. cbn [state trace]. rewrite <- app_assoc.
      split; [reflexivity|]. split; [|exact U].
      constructor; [exact I | exact F].
Qed.

End DetectResults.

(** X26.  [detectActivePage] always returns a page, throws nothing and
    leaves the session untouched, and what it returns is well formed: a
    page found in a browser has a usable URL (not empty, not an internal
    page) and carries the debugging port, 9222 or 9229, it was found on; a
    page found on a development server has the local URL of one of the nine
    probed ports; the default is [http://localhost:5173/] without a
    port. *)
Theorem detectActivePage_well_formed (w : World) (m : Machine) :
  exists d m',
    detectActivePage w m = (Returned d, m') /\
    state m' = state m /\
    well_formed_detection d.
Proof.
  unfold detectActivePage.
  destruct (detect_cdp_result w CDP_PORTS m) as (r & m1 & H1 & S1 & U1).
  rewrite (bind_returned _ _ m m1 r H1).
  destruct r as [d|].
  - exists d, m1. split; [reflexivity|]. split; [exact S1|].
    destruct (U1 d eq_refl) as (Hs & port & Hp & Hin & Hu).
    unfold well_formed_detection. rewrite Hs. eauto.
  - destruct (probe_ports_result w DEV_PORTS m1) as (checks & H2 & Hm).
    rewrite (bind_returned _ _ m1 _ checks H2).
    match goal with |- context [bind _ _ ?m0] => set (m2 := m0) end.
    destruct (detect_devserver_result w checks m2) as (r & calls & H3 & _ & U3).
    rewrite (bind_returned _ _ m2 _ r H3).
    destruct r as [d|].
    + eexists. eexists. split; [reflexivity|]. split; [exact S1|].
      destruct (U3 d eq_refl) as (Hs & port & Hp & Hin & Hu).
      unfold well_formed_detection. rewrite Hs, Hm in *. eauto.
    + eexists. eexists. split; [reflexivity|]. split; [exact S1|].
      split; reflexivity.
Qed.

(** X27.  When no browser answers on the two debugging ports, the detection
    probes all nine development ports, in the order of the list, before it
    sends any HEAD request: the probing does not stop at the first open
    port, and every later call is a HEAD request. *)
Theorem detectActivePage_probes_every_port
        (w : World) (m : Machine) (e1 e2 : JsError) :
  w_cdp_pages w (length (trace m)) 9222 = Raised e1 ->
  w_cdp_pages w (S (length (trace m))) 9229 = Raised e2 ->
  exists heads,
    calls_between m (snd (detectActivePage w m))
      ([ConnectOverCDP 9222 None; ConnectOverCDP 9229 None]
         ++ map PortProbe DEV_PORTS ++ heads) /\
    Forall is_head_request heads.
Proof.
  intros C1 C2. unfold detectActivePage, CDP_PORTS.
  cbn [detect_cdp]. unfold getActiveTabFromCDP. crunch.
  rewrite C1. crunch. cbn [Js.supplied]. crunch.
  rewrite C2. crunch. cbn [Js.supplied]. crunch.
  match goal with |- context [probe_ports w DEV_PORTS ?m0] =>
    destruct (probe_ports_result w DEV_PORTS m0) as (checks & H2 & _);
    rewrite H2
  end.
  match goal with |- context [detect_devserver w checks ?m0] =>
    destruct (detect_devserver_result w checks m0) as (r & heads & H3 & F & _);
    rewrite H3
  end.
  exists heads. split; [|exact F].
  unfold calls_between.
  destruct r; cbn [snd state trace]; rewrite <- !app_assoc; reflexivity.
Qed.

Lemma detectActivePage_probes_every_port_witness :
  exists heads,
    calls_between initial_machine
      (snd (detectActivePage calm_world initial_machine))
      ([ConnectOverCDP 9222 None; ConnectOverCDP 9229 None]
         ++ map PortProbe DEV_PORTS ++ heads) /\
    Forall is_head_request heads.
Proof.
  apply (detectActivePage_probes_every_port calm_world initial_machine
           (ErrorObj "connect ECONNREFUSED")
           (ErrorObj "connect ECONNREFUSED")).
  - reflexivity.
  - reflexivity.
Defined.

Lemma check_servers_result (w : World) (ports : list Z) (m : Machine) :
  exists checks m',
    check_servers w ports m = (Returned checks, m') /\
    state m' = state m /\
    Subsequence (non_null checks)
                (map (fun port => (port, localhost_url port)) ports).
Proof.
  revert m. induction ports as [|port ports IH]; intros m;
    cbn [check_servers].
  - exists [], m. split; [reflexivity|]. split; [reflexivity|]. constructor.
  - unfold check_server at 1, isPortOpen. crunch.
    destruct (w_port_open w (length (trace m)) port).
    + match goal with |- context [isValidPage w ?u ?m0] =>
        destruct (isValidPage_result w u m0) as (valid & Hv); rewrite Hv
      end.
      crunch.
      match goal with |- context [check_servers w ports ?m0] =>
        destruct (IH m0) as (checks & m' & H & Hs & Hsub); rewrite H
      end.
      eexists. exists m'. split; [reflexivity|]. split; [exact Hs|].
      destruct valid; cbn [non_null map]; now constructor.
    + crunch.
      match goal with |- context [check_servers w ports ?m0] =>
        destruct (IH m0) as (checks & m' & H & Hs & Hsub); rewrite H
      end.
      eexists. exists m'. split; [reflexivity|]. split; [exact Hs|].
      cbn [non_null map]. now constructor.
Qed.

(** X28.  [detectRunningServers] always returns, throws nothing and leaves
    the session untouched; the servers it lists are development ports of the
    list, each with the local URL of its port, in the order of the list and
    each at most once. *)
Theorem detectRunningServers_lists_dev_ports (w : World) (m : Machine) :
  exists servers m',
    detectRunningServers w m = (Returned servers, m') /\
    state m' = state m /\
    Subsequence servers
                (map (fun port => (port, localhost_url port)) DEV_PORTS).
Proof.
  unfold detectRunningServers.
  destruct (check_servers_result w DEV_PORTS m) as (checks & m' & H & Hs & Hsub).
  rewrite (bind_returned _ _ m m' checks H).
  exists (non_null checks), m'. split; [reflexivity|]. now split.
Qed.

(** X29.  A tab of a browser that answers on the first debugging port wins
    over every development server: when the browser on port 9222 shows a
    usable page and the connection is closed without fault, the detection
    answers with the first such page, source [cdp] and port 9222, after
    exactly two calls; no development port is probed. *)
Theorem detectActivePage_prefers_browser_tab
        (w : World) (m : Machine) (urls : list string) (url : string) :
  w_cdp_pages w (length (trace m)) 9222 = Returned urls ->
  find usable_page_url urls = Some url ->
  w_exec w (S (length (trace m))) (BrowserClose (CdpBrowser 9222))
  = Returned tt ->
  detectActivePage w m
  = (Returned {| dp_url := url; dp_source := SrcCdp; dp_port := Some 9222%Z |},
     {| state := state m;
        trace := (trace m ++ [ConnectOverCDP 9222 None;
                              BrowserClose (CdpBrowser 9222)])%list |}).
Proof.
  intros C F B.
  assert (T : Js.supplied (Some url) = Some url).
  { apply find_some in F as [_ F]. unfold usable_page_url in F.
    unfold Js.supplied. destruct (Js.truthy url); [reflexivity|].
    discriminate. }
  unfold detectActivePage, CDP_PORTS. cbn [detect_cdp].
  unfold getActiveTabFromCDP. crunch. rewrite C. crunch. rewrite F. crunch.
  rewrite B. crunch. rewrite T. crunch. rewrite <- app_assoc. reflexivity.
Qed.

Lemma detectActivePage_prefers_browser_tab_witness :
  fst (detectActivePage (cdp_world ["about:blank"; "http://localhost:3000/app"])
                        initial_machine)
  = Returned {| dp_url := "http://localhost:3000/app"; dp_source := SrcCdp;
                dp_port := Some 9222%Z |}.
Proof.
  rewrite (detectActivePage_prefers_browser_tab
             (cdp_world ["about:blank"; "http://localhost:3000/app"])
             initial_machine
             ["about:blank"; "http://localhost:3000/app"]
             "http://localhost:3000/app" eq_refl eq_refl eq_refl).
  reflexivity.
Defined.

(** ** Session manager: attaching to a running browser *)

Lemma In_combine_r (A B : Type) (l1 : list A) (l2 : list B) (y : B) :
  length l1 = length l2 -> In y l2 -> exists x, In (x, y) (combine l1 l2).
Proof.
  revert l2. induction l1 as [|a l1 IH]; intros [|b l2] L H;
    try discriminate; try contradiction.
  cbn in L. injection L as L. destruct H as [->|H].
  - exists a. now left.
  - destruct (IH l2 L H) as (x & Hx). exists x. now right.
Qed.

Lemma match_page_exact (w : World) (target : string) (port : Z)
      (urls : list string) :
  In target urls -> usable_page_url target = true ->
  exists p, match_page w target (usable_pages port urls) = Some (p, target).
Proof.
  intros Hin Hus. unfold match_page.
  destruct (find (fun pu => String.eqb (snd pu) target)
                 (usable_pages port urls)) as [[p u]|] eqn:Hf.
  - apply find_some in Hf as [_ Hf]. cbn in Hf.
    apply String.eqb_eq in Hf. subst u. now exists p.
  - exfalso.
    destruct (In_combine_r _ _ (map (CdpPage port) (seq 0 (length urls)))
                urls target) as (p & Hp); [|exact Hin|].
    { now rewrite length_map, length_seq. }
    assert (Hu : In (p, target) (usable_pages port urls)).
    { unfold usable_pages. apply filter_In. now split. }
    pose proof (find_none _ _ Hf _ Hu) as Hn. cbn in Hn.
    now rewrite String.eqb_refl in Hn.
Qed.

(** X30.  With [USE_CDP=1], a session without a browser, and a browser on
    port 9222 one of whose tabs shows exactly the URL asked for, [getPage]
    attaches to a tab that shows this URL: it makes the one connection call,
    launches nothing and navigates nowhere, and the session becomes remote,
    tracking the URL that the page shows. *)
Theorem getPage_attaches_to_open_tab
        (w : World) (url : option string) (u : string) (m : Machine)
        (urls : list string) :
  browser (state m) = None ->
  env_is_1 (w_USE_CDP w) = true ->
  w_cdp_pages w (length (trace m)) 9222 = Returned urls ->
  Js.supplied url = Some u ->
  In u urls ->
  usable_page_url u = true ->
  exists p,
    In (p, u) (usable_pages 9222 urls) /\
    getPage w url m
    = (Returned p,
       {| state :=
            {| browser := Some (CdpBrowser 9222);
               context := Some (ContextOfPage p);
               page := Some p;
               currentUrl := Some (w_page_url w (S (length (trace m))) p);
               lastSnapshot := lastSnapshot (state m);
               isRemote := true |};
          trace := (trace m ++ [ConnectOverCDP 9222 (Some 2000%Z)])%list |}).
Proof.
  intros Hb Hcdp Hurls Hu Hin Hus.
  destruct (match_page_exact w u 9222 urls Hin Hus) as (p & Hm).
  assert (Hp : In (p, u) (usable_pages 9222 urls)).
  { unfold match_page in Hm.
    destruct (find (fun pu => String.eqb (snd pu) u)
                   (usable_pages 9222 urls)) as [q|] eqn:Hf.
    - injection Hm as ->. now apply find_some in Hf as [Hf _].
    - destruct (w_url_host w u); [|discriminate].
      now apply find_some in Hm as [Hm _]. }
  exists p. split; [exact Hp|].
  unfold getPage. crunch. rewrite Hb, Hcdp.
  unfold tryConnectCDP, CDP_PORTS. cbn [tryConnectCDP_from].
  unfold connect_port. crunch. rewrite Hurls. crunch.
  destruct (usable_pages 9222 urls) as [|first rest] eqn:Hup;
    [contradiction|].
  rewrite Hu, Hm. crunch. reflexivity.
Qed.

Lemma getPage_attaches_to_open_tab_witness :
  exists p,
    fst (getPage (cdp_world ["about:blank"; "http://localhost:3000/app"])
                 (Some "http://localhost:3000/app") initial_machine)
    = Returned p.
Proof.
  destruct (getPage_attaches_to_open_tab
              (cdp_world ["about:blank"; "http://localhost:3000/app"])
              (Some "http://localhost:3000/app") "http://localhost:3000/app"
              initial_machine ["about:blank"; "http://localhost:3000/app"]
              eq_refl eq_refl eq_refl eq_refl)
    as (p & _ & H).
  - right. left. reflexivity.
  - reflexivity.
  - exists p. rewrite H. reflexivity.
Defined.
